(** * Linear regression and feed-forward network: a shallow embedding

    The two numerical classes of the repository, [LinearRegression]
    (src/cpp/linear_regression.cpp) and [NeuralNetwork]
    (neural_network.cpp, the second file of src/unnamed/part_007, whose
    line numbers are the ones quoted below), are embedded as functions
    over lists of reals.

    Conventions of the embedding.
    - A C++ [double] is a real number of [R].  Rounding, overflow and the
      order of the OpenMP reductions are therefore outside the model; where
      the source itself creates or tests a non-finite value (the initial
      [best_mse = infinity], [std::isfinite], the pushed [NAN], a division
      by a zero sum of squares) the value is of type [fp], a real or the
      marker [NonFinite].
    - [std::vector<double>] is [list R], [Matrix] is [list (list R)],
      [size_t] is [nat] and [int] is [Z]; the allocation of a vector
      always succeeds.
    - A member function is a function from the object before the call to
      an outcome and the object after the call: a C++ exception leaves the
      object as it was at the [throw].
    - [std::random_device]/[std::mt19937] are oracles passed as arguments.
    - [v[i]] is [nth i v 0]; on objects that satisfy the dimension invariant
      of the class every index that is read is in range. *)

From Stdlib Require Import Reals Lra Lia List ZArith Bool Permutation.
From Stdlib Require Ascii String.
Import ListNotations.

Open Scope R_scope.

(** ** Outcomes, exceptions and the state-and-exception monad *)

Inductive exn : Type := InvalidArgument.

(** [Undefined] marks behaviour the C++ standard leaves undefined and that
    the public interface can reach (an [int] remainder by zero). *)
Inductive result (A : Type) : Type :=
| Ok (a : A)
| Throw (e : exn)
| Undefined.
Arguments Ok {A} a.
Arguments Throw {A} e.
Arguments Undefined {A}.

(** A [double] that the source may make non-finite. *)
Inductive fp : Type :=
| Finite (r : R)
| NonFinite.

Definition M (S A : Type) : Type := S -> result A * S.

Definition ret {S A} (a : A) : M S A := fun s => (Ok a, s).

Definition bind {S A B} (m : M S A) (k : A -> M S B) : M S B :=
  fun s =>
    match m s with
    | (Ok a, s') => k a s'
    | (Throw e, s') => (Throw e, s')
    | (Undefined, s') => (Undefined, s')
    end.

Definition throw {S A} (e : exn) : M S A := fun s => (Throw e, s).
Definition get {S} : M S S := fun s => (Ok s, s).
Definition put {S} (s : S) : M S unit := fun _ => (Ok tt, s).
(** A call of a static or [const] function: the object is not touched. *)
Definition lift {S A} (r : result A) : M S A := fun s => (r, s).

Declare Scope monad_scope.
Delimit Scope monad_scope with monad.
Notation "x <- m ;; k" := (bind m (fun x => k))
  (at level 61, m at next level, right associativity) : monad_scope.
Notation "m ;;; k" := (bind m (fun _ => k))
  (at level 61, right associativity) : monad_scope.

(** Pure error propagation, for the static helpers. *)
Definition rbind {A B} (r : result A) (k : A -> result B) : result B :=
  match r with
  | Ok a => k a
  | Throw e => Throw e
  | Undefined => Undefined
  end.

(** [for (size_t i = 0; i < n; ++i) s = body(i, s);] *)
Definition for_loop {S : Type} (n : nat) (body : nat -> S -> S) (s : S) : S :=
  fold_left (fun acc i => body i acc) (seq 0 n) s.

(** The spec's [Σ]: the sum of a list of reals. *)
Fixpoint Rsum (l : list R) : R :=
  match l with
  | [] => 0
  | x :: l' => x + Rsum l'
  end.

(** ** LinearRegression *)

Module LinearRegression.

Record t : Type := mk {
  slope : R;
  intercept : R;
  learning_rate : R;
  max_iterations : Z;
  batch_size : Z
}.

(** [LinearRegression::LinearRegression(lr, max_iter, batch_size)] *)
Definition new (lr : R) (max_iter : Z) (bs : Z) : t :=
  mk 0 0 lr max_iter bs.

Definition set_slope (m : t) (s : R) : t :=
  mk s (intercept m) (learning_rate m) (max_iterations m) (batch_size m).
Definition set_intercept (m : t) (b : R) : t :=
  mk (slope m) b (learning_rate m) (max_iterations m) (batch_size m).

(** [double predict(double x) const] *)
Definition predict (m : t) (x : R) : R := slope m * x + intercept m.

(** [double mean(const std::vector<double>& vec) const] *)
Definition mean (vec : list R) : result R :=
  match vec with
  | [] => Throw InvalidArgument
  | _ =>
      let sum := for_loop (length vec) (fun i sum => sum + nth i vec 0) 0 in
      Ok (sum / INR (length vec))
  end.

(** [double mean_squared_error(X, y) const] *)
Definition mean_squared_error (m : t) (X y : list R) : result R :=
  if negb (length X =? length y)%nat then Throw InvalidArgument
  else match X with
       | [] => Ok 0
       | _ =>
           let mse_sum :=
             for_loop (length X)
               (fun i mse_sum =>
                  let prediction := slope m * nth i X 0 + intercept m in
                  mse_sum + (prediction - nth i y 0) ^ 2) 0 in
           Ok (mse_sum / INR (length X))
       end.

(** [double get_mse(X, y) const] *)
Definition get_mse (m : t) (X y : list R) : result R :=
  mean_squared_error m X y.

(** [double get_r_squared(X, y) const].  The quotient [rss / tss] is not a
    real number when [tss] is zero; the sum [tss] is the exact one, a
    rounded sum can differ from zero where the exact one is zero. *)
Definition get_r_squared (m : t) (X y : list R) : result fp :=
  if negb (length X =? length y)%nat || (length X =? 0)%nat
  then Throw InvalidArgument
  else
    rbind (mean y) (fun y_mean =>
    let tss :=
      for_loop (length y)
        (fun i tss => let diff := nth i y 0 - y_mean in tss + diff * diff) 0 in
    rbind (mean_squared_error m X y) (fun mse =>
    let rss := mse * INR (length X) in
    if Req_dec_T tss 0 then Ok NonFinite
    else Ok (Finite (1 - rss / tss)))).

(** [void fit_analytical(X, y)] *)
Definition fit_analytical (X y : list R) : M t unit :=
  (if negb (length X =? length y)%nat then throw InvalidArgument
   else if (length X =? 0)%nat then throw InvalidArgument
   else
     let n := length X in
     mean_x <- lift (mean X) ;;
     mean_y <- lift (mean y) ;;
     let '(numerator, denominator) :=
       for_loop n
         (fun i '(numerator, denominator) =>
            let x_diff := nth i X 0 - mean_x in
            let y_diff := nth i y 0 - mean_y in
            (numerator + x_diff * y_diff, denominator + x_diff * x_diff))
         (0, 0) in
     m <- get ;;
     let m1 :=
       if Rlt_dec (Rabs denominator) 1e-10 then set_slope m 0
       else set_slope m (numerator / denominator) in
     put (set_intercept m1 (mean_y - slope m1 * mean_x)))%monad.

(** *** Gradient descent: [void fit(X, y)] *)

Definition tolerance : R := 1e-6.
Definition patience : Z := 5.

(** Lines 54-60: the batch vectors, of which the loop fills and the
    gradient loop reads the first [current_batch_size] entries. *)
Definition prepare_batch (V : list R) (indices : list nat)
    (batch_start current_batch_size : nat) : list R :=
  map (fun i => nth (nth (batch_start + i) indices 0%nat) V 0)
      (seq 0 current_batch_size).

(** Lines 62-78: gradient accumulation and parameter update. *)
Definition gradient_update (batch_X batch_y : list R)
    (current_batch_size : nat) (m : t) : t :=
  let '(slope_gradient, intercept_gradient) :=
    for_loop current_batch_size
      (fun i '(slope_gradient, intercept_gradient) =>
         let prediction := slope m * nth i batch_X 0 + intercept m in
         let error := prediction - nth i batch_y 0 in
         (slope_gradient + error * nth i batch_X 0,
          intercept_gradient + error))
      (0, 0) in
  let batch_scale := 1 / INR current_batch_size in
  let m1 :=
    set_slope m (slope m - learning_rate m * (slope_gradient * batch_scale)) in
  set_intercept m1
    (intercept m1 - learning_rate m1 * (intercept_gradient * batch_scale)).

(** Lines 52-78: the body of the mini-batch loop. *)
Definition minibatch_step (X y : list R) (indices : list nat)
    (batch_start : nat) (m : t) : t :=
  let n_samples := length X in
  let current_batch_size :=
    Nat.min (Z.to_nat (batch_size m)) (n_samples - batch_start) in
  let batch_X := prepare_batch X indices batch_start current_batch_size in
  let batch_y := prepare_batch y indices batch_start current_batch_size in
  gradient_update batch_X batch_y current_batch_size m.

(** [for (batch_start = 0; batch_start < n_samples; batch_start += batch_size)];
    [fuel] bounds the number of passes, [n_samples] passes are enough for a
    positive [batch_size] (lemma [batch_loop_fuel]). *)
Fixpoint batch_loop (fuel : nat) (X y : list R) (indices : list nat)
    (batch_start : nat) (m : t) : t :=
  match fuel with
  | O => m
  | S fuel' =>
      if (batch_start <? length X)%nat
      then batch_loop fuel' X y indices
             (batch_start + Z.to_nat (batch_size m))
             (minibatch_step X y indices batch_start m)
      else m
  end.

(** Lines 85-96: the early-stopping test on the MSE of one epoch.  The
    result is the new [best_mse], the new [no_improvement_count] and whether
    the loop is left by [break].  While [best_mse] is not finite (the
    initial infinity, or an MSE that was itself not finite) the guard
    [!std::isfinite(best_mse)] takes the epoch's MSE as the best, finite or
    not.  An MSE that is not finite is [+inf] or [NaN], a mean of squares
    is never [-inf]: against a finite best the improvement is then [-inf]
    or [NaN] and the comparison [improvement > relative_threshold] is
    false. *)
Definition early_stopping (best_mse : fp) (no_improvement_count : Z)
    (epoch_mse : fp) : fp * Z * bool :=
  match best_mse with
  | NonFinite => (epoch_mse, 0%Z, false)
  | Finite best =>
      match epoch_mse with
      | Finite mse =>
          let improvement := best - mse in
          let relative_threshold := tolerance * Rmax 1 best in
          if Rgt_dec improvement relative_threshold
          then (epoch_mse, 0%Z, false)
          else
            let c := (no_improvement_count + 1)%Z in
            (best_mse, c, (c >=? patience)%Z)
      | NonFinite =>
          let c := (no_improvement_count + 1)%Z in
          (best_mse, c, (c >=? patience)%Z)
      end
  end.

(** What one pass of the epoch loop leaves behind; the list of these
    records is a ghost trace of [fit]. *)
Record epoch_record : Type := mk_epoch {
  er_model : t;
  er_mse : R;
  er_best_mse : fp;
  er_count : Z;
  er_break : bool
}.

(** [for (int iter = 0; iter < max_iterations; ++iter)], by recursion on the
    number of passes that remain. *)
Fixpoint epoch_loop (shuffle : nat -> list nat -> list nat)
    (X y : list R) (remaining iter : nat) (indices : list nat)
    (best_mse : fp) (no_improvement_count : Z) : M t (list epoch_record) :=
  match remaining with
  | O => ret []
  | S remaining' =>
      (let indices := shuffle iter indices in
       m <- get ;;
       put (batch_loop (length X) X y indices 0 m) ;;;
       m <- get ;;
       epoch_mse <- lift (mean_squared_error m X y) ;;
       let '(best_mse', count', brk) :=
         early_stopping best_mse no_improvement_count (Finite epoch_mse) in
       let rec := mk_epoch m epoch_mse best_mse' count' brk in
       if brk then ret [rec]
       else
         rest <- epoch_loop shuffle X y remaining' (S iter) indices
                   best_mse' count' ;;
         ret (rec :: rest))%monad
  end.

(** [fit] with its ghost trace. *)
Definition fit_trace (shuffle : nat -> list nat -> list nat)
    (X y : list R) : M t (list epoch_record) :=
  (if negb (length X =? length y)%nat then throw InvalidArgument
   else if (length X =? 0)%nat then throw InvalidArgument
   else
     m <- get ;;
     if (batch_size m <=? 0)%Z then throw InvalidArgument
     else
       let n_samples := length X in
       let indices := seq 0 n_samples in
       epoch_loop shuffle X y (Z.to_nat (max_iterations m)) 0 indices
         NonFinite 0%Z)%monad.

Definition fit (shuffle : nat -> list nat -> list nat)
    (X y : list R) : M t unit :=
  (fit_trace shuffle X y ;;; ret tt)%monad.

(** [double get_slope() const] and [double get_intercept() const] *)
Definition get_slope (m : t) : R := slope m.
Definition get_intercept (m : t) : R := intercept m.

End LinearRegression.

(** ** NeuralNetwork *)

Module NeuralNetwork.

Definition Vector : Type := list R.
Definition Matrix : Type := list (list R).

Record t : Type := mk {
  layer_sizes_ : list nat;
  weights_ : list Matrix;
  biases_ : list Vector;
  learning_rate_ : R;
  layer_outputs_ : list Vector;
  layer_inputs_ : list Vector
}.

Definition set_weights (nn : t) (w : list Matrix) : t :=
  mk (layer_sizes_ nn) w (biases_ nn) (learning_rate_ nn)
     (layer_outputs_ nn) (layer_inputs_ nn).
Definition set_biases (nn : t) (b : list Vector) : t :=
  mk (layer_sizes_ nn) (weights_ nn) b (learning_rate_ nn)
     (layer_outputs_ nn) (layer_inputs_ nn).
Definition set_layer_outputs (nn : t) (o : list Vector) : t :=
  mk (layer_sizes_ nn) (weights_ nn) (biases_ nn) (learning_rate_ nn)
     o (layer_inputs_ nn).
Definition set_layer_inputs (nn : t) (z : list Vector) : t :=
  mk (layer_sizes_ nn) (weights_ nn) (biases_ nn) (learning_rate_ nn)
     (layer_outputs_ nn) z.

(** [v[i] = x] on a [std::vector]; the index is in range wherever the
    source writes. *)
Fixpoint list_set {A : Type} (i : nat) (x : A) (l : list A) : list A :=
  match l, i with
  | [], _ => []
  | _ :: l', O => x :: l'
  | a :: l', S i' => a :: list_set i' x l'
  end.

(** A loop over indices whose body may throw. *)
Fixpoint foldM {S A : Type} (body : nat -> A -> M S A) (l : list nat)
    (a : A) : M S A :=
  match l with
  | [] => ret a
  | i :: l' => (a' <- body i a ;; foldM body l' a')%monad
  end.

(** [for (size_t i = 0; i < n; ++i)] *)
Definition for_loopM {S A : Type} (n : nat) (body : nat -> A -> M S A)
    (a : A) : M S A :=
  foldM body (seq 0 n) a.

(** [std::transform(v1.begin(), v1.end(), v2.begin(), result.begin(), op)]
    with [result] of the size of [v1]. *)
Definition transform2 (op : R -> R -> R) (v1 v2 : Vector) : Vector :=
  map (fun k => op (nth k v1 0) (nth k v2 0)) (seq 0 (length v1)).

(** *** Activation and loss *)

Definition sigmoid (x : R) : R := 1 / (1 + exp (- x)).

Definition sigmoid_derivative (x : R) : R :=
  let sig := sigmoid x in sig * (1 - sig).

(** *** Matrix and vector operations *)

(** [Vector multiply(const Matrix&, const Vector&)] *)
Definition multiply (matrix : Matrix) (vector : Vector) : result Vector :=
  match matrix with
  | [] => Throw InvalidArgument
  | row0 :: _ =>
      if negb (length row0 =? length vector)%nat then Throw InvalidArgument
      else
        let rows := length matrix in
        let cols := length row0 in
        Ok (map (fun i =>
                   for_loop cols
                     (fun j acc => acc + nth j (nth i matrix []) 0 * nth j vector 0)
                     0)
                (seq 0 rows))
  end.

(** [Vector add(const Vector&, const Vector&)] *)
Definition add (vec1 vec2 : Vector) : result Vector :=
  if negb (length vec1 =? length vec2)%nat then Throw InvalidArgument
  else Ok (transform2 Rplus vec1 vec2).

(** [Vector subtract(const Vector&, const Vector&)] *)
Definition subtract (vec1 vec2 : Vector) : result Vector :=
  if negb (length vec1 =? length vec2)%nat then Throw InvalidArgument
  else Ok (transform2 Rminus vec1 vec2).

(** [Vector elementwise_multiply(const Vector&, const Vector&)] *)
Definition elementwise_multiply (vec1 vec2 : Vector) : result Vector :=
  if negb (length vec1 =? length vec2)%nat then Throw InvalidArgument
  else Ok (transform2 Rmult vec1 vec2).

(** [Matrix transpose(const Matrix&)] *)
Definition transpose (matrix : Matrix) : Matrix :=
  match matrix with
  | [] => []
  | row0 :: _ =>
      let rows := length matrix in
      let cols := length row0 in
      map (fun j => map (fun i => nth j (nth i matrix []) 0) (seq 0 rows))
          (seq 0 cols)
  end.

(** [Matrix outer_product(const Vector&, const Vector&)] *)
Definition outer_product (vec1 vec2 : Vector) : Matrix :=
  let rows := length vec1 in
  let cols := length vec2 in
  map (fun i => map (fun j => nth i vec1 0 * nth j vec2 0) (seq 0 cols))
      (seq 0 rows).

(** [Matrix multiply(const Matrix&, double)] *)
Definition multiply_matrix_scalar (mat : Matrix) (scalar : R) : Matrix :=
  map (fun row => map (fun val => val * scalar) row) mat.

(** [Matrix subtract(const Matrix&, const Matrix&)] *)
Definition subtract_matrix (mat1 mat2 : Matrix) : result Matrix :=
  if negb (length mat1 =? length mat2)%nat
     || (negb (length mat1 =? 0)%nat
         && negb (length (nth 0 mat1 []) =? length (nth 0 mat2 []))%nat)
  then Throw InvalidArgument
  else Ok (map (fun i => transform2 Rminus (nth i mat1 []) (nth i mat2 []))
               (seq 0 (length mat1))).

(** [Vector multiply(const Vector&, double)] *)
Definition multiply_vector_scalar (vec : Vector) (scalar : R) : Vector :=
  map (fun val => val * scalar) vec.

(** [double mean_squared_error(predicted, target)]: the quotient by
    [predicted.size()] is not a number on empty vectors. *)
Definition mean_squared_error (predicted target : Vector) : result fp :=
  if negb (length predicted =? length target)%nat then Throw InvalidArgument
  else
    let sum_sq_error :=
      for_loop (length predicted)
        (fun i sum_sq_error =>
           let error := nth i predicted 0 - nth i target 0 in
           sum_sq_error + error * error) 0 in
    match predicted with
    | [] => Ok NonFinite
    | _ => Ok (Finite (sum_sq_error / INR (length predicted)))
    end.

(** [Vector mean_squared_error_derivative(predicted, target)] *)
Definition mean_squared_error_derivative (predicted target : Vector)
    : result Vector :=
  if negb (length predicted =? length target)%nat then Throw InvalidArgument
  else subtract predicted target.

(** *** Construction *)

(** [initialize_weights_biases]: [dis i r c] and [bias_dis i r] are the
    numbers the two uniform distributions return for the weight
    [weights_[i][r][c]] and for the bias [biases_[i][r]]. *)
Definition initialize_weights_biases (dis : nat -> nat -> nat -> R)
    (bias_dis : nat -> nat -> R) (nn : t) : t :=
  let n := (length (layer_sizes_ nn) - 1)%nat in
  let w :=
    map (fun i =>
           let rows := nth (i + 1) (layer_sizes_ nn) 0%nat in
           let cols := nth i (layer_sizes_ nn) 0%nat in
           map (fun r =>
                  map (fun c => dis i r c * sqrt (1 / INR cols)) (seq 0 cols))
               (seq 0 rows))
        (seq 0 n) in
  let b :=
    map (fun i =>
           let rows := nth (i + 1) (layer_sizes_ nn) 0%nat in
           map (fun r => bias_dis i r) (seq 0 rows))
        (seq 0 n) in
  set_biases (set_weights nn w) b.

(** [NeuralNetwork::NeuralNetwork(layer_sizes, learning_rate)] *)
Definition new (dis : nat -> nat -> nat -> R) (bias_dis : nat -> nat -> R)
    (layer_sizes : list nat) (learning_rate : R) : result t :=
  let nn := mk layer_sizes [] [] learning_rate [] [] in
  if (length (layer_sizes_ nn) <? 2)%nat then Throw InvalidArgument
  else Ok (initialize_weights_biases dis bias_dis nn).

(** *** Forward pass and prediction *)

(** The body of the loop of [forward_pass], lines 360-371. *)
Definition forward_layer (num_hidden_layers : nat) (i : nat)
    (current_output : Vector) : M t Vector :=
  (nn <- get ;;
   wx <- lift (multiply (nth i (weights_ nn) []) current_output) ;;
   z <- lift (add wx (nth i (biases_ nn) [])) ;;
   put (set_layer_inputs nn (list_set i z (layer_inputs_ nn))) ;;;
   let current_output :=
     if (i <? num_hidden_layers)%nat then map sigmoid z else z in
   nn <- get ;;
   put (set_layer_outputs nn
          (list_set (i + 1) current_output (layer_outputs_ nn))) ;;;
   ret current_output)%monad.

(** Lines 350-353: the transient vectors are cleared and the input is
    stored as the output of layer 0. *)
Definition forward_init (input : Vector) (nn : t) : t :=
  let num_layers := length (layer_sizes_ nn) in
  let nn := set_layer_outputs nn (repeat [] num_layers) in
  let nn := set_layer_inputs nn (repeat [] (num_layers - 1)) in
  set_layer_outputs nn (list_set 0 input (layer_outputs_ nn)).

(** [Vector forward_pass(const Vector& input)] *)
Definition forward_pass (input : Vector) : M t Vector :=
  (nn <- get ;;
   if negb (length input =? nth 0 (layer_sizes_ nn) 0)%nat
   then throw InvalidArgument
   else
     put (forward_init input nn) ;;;
     let num_layers := length (layer_sizes_ nn) in
     let num_hidden_layers := (num_layers - 2)%nat in
     for_loopM (num_layers - 1) (forward_layer num_hidden_layers) input)%monad.

(** The body of the loop of [predict], lines 387-393. *)
Definition predict_layer (num_layers : nat) (i : nat)
    (current_output : Vector) : M t Vector :=
  (nn <- get ;;
   wx <- lift (multiply (nth i (weights_ nn) []) current_output) ;;
   z <- lift (add wx (nth i (biases_ nn) [])) ;;
   ret (if (i <? num_layers - 2)%nat then map sigmoid z else z))%monad.

(** [Vector predict(const Vector& input)] *)
Definition predict (input : Vector) : M t Vector :=
  (nn <- get ;;
   if negb (length input =? nth 0 (layer_sizes_ nn) 0)%nat
   then throw InvalidArgument
   else
     let num_layers := length (layer_sizes_ nn) in
     for_loopM (num_layers - 1) (predict_layer num_layers) input)%monad.

(** *** Backpropagation and training *)

(** The body of the loop of step 3 of [backpropagate], lines 421-429: the
    delta of a hidden layer from the delta of the layer ahead. *)
Definition delta_layer (i : nat) (deltas : list Vector)
    : M t (list Vector) :=
  (nn <- get ;;
   let W_T := transpose (nth i (weights_ nn) []) in
   propagated_delta <- lift (multiply W_T (nth i deltas [])) ;;
   let layer_input := nth (i - 1) (layer_inputs_ nn) [] in
   let sigmoid_deriv_hidden := map sigmoid_derivative layer_input in
   d <- lift (elementwise_multiply propagated_delta sigmoid_deriv_hidden) ;;
   ret (list_set (i - 1) d deltas))%monad.

(** Steps 2 and 3 of [backpropagate]: the vector [deltas], from the output
    layer back to the first hidden layer.  The loop variable [i] runs from
    [num_layers - 2] down to 1. *)
Definition compute_deltas (predicted_output target : Vector)
    : M t (list Vector) :=
  (nn <- get ;;
   let num_layers := length (layer_sizes_ nn) in
   let deltas : list Vector := repeat [] (num_layers - 1) in
   error_derivative <-
     lift (mean_squared_error_derivative predicted_output target) ;;
   let deltas := list_set (length deltas - 1) error_derivative deltas in
   foldM delta_layer (rev (seq 1 (num_layers - 2))) deltas)%monad.

(** The body of the loop of step 4 of [backpropagate], lines 434-447. *)
Definition update_layer (deltas : list Vector) (i : nat) (_ : unit)
    : M t unit :=
  (nn <- get ;;
   let current_delta := nth i deltas [] in
   let prev_layer_output := nth i (layer_outputs_ nn) [] in
   let grad_W := outer_product current_delta prev_layer_output in
   let grad_b := current_delta in
   w <- lift (subtract_matrix (nth i (weights_ nn) [])
                (multiply_matrix_scalar grad_W (learning_rate_ nn))) ;;
   put (set_weights nn (list_set i w (weights_ nn))) ;;;
   nn <- get ;;
   b <- lift (subtract (nth i (biases_ nn) [])
                (multiply_vector_scalar grad_b (learning_rate_ nn))) ;;
   put (set_biases nn (list_set i b (biases_ nn))))%monad.

(** Step 4 of [backpropagate]: the update of the weights and biases. *)
Definition update_parameters (deltas : list Vector) : M t unit :=
  (nn <- get ;;
   let num_layers := length (layer_sizes_ nn) in
   for_loopM (num_layers - 1) (update_layer deltas) tt)%monad.

(** [void backpropagate(const Vector& input, const Vector& target)]; the
    copy [last_layer_input] of line 414 is never read. *)
Definition backpropagate (input target : Vector) : M t unit :=
  (predicted_output <- forward_pass input ;;
   nn <- get ;;
   if negb (length target =? last (layer_sizes_ nn) 0)%nat
   then throw InvalidArgument
   else
     deltas <- compute_deltas predicted_output target ;;
     update_parameters deltas)%monad.

(** [void train(const Vector& input, const Vector& target)] *)
Definition train (input target : Vector) : M t unit :=
  backpropagate input target.

(** *** Training for several epochs *)

(** The lines [epoch=<int>,mse=<float>] written to [std::cout]. *)
Definition stdout : Type := list (Z * fp).

(** A member call inside a computation that also writes to [std::cout]. *)
Definition on_net {A : Type} (c : M t A) : M (t * stdout) A :=
  fun w => let '(r, nn') := c (fst w) in (r, (nn', snd w)).

Definition print_loss (epoch : Z) (mse : fp) : M (t * stdout) unit :=
  fun w => (Ok tt, (fst w, snd w ++ [(epoch, mse)])).

Definition fp_add (a b : fp) : fp :=
  match a, b with
  | Finite x, Finite y => Finite (x + y)
  | _, _ => NonFinite
  end.

(** [a /= n] for a sample count [n], which is positive where it is used. *)
Definition fp_div_size (a : fp) (n : nat) : fp :=
  match a with
  | Finite x => Finite (x / INR n)
  | NonFinite => NonFinite
  end.

(** Lines 494-505: the loss report of one epoch. *)
Definition report_loss (inputs targets : list Vector) (epoch epochs : Z)
    (report_every_n_epochs : Z) : M (t * stdout) unit :=
  (if (report_every_n_epochs =? 0)%Z then (fun w => (Undefined, w))
   else if (Z.rem (epoch + 1) report_every_n_epochs =? 0)%Z
           || (epoch =? epochs - 1)%Z
   then
     let n_samples := length inputs in
     current_mse <-
       for_loopM n_samples
         (fun i current_mse =>
            prediction <- on_net (predict (nth i inputs [])) ;;
            e <- lift (mean_squared_error prediction (nth i targets [])) ;;
            ret (fp_add current_mse e))
         (Finite 0) ;;
     print_loss (epoch + 1) (fp_div_size current_mse n_samples)
   else ret tt)%monad.

(** [for (int epoch = 0; epoch < epochs; ++epoch)], by recursion on the
    number of epochs that remain; [shuffle k] is the permutation applied by
    the [k]-th call of [std::shuffle]. *)
Fixpoint epoch_loop (shuffle : nat -> list nat -> list nat)
    (inputs targets : list Vector) (epochs report_every_n_epochs : Z)
    (remaining : nat) (epoch : nat) (indices : list nat)
    : M (t * stdout) unit :=
  match remaining with
  | O => ret tt
  | S remaining' =>
      (let indices := shuffle epoch indices in
       let n_samples := length inputs in
       for_loopM n_samples
         (fun i (_ : unit) =>
            let idx := nth i indices 0%nat in
            on_net (backpropagate (nth idx inputs []) (nth idx targets [])))
         tt ;;;
       report_loss inputs targets (Z.of_nat epoch) epochs
         report_every_n_epochs ;;;
       epoch_loop shuffle inputs targets epochs report_every_n_epochs
         remaining' (S epoch) indices)%monad
  end.

(** [Vector train_for_epochs(inputs, targets, epochs, report_every_n_epochs)];
    an entry of the returned vector is [NonFinite] where the source pushes
    [NAN]. *)
Definition train_for_epochs (shuffle : nat -> list nat -> list nat)
    (inputs targets : list Vector) (epochs report_every_n_epochs : Z)
    : M (t * stdout) (list fp) :=
  (if (length inputs =? 0)%nat || negb (length inputs =? length targets)%nat
   then throw InvalidArgument
   else
     let n_samples := length inputs in
     let indices := seq 0 n_samples in
     epoch_loop shuffle inputs targets epochs report_every_n_epochs
       (Z.to_nat epochs) 0 indices ;;;
     for_loopM n_samples
       (fun k final_predictions =>
          prediction <- on_net (predict (nth k inputs [])) ;;
          match prediction with
          | p0 :: _ => ret (final_predictions ++ [Finite p0])
          | [] => ret (final_predictions ++ [NonFinite])
          end)
       [])%monad.

End NeuralNetwork.

(** ** The invariant and the formulas of the specification for the network *)

Module NeuralNetworkSpec.

Import NeuralNetwork.

(** A matrix with [rows] rows of [cols] entries each. *)
Definition matrix_dims (W : Matrix) (rows cols : nat) : Prop :=
  length W = rows /\ Forall (fun row => length row = cols) W.

(** The invariant of the data model: [weights[i]] has dimensions
    [layer_sizes[i+1] × layer_sizes[i]] and [biases[i]] has length
    [layer_sizes[i+1]], for the at least two layers of the network. *)
Definition dims_ok (nn : t) : Prop :=
  let ls := layer_sizes_ nn in
  (2 <= length ls)%nat
  /\ length (weights_ nn) = (length ls - 1)%nat
  /\ length (biases_ nn) = (length ls - 1)%nat
  /\ forall i, (i < length ls - 1)%nat ->
       matrix_dims (nth i (weights_ nn) []) (nth (i + 1) ls 0%nat)
         (nth i ls 0%nat)
       /\ length (nth i (biases_ nn) []) = nth (i + 1) ls 0%nat.

(** The durable model state of two networks is the same. *)
Definition durable_eq (nn nn' : t) : Prop :=
  layer_sizes_ nn' = layer_sizes_ nn
  /\ weights_ nn' = weights_ nn
  /\ biases_ nn' = biases_ nn
  /\ learning_rate_ nn' = learning_rate_ nn.

(** What a call keeps of a network [nn]: the layer sizes, the learning
    rate and the dimensions of every weight matrix and bias vector. *)
Definition keeps_dims (nn s : t) : Prop :=
  layer_sizes_ s = layer_sizes_ nn
  /\ learning_rate_ s = learning_rate_ nn
  /\ dims_ok s.

(** Every layer after the input layer has at least one neuron. *)
Definition positive_layers (nn : t) : Prop :=
  forall i, (1 <= i < length (layer_sizes_ nn))%nat ->
    (0 < nth i (layer_sizes_ nn) 0)%nat.

(** A network that can be trained like [nn0]: it has the layer sizes of
    [nn0], the dimensions of the invariant and no empty layer after the
    first. *)
Definition trainable (nn0 s : t) : Prop :=
  layer_sizes_ s = layer_sizes_ nn0 /\ dims_ok s /\ positive_layers s.

(** The calls of the public and private interface that the invariant is
    stated over. *)
Inductive call : Type :=
| CallPredict (input : Vector)
| CallForwardPass (input : Vector)
| CallBackpropagate (input target : Vector)
| CallTrain (input target : Vector)
| CallTrainForEpochs (shuffle : nat -> list nat -> list nat)
    (inputs targets : list Vector) (epochs report_every_n_epochs : Z).

(** The network after one call, whatever its outcome (an exception is
    caught by the caller, the object lives on). *)
Definition run_call (c : call) (nn : t) : t :=
  match c with
  | CallPredict input => snd (predict input nn)
  | CallForwardPass input => snd (forward_pass input nn)
  | CallBackpropagate input target => snd (backpropagate input target nn)
  | CallTrain input target => snd (train input target nn)
  | CallTrainForEpochs shuffle inputs targets epochs every =>
      fst (snd (train_for_epochs shuffle inputs targets epochs every (nn, [])))
  end.

Definition run_calls (cs : list call) (nn : t) : t :=
  fold_left (fun nn c => run_call c nn) cs nn.

(** *** Linear algebra, as in the formulas *)

Definition dot (u v : Vector) : R :=
  Rsum (map (fun p => fst p * snd p) (combine u v)).

(** [W·v] *)
Definition mat_vec (W : Matrix) (v : Vector) : Vector :=
  map (fun row => dot row v) W.

Definition vec_add (u v : Vector) : Vector :=
  map (fun p => fst p + snd p) (combine u v).

Definition vec_sub (u v : Vector) : Vector :=
  map (fun p => fst p - snd p) (combine u v).

(** [u ⊙ v] *)
Definition hadamard (u v : Vector) : Vector :=
  map (fun p => fst p * snd p) (combine u v).

(** [Wᵀ·d] for a matrix of [cols] columns: entry [j] is [Σᵢ W[i][j]·d[i]]. *)
Definition mat_T_vec (cols : nat) (W : Matrix) (d : Vector) : Vector :=
  map (fun j => Rsum (map (fun p => nth j (fst p) 0 * snd p) (combine W d)))
      (seq 0 cols).

Section Formulas.

Variable nn : t.
Variable input target : Vector.

Let L := length (layer_sizes_ nn).
Let W (l : nat) : Matrix := nth l (weights_ nn) [].
Let b (l : nat) : Vector := nth l (biases_ nn) [].

(** [a_0] is the input; for the transition [l] from layer [l] to layer
    [l+1], [z_l = W_l·a_l + b_l] and [a_{l+1}] is [sigmoid(z_l)], or [z_l]
    itself for the last transition. *)
Fixpoint activation (l : nat) : Vector :=
  match l with
  | O => input
  | S l' =>
      let z := vec_add (mat_vec (W l') (activation l')) (b l') in
      if (l' <? L - 2)%nat then map sigmoid z else z
  end.

Definition pre_activation (l : nat) : Vector :=
  vec_add (mat_vec (W l) (activation l)) (b l).

(** The output of the network. *)
Definition output : Vector := activation (L - 1).

(** The network after a forward pass that returns: the durable state is
    untouched, the transient state holds every activation and every
    pre-activation. *)
Definition after_forward : t :=
  mk (layer_sizes_ nn) (weights_ nn) (biases_ nn) (learning_rate_ nn)
     (map activation (seq 0 L))
     (map pre_activation (seq 0 (L - 1))).

(** The delta of transition [l]: [predicted − target] for the last one,
    [(W_{l+1}ᵀ·delta_{l+1}) ⊙ sigmoid_derivative(z_l)] for the others;
    [fuel] counts the transitions up to the last one. *)
Fixpoint delta_from (fuel l : nat) : Vector :=
  match fuel with
  | O => vec_sub output target
  | S fuel' =>
      hadamard
        (mat_T_vec (nth (l + 1) (layer_sizes_ nn) 0%nat) (W (l + 1))
           (delta_from fuel' (l + 1)))
        (map sigmoid_derivative (pre_activation l))
  end.

Definition delta (l : nat) : Vector := delta_from (L - 2 - l) l.

(** [W_l − learning_rate × (delta_l ⊗ a_l)], entry by entry, where [a_l] is
    the activation that enters transition [l]. *)
Definition updated_weights (l : nat) : Matrix :=
  map (fun r =>
         map (fun c =>
                nth c (nth r (W l) []) 0
                - learning_rate_ nn * (nth r (delta l) 0 * nth c (activation l) 0))
             (seq 0 (nth l (layer_sizes_ nn) 0%nat)))
      (seq 0 (nth (l + 1) (layer_sizes_ nn) 0%nat)).

(** [b_l − learning_rate × delta_l] *)
Definition updated_biases (l : nat) : Vector :=
  map (fun r => nth r (b l) 0 - learning_rate_ nn * nth r (delta l) 0)
      (seq 0 (nth (l + 1) (layer_sizes_ nn) 0%nat)).

(** The network after a backpropagation step that returns. *)
Definition after_backpropagate : t :=
  mk (layer_sizes_ nn)
     (map updated_weights (seq 0 (L - 1)))
     (map updated_biases (seq 0 (L - 1)))
     (learning_rate_ nn)
     (map activation (seq 0 L))
     (map pre_activation (seq 0 (L - 1))).

End Formulas.

(** The network of the repository's tests (neural_network_tests.cpp):
    layers {1, 2, 1}, learning rate 0.5 and fixed weights and biases. *)
Definition test_network : t :=
  mk [1; 2; 1]%nat
     [[[0.1]; [-0.2]]; [[0.7; -0.3]]]
     [[0.3; -0.1]; [0.05]]
     0.5 [] [].

End NeuralNetworkSpec.

(** ** The formulas of the specification for the linear model

    These definitions follow the words of the specification; the theorems
    below compare them with the functions embedded from the source. *)

Module LinearRegressionSpec.

(** The sample mean [x̄]. *)
Definition mean (l : list R) : R := Rsum l / INR (length l).

(** [Σ (xᵢ − x̄)(yᵢ − ȳ)] *)
Definition cross_deviation (X y : list R) : R :=
  Rsum (map (fun p => (fst p - mean X) * (snd p - mean y)) (combine X y)).

(** [Σ (xᵢ − x̄)²] *)
Definition square_deviation (X : list R) : R :=
  Rsum (map (fun x => (x - mean X) ^ 2) X).

(** The mean over a batch of [(slope·xᵢ + intercept − yᵢ)²]. *)
Definition MSE_batch (slope intercept : R) (batch : list (R * R)) : R :=
  Rsum (map (fun p => (slope * fst p + intercept - snd p) ^ 2) batch)
  / INR (length batch).

(** [Σ errorᵢ·xᵢ] and [Σ errorᵢ] over a batch, with
    [errorᵢ = slope·xᵢ + intercept − yᵢ]. *)
Definition slope_gradient_sum (s b : R) (batch : list (R * R)) : R :=
  Rsum (map (fun p => (s * fst p + b - snd p) * fst p) batch).
Definition intercept_gradient_sum (s b : R) (batch : list (R * R)) : R :=
  Rsum (map (fun p => s * fst p + b - snd p) batch).

(** The early-stopping rule for one epoch, in the words of the
    specification: from the best MSE and the counter before the epoch and
    the MSE of the epoch, to the best MSE and the counter after it.  While
    no finite MSE has been seen (before the first epoch, or after MSEs
    that were not finite) the epoch's MSE is taken as the best and the
    counter is reset.  An MSE that is not finite is no improvement over a
    finite best. *)
Definition policy_step (best : fp) (count : Z) (epoch_mse : fp)
    (best' : fp) (count' : Z) : Prop :=
  match best with
  | NonFinite => best' = epoch_mse /\ count' = 0%Z
  | Finite b =>
      match epoch_mse with
      | Finite mse =>
          (b - mse > 1e-6 * Rmax 1 b ->
             best' = epoch_mse /\ count' = 0%Z)
          /\ (~ b - mse > 1e-6 * Rmax 1 b ->
             best' = best /\ count' = (count + 1)%Z)
      | NonFinite => best' = best /\ count' = (count + 1)%Z
      end
  end.

(** A trace of epochs that follows the rule: every record holds the MSE of
    the whole data set under the model the epoch left, that is the mean of
    [(slope·xᵢ + intercept − yᵢ)²] over all samples; the rule links each
    record to the one before it, and a record whose counter has reached 5
    is the last one. *)
Fixpoint follows_policy (X y : list R) (best : fp) (count : Z)
    (tr : list LinearRegression.epoch_record) : Prop :=
  match tr with
  | [] => True
  | rec :: tr' =>
      LinearRegression.er_mse rec
        = MSE_batch (LinearRegression.slope (LinearRegression.er_model rec))
            (LinearRegression.intercept (LinearRegression.er_model rec))
            (combine X y)
      /\ policy_step best count (Finite (LinearRegression.er_mse rec))
           (LinearRegression.er_best_mse rec) (LinearRegression.er_count rec)
      /\ ((5 <= LinearRegression.er_count rec)%Z -> tr' = [])
      /\ follows_policy X y (LinearRegression.er_best_mse rec)
           (LinearRegression.er_count rec) tr'
  end.

End LinearRegressionSpec.

(** ** The command line of the server: [parseLayerSizes] *)

Module MainServer.

Import Ascii String.

(** The items that [while (std::getline(ss, item, delim))] extracts from a
    stream over [s]: [item] collects the characters read since the last
    delimiter; at the end of the stream an item is extracted only if it is
    not empty. *)
Fixpoint getline_items (delim : ascii) (s : string) (item : string)
    : list string :=
  match s with
  | EmptyString => if (item =? "")%string then [] else [item]
  | String c s' =>
      if Ascii.eqb c delim then item :: getline_items delim s' ""%string
      else getline_items delim s' (item ++ String c "")%string
  end.

(** [strtoul(item, &end, 10)] on an item that starts with a decimal digit
    and denotes a value that fits [unsigned long]: the value of the longest
    prefix of digits and what follows it. *)
Fixpoint strtoul_digits (s : string) (acc : N) : N * string :=
  match s with
  | EmptyString => (acc, ""%string)
  | String c s' =>
      let d := N_of_ascii c in
      if ((48 <=? d) && (d <=? 57))%N
      then strtoul_digits s' (10 * acc + (d - 48))%N
      else (acc, s)
  end.

Section ParseLayerSizes.

(** [strtoul item] is the value that [std::strtoul(item.c_str(), &end, 10)]
    returns and the part of [item] that [end] points to;
    [size_max] is [std::numeric_limits<size_t>::max()]. *)
Variable strtoul : string -> N * string.
Variable size_max : N.

(** The body of the loop of [parseLayerSizes], lines 55-74, over the items
    that remain; the messages on [std::cerr] are not modelled. *)
Fixpoint parse_items (items : list string) (sizes : list nat)
    : result (list nat) :=
  match items with
  | [] => Ok sizes
  | item :: items' =>
      if (item =? "")%string then parse_items items' sizes
      else
        let '(val_ul, end_) := strtoul item in
        if negb (end_ =? "")%string
           || (size_max <? val_ul)%N
           || ((val_ul =? 0)%N && negb (item =? "0")%string)
        then Throw InvalidArgument
        else
          let val := N.to_nat val_ul in
          if (val =? 0)%nat then Throw InvalidArgument
          else parse_items items' (sizes ++ [val])
  end.

(** [std::vector<size_t> parseLayerSizes(const std::string& s)] *)
Definition parseLayerSizes (s : string) : result (list nat) :=
  rbind (parse_items (getline_items "-"%char s ""%string) [])
    (fun sizes =>
       if (List.length sizes <? 2)%nat then Throw InvalidArgument
       else Ok sizes).

End ParseLayerSizes.

(** Lines 190-199 of [main]: every flat sample becomes a vector of one
    entry. *)
Definition to_samples (flat : list R) : list (list R) :=
  map (fun x => [x]) flat.

End MainServer.

(** ** The web server: scaling of the samples (server.js) *)

Module Server.

(** The object [{ scaled, min, range }]. *)
Record scaling : Type := mk_scaling {
  scaled : list R;
  min : R;
  range : R
}.

(** [Math.min(x, ...l)] and [Math.max(x, ...l)] *)
Definition Math_min (x : R) (l : list R) : R := fold_left Rmin l x.
Definition Math_max (x : R) (l : list R) : R := fold_left Rmax l x.

(** [function scaleData(data)]; a missing [data] is the empty array. *)
Definition scaleData (data : list R) : scaling :=
  match data with
  | [] => mk_scaling [] 0 1
  | x :: l =>
      let min := Math_min x l in
      let max := Math_max x l in
      let range := if Req_dec_T (max - min) 0 then 1 else max - min in
      let scaled := map (fun val => (val - min) / range) data in
      mk_scaling scaled min range
  end.

(** [function inverseScaleData(scaledData, min, range)] *)
Definition inverseScaleData (scaledData : list R) (min range : R) : list R :=
  map (fun val => val * range + min) scaledData.

End Server.

(** ** Further formulas for the network *)

Module NeuralNetworkFormulas.

Import NeuralNetwork.

(** The mean over the components of [(predictedᵢ − targetᵢ)²]. *)
Definition mse_value (predicted target : Vector) : R :=
  Rsum (map (fun q => (fst q - snd q) ^ 2) (combine predicted target))
  / INR (length predicted).

(** The epochs, counted from 0, after which [train_for_epochs] reports the
    loss: every [report_every_n_epochs]-th one and the last one. *)
Definition reported (epochs report_every_n_epochs : Z) (epoch : nat) : bool :=
  (Z.rem (Z.of_nat epoch + 1) report_every_n_epochs =? 0)%Z
  || (Z.of_nat epoch =? epochs - 1)%Z.

(** The loss that [train_for_epochs] reports: the mean over the samples of
    the mean squared error of the network's output. *)
Definition dataset_mse (nn : t) (inputs targets : list Vector) : R :=
  Rsum (map (fun i =>
               mse_value (NeuralNetworkSpec.output nn (nth i inputs []))
                 (nth i targets []))
            (seq 0 (length inputs)))
  / INR (length inputs).

End NeuralNetworkFormulas.

(* ================================================================== *)
(** * Properties *)

(** ** Loops and sums *)

Lemma for_loop_S {S : Type} (n : nat) (body : nat -> S -> S) (s : S) :
  for_loop (Datatypes.S n) body s = body n (for_loop n body s).
Proof.
  unfold for_loop. rewrite seq_S, fold_left_app. reflexivity.
Qed.

Lemma for_loop_ext {S : Type} (n : nat) (f g : nat -> S -> S) (s : S) :
  (forall i a, (i < n)%nat -> f i a = g i a) ->
  for_loop n f s = for_loop n g s.
Proof.
  intros H. induction n as [|n IH].
  - reflexivity.
  - rewrite !for_loop_S, IH by (intros; apply H; lia). apply H. lia.
Qed.

(** An accumulation [acc += f i] is the sum of the [f i]. *)
Lemma for_loop_sum (n : nat) (f : nat -> R) (a : R) :
  for_loop n (fun i acc => acc + f i) a = a + Rsum (map f (seq 0 n)).
Proof.
  induction n as [|n IH].
  - cbn. lra.
  - rewrite for_loop_S, IH, seq_S, map_app. cbn.
    assert (E : forall l x, Rsum (l ++ [x]) = Rsum l + x).
    { induction l as [|h l IHl]; intros x; cbn; [lra | rewrite IHl; lra]. }
    rewrite E. lra.
Qed.

(** Two accumulators updated in one loop are two independent sums. *)
Lemma for_loop_sum_pair (n : nat) (f g : nat -> R) (a b : R) :
  for_loop n (fun i '(u, v) => (u + f i, v + g i)) (a, b)
  = (a + Rsum (map f (seq 0 n)), b + Rsum (map g (seq 0 n))).
Proof.
  induction n as [|n IH].
  - cbn. f_equal; lra.
  - rewrite for_loop_S, IH, seq_S, !map_app. cbn.
    assert (E : forall l x, Rsum (l ++ [x]) = Rsum l + x).
    { induction l as [|h l IHl]; intros x; cbn; [lra | rewrite IHl; lra]. }
    rewrite !E. f_equal; lra.
Qed.

Lemma Rsum_map_nth (f : R -> R) (l : list R) :
  Rsum (map (fun i => f (nth i l 0)) (seq 0 (length l))) = Rsum (map f l).
Proof.
  induction l as [|x l IH].
  - reflexivity.
  - cbn [length]. rewrite <- cons_seq, <- seq_shift. cbn [map Rsum nth].
    rewrite map_map. cbn [nth]. rewrite IH. reflexivity.
Qed.

Lemma Rsum_map_nth2 (g : R -> R -> R) (X y : list R) :
  length X = length y ->
  Rsum (map (fun i => g (nth i X 0) (nth i y 0)) (seq 0 (length X)))
  = Rsum (map (fun p => g (fst p) (snd p)) (combine X y)).
Proof.
  revert y. induction X as [|x X IH]; intros [|b y] E; try discriminate.
  - reflexivity.
  - cbn [length]. rewrite <- cons_seq, <- seq_shift. cbn [map Rsum nth combine fst snd].
    rewrite map_map. cbn [nth]. rewrite IH by (cbn in E; lia). reflexivity.
Qed.

(** ** LinearRegression: the closed form and the metrics *)

Module LinearRegressionFacts.

Import LinearRegression.
Module Spec := LinearRegressionSpec.

Lemma mean_ok (l : list R) : l <> [] -> mean l = Ok (Spec.mean l).
Proof.
  intros Hl. destruct l as [|x l]; [congruence|].
  unfold mean, Spec.mean. rewrite for_loop_sum.
  rewrite (Rsum_map_nth (fun v => v)), map_id. do 2 f_equal. lra.
Qed.

Lemma mean_throws (l : list R) : mean l = Throw InvalidArgument <-> l = [].
Proof.
  destruct l; cbn; split; intros H; congruence || reflexivity.
Qed.

Lemma length_zero_nil {A} (l : list A) : (length l =? 0)%nat = true <-> l = [].
Proof.
  rewrite Nat.eqb_eq. apply length_zero_iff_nil.
Qed.

(** The accumulated sum of squared errors of [mean_squared_error]. *)
Lemma mean_squared_error_ok (m : t) (X y : list R) :
  length X = length y -> X <> [] ->
  mean_squared_error m X y
  = Ok (Spec.MSE_batch (slope m) (intercept m) (combine X y)).
Proof.
  intros E Hx. unfold mean_squared_error.
  rewrite (proj2 (Nat.eqb_eq _ _) E). cbn [negb].
  destruct X as [|x X]; [congruence|].
  unfold Spec.MSE_batch. rewrite for_loop_sum.
  rewrite (Rsum_map_nth2 (fun a b => (slope m * a + intercept m - b) ^ 2)) by exact E.
  rewrite length_combine, <- E, Nat.min_id. do 2 f_equal. lra.
Qed.

Lemma fit_analytical_sums (X y : list R) (mx my : R) :
  length X = length y ->
  for_loop (length X)
    (fun i '(numerator, denominator) =>
       let x_diff := nth i X 0 - mx in
       let y_diff := nth i y 0 - my in
       (numerator + x_diff * y_diff, denominator + x_diff * x_diff))
    (0, 0)
  = (Rsum (map (fun p => (fst p - mx) * (snd p - my)) (combine X y)),
     Rsum (map (fun x => (x - mx) ^ 2) X)).
Proof.
  intros E.
  rewrite (for_loop_sum_pair (length X)
             (fun i => (nth i X 0 - mx) * (nth i y 0 - my))
             (fun i => (nth i X 0 - mx) * (nth i X 0 - mx))).
  rewrite (Rsum_map_nth2 (fun a b => (a - mx) * (b - my))) by exact E.
  rewrite (Rsum_map_nth (fun a => (a - mx) * (a - mx))).
  f_equal; [lra|]. rewrite Rplus_0_l. f_equal.
  apply map_ext. intros a. ring.
Qed.

(** C3. [fit_analytical] throws [InvalidArgument] exactly when the lengths
    differ or the inputs are empty, and then leaves the model as it was;
    on equal-length non-empty inputs it returns with
    slope = Σ(xᵢ−x̄)(yᵢ−ȳ) / Σ(xᵢ−x̄)², or 0 when the absolute value of that
    denominator is below 1e-10, and intercept = ȳ − slope·x̄. *)
Theorem fit_analytical_closed_form (m : t) (X y : list R) :
  (fst (fit_analytical X y m) = Throw InvalidArgument
   <-> (length X <> length y \/ X = [] \/ y = []))
  /\ (fst (fit_analytical X y m) = Throw InvalidArgument ->
      snd (fit_analytical X y m) = m)
  /\ (length X = length y -> X <> [] ->
      exists m',
        fit_analytical X y m = (Ok tt, m')
        /\ (Rabs (Spec.square_deviation X) < 1e-10 ->
            slope m' = 0 /\ intercept m' = Spec.mean y)
        /\ (~ Rabs (Spec.square_deviation X) < 1e-10 ->
            slope m' = Spec.cross_deviation X y / Spec.square_deviation X)
        /\ intercept m' = Spec.mean y - slope m' * Spec.mean X
        /\ learning_rate m' = learning_rate m
        /\ max_iterations m' = max_iterations m
        /\ batch_size m' = batch_size m).
Proof.
  assert (Hok : length X = length y -> X <> [] ->
      exists m',
        fit_analytical X y m = (Ok tt, m')
        /\ (Rabs (Spec.square_deviation X) < 1e-10 ->
            slope m' = 0 /\ intercept m' = Spec.mean y)
        /\ (~ Rabs (Spec.square_deviation X) < 1e-10 ->
            slope m' = Spec.cross_deviation X y / Spec.square_deviation X)
        /\ intercept m' = Spec.mean y - slope m' * Spec.mean X
        /\ learning_rate m' = learning_rate m
        /\ max_iterations m' = max_iterations m
        /\ batch_size m' = batch_size m).
  { intros E Hx.
    assert (Hy : y <> []) by (destruct X, y; cbn in E; congruence).
    unfold fit_analytical.
    rewrite (proj2 (Nat.eqb_eq _ _) E). cbn [negb].
    destruct (length X =? 0)%nat eqn:E0;
      [apply length_zero_nil in E0; congruence|].
    unfold bind, lift, get, put.
    rewrite (mean_ok X Hx), (mean_ok y Hy).
    rewrite (fit_analytical_sums X y _ _ E).
    fold (Spec.cross_deviation X y). fold (Spec.square_deviation X).
    destruct (Rlt_dec (Rabs (Spec.square_deviation X)) 1e-10) as [Hd|Hd];
      eexists; (split; [reflexivity|]); cbn;
      repeat split; intros; try reflexivity; try contradiction; ring. }
  split; [|split]; [| |exact Hok].
  - split.
    + intros Ht.
      destruct (Nat.eq_dec (length X) (length y)) as [E|E]; [|now left].
      destruct X as [|x X]; [now right; left|].
      destruct (Hok E) as (m' & Hm' & _); [discriminate|].
      rewrite Hm' in Ht. discriminate.
    + intros H. unfold fit_analytical.
      destruct (length X =? length y)%nat eqn:E; [|reflexivity]. cbn [negb].
      apply Nat.eqb_eq in E.
      destruct (length X =? 0)%nat eqn:E0; [reflexivity|].
      exfalso. apply Nat.eqb_neq in E0.
      destruct H as [H|[H|H]]; subst; cbn in *; try lia; congruence.
  - intros Ht. unfold fit_analytical in *.
    destruct (length X =? length y)%nat eqn:E; [|reflexivity]. cbn [negb] in *.
    destruct (length X =? 0)%nat eqn:E0; [reflexivity|].
    apply Nat.eqb_eq in E. apply Nat.eqb_neq in E0.
    destruct (Hok E) as (m' & Hm' & _); [destruct X; cbn in *; congruence|].
    rewrite Hm' in Ht. discriminate.
Qed.

Lemma fit_analytical_closed_form_witness :
  exists m',
    fit_analytical [1; 2; 3; 4] [3; 5; 7; 9] (new 0.01 1000 32) = (Ok tt, m')
    /\ slope m' = 2 /\ intercept m' = 1.
Proof.
  destruct (fit_analytical_closed_form (new 0.01 1000 32)
              [1; 2; 3; 4] [3; 5; 7; 9]) as (_ & _ & H).
  destruct H as (m' & Hrun & _ & Hs & Hi & _); [reflexivity|discriminate|].
  assert (Hm : Spec.mean [1; 2; 3; 4] = 5 / 2).
  { unfold Spec.mean. cbn. lra. }
  assert (Hmy : Spec.mean [3; 5; 7; 9] = 6).
  { unfold Spec.mean. cbn. lra. }
  assert (Hd : Spec.square_deviation [1; 2; 3; 4] = 5).
  { unfold Spec.square_deviation. rewrite Hm. cbn. lra. }
  assert (Hc : Spec.cross_deviation [1; 2; 3; 4] [3; 5; 7; 9] = 10).
  { unfold Spec.cross_deviation. rewrite Hm, Hmy. cbn. lra. }
  exists m'. split; [exact Hrun|].
  rewrite Hd, Hc in Hs. rewrite Hm, Hmy in Hi.
  assert (Hs' : slope m' = 2).
  { rewrite Hs; [lra|]. rewrite Rabs_pos_eq; lra. }
  split; [exact Hs'|]. rewrite Hi, Hs'. lra.
Defined.

(** C7. [get_mse] on two empty vectors returns 0 and does not throw, it
    throws [InvalidArgument] on vectors of different lengths; and
    [get_r_squared] throws [InvalidArgument] exactly when the lengths differ
    or the vectors are empty. *)
Theorem metrics_empty_asymmetry (m : t) :
  get_mse m [] [] = Ok 0
  /\ (forall X y, length X <> length y ->
        get_mse m X y = Throw InvalidArgument)
  /\ (forall X y, get_r_squared m X y = Throw InvalidArgument
        <-> (length X <> length y \/ X = [] \/ y = [])).
Proof.
  split; [reflexivity|]. split.
  - intros X y Hne. unfold get_mse, mean_squared_error.
    rewrite (proj2 (Nat.eqb_neq _ _) Hne). reflexivity.
  - intros X y. unfold get_r_squared.
    destruct (length X =? length y)%nat eqn:E; cbn [negb orb].
    + apply Nat.eqb_eq in E.
      destruct (length X =? 0)%nat eqn:E0.
      * apply length_zero_nil in E0. split; auto.
      * assert (Hx : X <> []) by (intros ->; discriminate).
        assert (Hy : y <> []) by (destruct X, y; cbn in *; congruence).
        rewrite (mean_ok y Hy), (mean_squared_error_ok m X y E Hx).
        cbn [rbind].
        split.
        -- destruct Req_dec_T; discriminate.
        -- intros [H|[H|H]]; congruence.
    + apply Nat.eqb_neq in E. split; auto.
Qed.

Lemma metrics_empty_asymmetry_witness :
  get_mse (new 0.01 1000 32) [] [] = Ok 0
  /\ get_mse (new 0.01 1000 32) [1] [] = Throw InvalidArgument
  /\ get_r_squared (new 0.01 1000 32) [] [] = Throw InvalidArgument.
Proof.
  destruct (metrics_empty_asymmetry (new 0.01 1000 32)) as (H0 & Hm & Hr).
  split; [exact H0|]. split.
  - apply Hm. cbn. discriminate.
  - apply Hr. right. left. reflexivity.
Defined.

(** *** The mini-batch step and the gradient of the batch loss *)

Lemma derivable_pt_lim_ext (f g : R -> R) (x l : R) :
  (forall t, f t = g t) -> derivable_pt_lim f x l -> derivable_pt_lim g x l.
Proof.
  intros H D eps He. destruct (D eps He) as [d Hd].
  exists d. intros h Hh Hlt. rewrite <- !H. apply Hd; assumption.
Qed.

(** d/dt (a·t + c)² = 2·(a·t + c)·a *)
Lemma derivable_pt_lim_affine_sq (a c t : R) :
  derivable_pt_lim (fun t => (a * t + c) ^ 2) t (2 * (a * t + c) * a).
Proof.
  set (g := (fct_cte a * id + fct_cte c)%F).
  assert (Dg : derivable_pt_lim g t a).
  { unfold g.
    replace a with (0 * id t + fct_cte a t * 1 + 0) at 2
      by (unfold id, fct_cte; ring).
    apply derivable_pt_lim_plus.
    - apply derivable_pt_lim_mult.
      + apply derivable_pt_lim_const.
      + apply derivable_pt_lim_id.
    - apply derivable_pt_lim_const. }
  apply (derivable_pt_lim_ext (g * g)%F).
  - intros u. unfold g, mult_fct, plus_fct, fct_cte, id. ring.
  - replace (2 * (a * t + c) * a) with (a * g t + g t * a)
      by (unfold g, mult_fct, plus_fct, fct_cte, id; ring).
    apply derivable_pt_lim_mult; exact Dg.
Qed.

Lemma derivable_pt_lim_Rsum {A : Type} (f : A -> R -> R) (f' : A -> R)
    (l : list A) (t : R) :
  (forall a, In a l -> derivable_pt_lim (f a) t (f' a)) ->
  derivable_pt_lim (fun t => Rsum (map (fun a => f a t) l)) t
    (Rsum (map f' l)).
Proof.
  induction l as [|a l IH]; intros H; cbn [map Rsum].
  - apply derivable_pt_lim_const.
  - apply (derivable_pt_lim_plus (f a)
             (fun t => Rsum (map (fun a => f a t) l))).
    + apply H. now left.
    + apply IH. intros b Hb. apply H. now right.
Qed.

Lemma Rsum_scal {A : Type} (k : R) (f : A -> R) (l : list A) :
  Rsum (map (fun a => k * f a) l) = k * Rsum (map f l).
Proof.
  induction l as [|a l IH]; cbn [map Rsum]; [ring | rewrite IH; ring].
Qed.

(** ∂MSE_batch/∂slope = (2/n)·Σ errorᵢ·xᵢ *)
Lemma MSE_batch_d_slope (s b : R) (batch : list (R * R)) :
  derivable_pt_lim (fun s => Spec.MSE_batch s b batch) s
    (2 * (Spec.slope_gradient_sum s b batch / INR (length batch))).
Proof.
  unfold Spec.MSE_batch, Spec.slope_gradient_sum.
  apply (derivable_pt_lim_ext
           (mult_real_fct (/ INR (length batch))
              (fun s => Rsum (map (fun p => (fst p * s + (b - snd p)) ^ 2) batch)))).
  - intros u. unfold mult_real_fct, Rdiv. rewrite Rmult_comm. f_equal.
    f_equal. apply map_ext. intros p. ring.
  - replace (2 * (Rsum (map (fun p => (s * fst p + b - snd p) * fst p) batch)
                  / INR (length batch)))
      with (/ INR (length batch)
            * Rsum (map (fun p => 2 * (fst p * s + (b - snd p)) * fst p) batch)).
    + apply derivable_pt_lim_scal.
      apply (derivable_pt_lim_Rsum
               (fun p s => (fst p * s + (b - snd p)) ^ 2)
               (fun p => 2 * (fst p * s + (b - snd p)) * fst p)).
      intros p _. apply derivable_pt_lim_affine_sq.
    + assert (E : Rsum (map (fun p => 2 * (fst p * s + (b - snd p)) * fst p) batch)
                  = 2 * Rsum (map (fun p => (s * fst p + b - snd p) * fst p) batch)).
      { rewrite <- Rsum_scal. f_equal. apply map_ext. intros p. ring. }
      rewrite E. unfold Rdiv. ring.
Qed.

(** ∂MSE_batch/∂intercept = (2/n)·Σ errorᵢ *)
Lemma MSE_batch_d_intercept (s b : R) (batch : list (R * R)) :
  derivable_pt_lim (fun b => Spec.MSE_batch s b batch) b
    (2 * (Spec.intercept_gradient_sum s b batch / INR (length batch))).
Proof.
  unfold Spec.MSE_batch, Spec.intercept_gradient_sum.
  apply (derivable_pt_lim_ext
           (mult_real_fct (/ INR (length batch))
              (fun b => Rsum (map (fun p => (1 * b + (s * fst p - snd p)) ^ 2) batch)))).
  - intros u. unfold mult_real_fct, Rdiv. rewrite Rmult_comm. f_equal.
    f_equal. apply map_ext. intros p. ring.
  - replace (2 * (Rsum (map (fun p => s * fst p + b - snd p) batch)
                  / INR (length batch)))
      with (/ INR (length batch)
            * Rsum (map (fun p => 2 * (1 * b + (s * fst p - snd p)) * 1) batch)).
    + apply derivable_pt_lim_scal.
      apply (derivable_pt_lim_Rsum
               (fun p b => (1 * b + (s * fst p - snd p)) ^ 2)
               (fun p => 2 * (1 * b + (s * fst p - snd p)) * 1)).
      intros p _. apply derivable_pt_lim_affine_sq.
    + assert (E : Rsum (map (fun p => 2 * (1 * b + (s * fst p - snd p)) * 1) batch)
                  = 2 * Rsum (map (fun p => s * fst p + b - snd p) batch)).
      { rewrite <- Rsum_scal. f_equal. apply map_ext. intros p. ring. }
      rewrite E. unfold Rdiv. ring.
Qed.

Lemma prepare_batch_length (V : list R) (indices : list nat) (start c : nat) :
  length (prepare_batch V indices start c) = c.
Proof.
  unfold prepare_batch. rewrite length_map, length_seq. reflexivity.
Qed.

(** What [gradient_update] writes, in terms of the sums over the batch. *)
Lemma gradient_update_sums (bx by_ : list R) (m : t) :
  length bx = length by_ ->
  let batch := combine bx by_ in
  let m' := gradient_update bx by_ (length bx) m in
  slope m' = slope m - learning_rate m
               * (Spec.slope_gradient_sum (slope m) (intercept m) batch
                  / INR (length batch))
  /\ intercept m' = intercept m - learning_rate m
               * (Spec.intercept_gradient_sum (slope m) (intercept m) batch
                  / INR (length batch))
  /\ learning_rate m' = learning_rate m
  /\ max_iterations m' = max_iterations m
  /\ batch_size m' = batch_size m.
Proof.
  intros E batch m'. subst batch m'. unfold gradient_update.
  rewrite (for_loop_sum_pair (length bx)
             (fun i => (slope m * nth i bx 0 + intercept m - nth i by_ 0)
                       * nth i bx 0)
             (fun i => slope m * nth i bx 0 + intercept m - nth i by_ 0)).
  rewrite (Rsum_map_nth2 (fun a b => (slope m * a + intercept m - b) * a))
    by exact E.
  rewrite (Rsum_map_nth2 (fun a b => slope m * a + intercept m - b))
    by exact E.
  rewrite length_combine, <- E, Nat.min_id.
  unfold Spec.slope_gradient_sum, Spec.intercept_gradient_sum.
  cbn. repeat split; unfold Rdiv; ring.
Qed.

(** C1 (amended). On a non-empty batch the mini-batch step of [fit]
    subtracts from the slope and from the intercept [learning_rate] times
    one half of the partial derivative of the batch mean-squared error,
    taken at the parameters before the step; that is, [learning_rate] times
    the batch mean of [errorᵢ·xᵢ] and of [errorᵢ]. *)
Theorem minibatch_step_half_gradient (m : t) (X y : list R)
    (indices : list nat) (batch_start : nat) :
  (0 < batch_size m)%Z -> (batch_start < length X)%nat ->
  let c := Nat.min (Z.to_nat (batch_size m)) (length X - batch_start) in
  let batch := combine (prepare_batch X indices batch_start c)
                       (prepare_batch y indices batch_start c) in
  let m' := minibatch_step X y indices batch_start m in
  batch <> []
  /\ exists Ds Di,
       derivable_pt_lim (fun s => Spec.MSE_batch s (intercept m) batch)
         (slope m) Ds
       /\ derivable_pt_lim (fun b => Spec.MSE_batch (slope m) b batch)
            (intercept m) Di
       /\ slope m' = slope m - learning_rate m * (Ds / 2)
       /\ intercept m' = intercept m - learning_rate m * (Di / 2)
       /\ Ds / 2 = Spec.slope_gradient_sum (slope m) (intercept m) batch
                   / INR (length batch)
       /\ Di / 2 = Spec.intercept_gradient_sum (slope m) (intercept m) batch
                   / INR (length batch).
Proof.
  intros Hbs Hstart c batch m'.
  assert (Hc : (0 < c)%nat) by (unfold c; lia).
  assert (Hlen : length batch = c).
  { unfold batch. rewrite length_combine, !prepare_batch_length. lia. }
  split.
  { intros Hnil. rewrite Hnil in Hlen. cbn in Hlen. lia. }
  exists (2 * (Spec.slope_gradient_sum (slope m) (intercept m) batch
               / INR (length batch))),
         (2 * (Spec.intercept_gradient_sum (slope m) (intercept m) batch
               / INR (length batch))).
  split; [apply MSE_batch_d_slope|]. split; [apply MSE_batch_d_intercept|].
  pose proof (gradient_update_sums (prepare_batch X indices batch_start c)
                (prepare_batch y indices batch_start c) m) as G.
  rewrite !prepare_batch_length in G. specialize (G eq_refl).
  cbv zeta in G. fold batch in G. destruct G as (Gs & Gi & _).
  unfold m', minibatch_step. fold c.
  rewrite Gs, Gi. repeat split; lra.
Qed.

Lemma minibatch_step_half_gradient_witness :
  let m := new 1 1 1 in
  let m' := minibatch_step [1] [1] [0%nat] 0 m in
  exists Ds Di,
    derivable_pt_lim (fun s => Spec.MSE_batch s (intercept m) [(1, 1)])
      (slope m) Ds
    /\ derivable_pt_lim (fun b => Spec.MSE_batch (slope m) b [(1, 1)])
         (intercept m) Di
    /\ slope m' = slope m - learning_rate m * (Ds / 2)
    /\ intercept m' = intercept m - learning_rate m * (Di / 2).
Proof.
  intros m m'.
  destruct (minibatch_step_half_gradient m [1] [1] [0%nat] 0%nat)
    as (_ & Ds & Di & H1 & H2 & H3 & H4 & _).
  - reflexivity.
  - cbn. lia.
  - exists Ds, Di. repeat split; assumption.
Defined.

(** C1, as stated, fails: with learning rate 1, parameters 0 and the
    one-sample batch (1, 1), the derivative of the batch mean-squared error
    with respect to the slope is -2, so the stated update would give slope
    2, and the step of [fit] gives slope 1. *)
Lemma minibatch_step_not_full_gradient :
  let m := new 1 1 1 in
  let m' := minibatch_step [1] [1] [0%nat] 0 m in
  derivable_pt_lim (fun s => Spec.MSE_batch s (intercept m) [(1, 1)])
    (slope m) (-2)
  /\ slope m' = 1
  /\ slope m' <> slope m - learning_rate m * (-2).
Proof.
  intros m m'.
  assert (Hs : slope m' = 1).
  { unfold m', minibatch_step.
    change (Nat.min (Z.to_nat (batch_size m)) (length [1] - 0)) with 1%nat.
    unfold m, gradient_update, prepare_batch, for_loop. cbn. lra. }
  split; [|split].
  - replace (-2) with
      (2 * (Spec.slope_gradient_sum (slope m) (intercept m) [(1, 1)]
            / INR (length [(1, 1)])))
      by (unfold Spec.slope_gradient_sum, m; cbn; lra).
    apply MSE_batch_d_slope.
  - exact Hs.
  - rewrite Hs. unfold m. cbn. lra.
Qed.

(** *** The mini-batch loop needs at most [n_samples] passes *)

Lemma gradient_update_batch_size (bx by_ : list R) (c : nat) (m : t) :
  batch_size (gradient_update bx by_ c m) = batch_size m.
Proof.
  unfold gradient_update.
  destruct (for_loop c _ (0, 0)) as [sg ig]. reflexivity.
Qed.

Lemma batch_loop_fuel (X y : list R) (indices : list nat) (fuel : nat) :
  forall batch_start m,
    (0 < batch_size m)%Z ->
    (length X - batch_start <= fuel)%nat ->
    batch_loop (S fuel) X y indices batch_start m
    = batch_loop fuel X y indices batch_start m.
Proof.
  induction fuel as [|f IH]; intros start m Hbs Hf.
  - cbn [batch_loop].
    destruct (start <? length X)%nat eqn:L; [|reflexivity].
    apply Nat.ltb_lt in L. lia.
  - change (batch_loop (S (S f)) X y indices start m)
      with (if (start <? length X)%nat
            then batch_loop (S f) X y indices
                   (start + Z.to_nat (batch_size m))
                   (minibatch_step X y indices start m)
            else m).
    change (batch_loop (S f) X y indices start m)
      with (if (start <? length X)%nat
            then batch_loop f X y indices
                   (start + Z.to_nat (batch_size m))
                   (minibatch_step X y indices start m)
            else m).
    destruct (start <? length X)%nat eqn:L; [|reflexivity].
    apply IH.
    + unfold minibatch_step. rewrite gradient_update_batch_size. exact Hbs.
    + lia.
Qed.

(** *** Early stopping *)

Lemma early_stopping_policy (best : fp) (count : Z) (epoch_mse : fp) :
  let '(best', count', brk) := early_stopping best count epoch_mse in
  Spec.policy_step best count epoch_mse best' count'
  /\ (brk = true <-> (5 <= count')%Z)
  /\ ((0 <= count)%Z -> (0 <= count' <= count + 1)%Z).
Proof.
  unfold early_stopping, Spec.policy_step, tolerance, patience.
  destruct best as [b|].
  - destruct epoch_mse as [mse|].
    + destruct (Rgt_dec (b - mse) (1e-6 * Rmax 1 b)) as [H|H].
      * repeat split; intros; try tauto; try lia; try discriminate.
      * repeat split; intros; try tauto; try lia.
    + repeat split; intros; try lia.
  - repeat split; intros; try lia; try discriminate.
Qed.

Lemma last_cons_default {A : Type} (l : list A) (x d : A) :
  last (x :: l) d = last l x.
Proof.
  revert x d. induction l as [|a l IH]; intros x d; [reflexivity|].
  change (last (x :: a :: l) d) with (last (a :: l) d).
  rewrite (IH a d), (IH a x). reflexivity.
Qed.

Lemma epoch_loop_policy (shuffle : nat -> list nat -> list nat)
    (X y : list R) :
  length X = length y -> X <> [] ->
  forall remaining iter indices best count m,
    (0 <= count < 5)%Z ->
    exists tr m',
      epoch_loop shuffle X y remaining iter indices best count m = (Ok tr, m')
      /\ (length tr <= remaining)%nat
      /\ Spec.follows_policy X y best count tr
      /\ Forall (fun rec =>
                   mean_squared_error (er_model rec) X y = Ok (er_mse rec)
                   /\ (0 <= er_count rec <= 5)%Z) tr
      /\ ((length tr < remaining)%nat ->
          exists tr0 rec, tr = tr0 ++ [rec] /\ er_count rec = 5%Z)
      /\ m' = last (map er_model tr) m.
Proof.
  intros E Hx. induction remaining as [|r IH]; intros iter indices best count m Hc.
  - exists [], m. cbn. repeat split; auto; lia.
  - cbn [epoch_loop]. unfold bind, get, put, lift, ret.
    set (m1 := batch_loop (length X) X y (shuffle iter indices) 0 m).
    rewrite (mean_squared_error_ok m1 X y E Hx).
    set (e := Spec.MSE_batch (slope m1) (intercept m1) (combine X y)).
    pose proof (early_stopping_policy best count (Finite e)) as P.
    destruct (early_stopping best count (Finite e)) as [[best' count'] brk].
    destruct P as (Pstep & Pbrk & Prange). specialize (Prange (proj1 Hc)).
    destruct brk.
    + assert (H5 : (count' = 5)%Z) by (pose proof (proj1 Pbrk eq_refl); lia).
      exists [mk_epoch m1 e best' count' true], m1. cbn.
      repeat split; auto; try lia.
      * constructor; [|constructor]. cbn [er_model er_mse er_count].
        split; [apply mean_squared_error_ok; assumption | lia].
      * intros _. exists [], (mk_epoch m1 e best' count' true).
        split; [reflexivity | exact H5].
    + assert (Hlt : (count' < 5)%Z).
      { destruct (Z_lt_le_dec count' 5) as [L|L]; [exact L|].
        apply Pbrk in L. discriminate. }
      destruct (IH (S iter) (shuffle iter indices) best' count' m1)
        as (tr & m' & Hrun & Hlen & Hpol & Hall & Hlast & Hm'); [lia|].
      rewrite Hrun.
      exists (mk_epoch m1 e best' count' false :: tr), m'.
      split; [reflexivity|].
      split; [cbn [length]; lia|].
      split; [|split; [|split]].
      * cbn [Spec.follows_policy er_model er_mse er_best_mse er_count].
        split; [reflexivity|].
        split; [exact Pstep|]. split; [intros H5; lia | exact Hpol].
      * constructor; [|exact Hall]. cbn [er_model er_mse er_count].
        split; [apply mean_squared_error_ok; assumption | lia].
      * cbn [length]. intros Hl.
        destruct Hlast as (tr0 & rec & Hr1 & Hr2); [lia|].
        exists (mk_epoch m1 e best' count' false :: tr0), rec.
        split; [rewrite Hr1; reflexivity | exact Hr2].
      * rewrite Hm'. cbn [map er_model]. symmetry. apply last_cons_default.
Qed.

(** C8. On equal-length non-empty data and a positive batch size, [fit]
    returns; after every epoch it has computed the MSE of the whole data
    set, the mean of [(slope·xᵢ + intercept − yᵢ)²] over all samples under
    the model the epoch left, and the best MSE and the no-improvement
    counter follow the rule: an improvement over the best of more than
    1e-6·max(1, best) makes the epoch's MSE the best and resets the counter
    to 0, anything else leaves the best and increments the counter; an
    epoch that brings the counter to 5 is the last one, the loop ends
    before [max_iterations] epochs only in that way, and never runs more
    than [max_iterations] epochs.  The test of one epoch follows the rule
    for every best MSE and every MSE of the epoch, finite or not, and
    leaves the loop exactly when the counter has reached 5: while the best
    is not finite every epoch takes its MSE as the best and resets the
    counter. *)
Theorem fit_early_stopping (shuffle : nat -> list nat -> list nat)
    (m : t) (X y : list R) :
  length X = length y -> X <> [] -> (0 < batch_size m)%Z ->
  (forall best count epoch_mse,
     let '(best', count', brk) := early_stopping best count epoch_mse in
     Spec.policy_step best count epoch_mse best' count'
     /\ (brk = true <-> (5 <= count')%Z))
  /\ exists tr m',
    fit_trace shuffle X y m = (Ok tr, m')
    /\ fit shuffle X y m = (Ok tt, m')
    /\ (Z.of_nat (length tr) <= Z.max 0 (max_iterations m))%Z
    /\ Spec.follows_policy X y NonFinite 0 tr
    /\ Forall (fun rec =>
                 mean_squared_error (er_model rec) X y = Ok (er_mse rec)
                 /\ (0 <= er_count rec <= 5)%Z) tr
    /\ ((Z.of_nat (length tr) < max_iterations m)%Z ->
        exists tr0 rec, tr = tr0 ++ [rec] /\ er_count rec = 5%Z)
    /\ m' = last (map er_model tr) m.
Proof.
  intros E Hx Hbs. split.
  { intros best count epoch_mse.
    pose proof (early_stopping_policy best count epoch_mse) as P.
    destruct (early_stopping best count epoch_mse) as [[best' count'] brk].
    destruct P as (P1 & P2 & _). split; assumption. }
  destruct (epoch_loop_policy shuffle X y E Hx
              (Z.to_nat (max_iterations m)) 0%nat (seq 0 (length X))
              NonFinite 0%Z m)
    as (tr & m' & Hrun & Hlen & Hpol & Hall & Hlast & Hm'); [lia|].
  assert (Htrace : fit_trace shuffle X y m = (Ok tr, m')).
  { unfold fit_trace. rewrite (proj2 (Nat.eqb_eq _ _) E). cbn [negb].
    destruct (length X =? 0)%nat eqn:E0;
      [apply length_zero_nil in E0; congruence|].
    unfold bind at 1. unfold get at 1.
    destruct (batch_size m <=? 0)%Z eqn:Eb; [apply Z.leb_le in Eb; lia|].
    exact Hrun. }
  exists tr, m'. split; [exact Htrace|].
  split; [unfold fit, bind; rewrite Htrace; reflexivity|].
  split; [lia|]. split; [exact Hpol|]. split; [exact Hall|].
  split; [|exact Hm'].
  intros Hl. apply Hlast. lia.
Qed.

Lemma fit_early_stopping_witness :
  exists tr m',
    fit_trace (fun _ l => l) [1; 2] [3; 5] (new 0.01 1000 32) = (Ok tr, m')
    /\ (Z.of_nat (length tr) <= 1000)%Z
    /\ Spec.follows_policy [1; 2] [3; 5] NonFinite 0 tr.
Proof.
  destruct (fit_early_stopping (fun _ l => l) (new 0.01 1000 32) [1; 2] [3; 5])
    as (_ & tr & m' & H1 & _ & H2 & H3 & _).
  - reflexivity.
  - discriminate.
  - reflexivity.
  - exists tr, m'. split; [exact H1|]. split; [exact H2 | exact H3].
Defined.

End LinearRegressionFacts.

(** ** NeuralNetwork *)

Module NeuralNetworkFacts.

Import NeuralNetwork NeuralNetworkSpec.

(** *** Lists *)

Lemma nth_map_seq {A : Type} (f : nat -> A) (n i : nat) (d : A) :
  (i < n)%nat -> nth i (map f (seq 0 n)) d = f i.
Proof.
  intros Hi. rewrite (nth_indep _ d (f 0%nat)) by (rewrite length_map, length_seq; lia).
  rewrite (map_nth f (seq 0 n) 0%nat i), seq_nth by lia. reflexivity.
Qed.

Lemma map_nth_seq {A B : Type} (f : A -> B) (l : list A) (d : A) :
  map (fun i => f (nth i l d)) (seq 0 (length l)) = map f l.
Proof.
  induction l as [|x l IH]; [reflexivity|].
  cbn [length]. rewrite <- cons_seq, <- seq_shift. cbn [map nth].
  rewrite map_map. cbn [nth]. rewrite IH. reflexivity.
Qed.

Lemma Rsum_map_nth_pair {A B : Type} (dA : A) (dB : B) (g : A -> B -> R)
    (X : list A) (y : list B) :
  length X = length y ->
  Rsum (map (fun i => g (nth i X dA) (nth i y dB)) (seq 0 (length X)))
  = Rsum (map (fun p => g (fst p) (snd p)) (combine X y)).
Proof.
  revert y. induction X as [|x X IH]; intros [|c y] E; try discriminate.
  - reflexivity.
  - cbn [length]. rewrite <- cons_seq, <- seq_shift.
    cbn [map Rsum nth combine fst snd].
    rewrite map_map. cbn [nth]. rewrite IH by (cbn in E; lia). reflexivity.
Qed.

Lemma list_set_length {A : Type} (i : nat) (x : A) (l : list A) :
  length (list_set i x l) = length l.
Proof.
  revert i. induction l as [|a l IH]; intros [|i]; cbn; auto.
Qed.

Lemma list_set_nth_eq {A : Type} (i : nat) (x d : A) (l : list A) :
  (i < length l)%nat -> nth i (list_set i x l) d = x.
Proof.
  revert i. induction l as [|a l IH]; intros [|i] Hi; cbn in *; try lia; auto.
  apply IH. lia.
Qed.

Lemma list_set_nth_neq {A : Type} (i j : nat) (x d : A) (l : list A) :
  i <> j -> nth j (list_set i x l) d = nth j l d.
Proof.
  revert i j.
  induction l as [|a l IH]; intros [|i] [|j] Hij; cbn; auto; congruence.
Qed.

(** Writing the first unwritten slot of a vector filled from the left. *)
Lemma list_set_app {A : Type} (l1 l2 : list A) (x y : A) :
  list_set (length l1) x (l1 ++ y :: l2) = (l1 ++ [x]) ++ l2.
Proof.
  induction l1 as [|a l1 IH]; cbn; [reflexivity|]. rewrite IH. reflexivity.
Qed.

Lemma list_set_0_repeat {A : Type} (x y : A) (n : nat) :
  (1 <= n)%nat -> list_set 0 x (repeat y n) = x :: repeat y (n - 1).
Proof.
  intros Hn. destruct n as [|n]; [lia|]. cbn. rewrite Nat.sub_0_r. reflexivity.
Qed.

(** *** The state-and-exception monad *)

Lemma bind_state_inv {S A B : Type} (P : S -> Prop) (m : M S A)
    (k : A -> M S B) (s : S) :
  P (snd (m s)) -> (forall a s', P s' -> P (snd (k a s'))) ->
  P (snd (bind m k s)).
Proof.
  intros Hm Hk. unfold bind. destruct (m s) as [[a|e|] s']; cbn in *; auto.
Qed.

Lemma foldM_state_inv {S A : Type} (P : S -> Prop) (body : nat -> A -> M S A)
    (l : list nat) :
  (forall i a s, In i l -> P s -> P (snd (body i a s))) ->
  forall a s, P s -> P (snd (foldM body l a s)).
Proof.
  induction l as [|i l IH]; intros Hb a s Hs; cbn [foldM].
  - exact Hs.
  - apply bind_state_inv; [apply Hb; [now left | exact Hs]|]. intros a' s' Hs'.
    apply IH; [|exact Hs']. intros j a2 s2 Hj. apply Hb. now right.
Qed.

(** A loop whose body succeeds and keeps an invariant indexed by the
    number of passes made. *)
Lemma foldM_ok {St A : Type} (I : nat -> A -> St -> Prop)
    (body : nat -> A -> M St A) (l : list nat) :
  forall (k0 : nat) (a : A) (s : St),
    I k0 a s ->
    (forall k i a s, nth_error l k = Some i -> I (k0 + k)%nat a s ->
       exists a' s', body i a s = (Ok a', s') /\ I (S (k0 + k)%nat) a' s') ->
    exists a' s', foldM body l a s = (Ok a', s') /\ I (k0 + length l)%nat a' s'.
Proof.
  induction l as [|i l IH]; intros k0 a s H0 Hstep.
  - exists a, s. cbn. rewrite Nat.add_0_r. auto.
  - destruct (Hstep 0%nat i a s eq_refl) as (a1 & s1 & Hb & H1).
    { rewrite Nat.add_0_r. exact H0. }
    rewrite Nat.add_0_r in H1.
    destruct (IH (S k0) a1 s1 H1) as (a' & s' & Hf & Hl).
    { intros k j a2 s2 Hk HI.
      destruct (Hstep (S k) j a2 s2 Hk) as (a3 & s3 & Hb3 & HI3).
      - rewrite Nat.add_succ_r. exact HI.
      - exists a3, s3. split; [exact Hb3|].
        rewrite Nat.add_succ_r in HI3. exact HI3. }
    exists a', s'. split.
    + cbn [foldM]. unfold bind. rewrite Hb. exact Hf.
    + cbn [length]. rewrite Nat.add_succ_r. exact Hl.
Qed.

Lemma for_loopM_ok {St A : Type} (I : nat -> A -> St -> Prop)
    (body : nat -> A -> M St A) (n : nat) (a : A) (s : St) :
  I 0%nat a s ->
  (forall i a s, (i < n)%nat -> I i a s ->
     exists a' s', body i a s = (Ok a', s') /\ I (S i) a' s') ->
  exists a' s', for_loopM n body a s = (Ok a', s') /\ I n a' s'.
Proof.
  intros H0 Hstep. unfold for_loopM.
  destruct (foldM_ok I body (seq 0 n) 0%nat a s H0) as (a' & s' & Hf & Hl).
  - intros k i a1 s1 Hk HI. cbn in HI |- *.
    assert (Hkn : (k < n)%nat).
    { assert (Hs : nth_error (seq 0 n) k <> None) by congruence.
      apply nth_error_Some in Hs. rewrite length_seq in Hs. exact Hs. }
    rewrite nth_error_nth' with (d := 0%nat) in Hk by (rewrite length_seq; lia).
    rewrite seq_nth in Hk by lia. injection Hk as <-.
    apply Hstep; assumption.
  - rewrite length_seq in Hl. exists a', s'. auto.
Qed.

(** Dimension invariant and positivity of a network written out in
    full. *)
Ltac concrete_dims :=
  unfold dims_ok; cbn [layer_sizes_ weights_ biases_ length];
  repeat (split; [lia|]);
  let i := fresh "i" in
  intros i ?; do 3 (try destruct i as [|i]); try lia;
  unfold matrix_dims; cbn; repeat split; repeat constructor.

Ltac concrete_positive :=
  let i := fresh "i" in
  intros i ?; cbn [layer_sizes_ length] in *;
  do 4 (try destruct i as [|i]); cbn; lia.

Lemma test_network_dims : dims_ok test_network.
Proof. unfold test_network. concrete_dims. Qed.

Lemma test_network_positive : positive_layers test_network.
Proof. unfold positive_layers, test_network. concrete_positive. Qed.

(** *** Construction *)

Lemma matrix_dims_built (g : nat -> nat -> R) (rows cols : nat) :
  matrix_dims (map (fun r => map (g r) (seq 0 cols)) (seq 0 rows)) rows cols.
Proof.
  split.
  - rewrite length_map, length_seq. reflexivity.
  - apply Forall_forall. intros row Hin. apply in_map_iff in Hin.
    destruct Hin as (r & <- & _). rewrite length_map, length_seq. reflexivity.
Qed.

Lemma new_ok (dis : nat -> nat -> nat -> R) (bias_dis : nat -> nat -> R)
    (ls : list nat) (lr : R) :
  (2 <= length ls)%nat ->
  exists nn,
    new dis bias_dis ls lr = Ok nn
    /\ layer_sizes_ nn = ls /\ learning_rate_ nn = lr /\ dims_ok nn.
Proof.
  intros H2. unfold new. cbn [layer_sizes_].
  destruct (length ls <? 2)%nat eqn:E; [apply Nat.ltb_lt in E; lia|].
  eexists. split; [reflexivity|]. split; [reflexivity|]. split; [reflexivity|].
  unfold dims_ok, initialize_weights_biases. cbn.
  split; [exact H2|].
  split; [rewrite length_map, length_seq; reflexivity|].
  split; [rewrite length_map, length_seq; reflexivity|].
  intros i Hi. rewrite !nth_map_seq by exact Hi. split.
  - apply (matrix_dims_built
             (fun r c => dis i r c * sqrt (1 / INR (nth i ls 0%nat)))).
  - rewrite length_map, length_seq. reflexivity.
Qed.

(** C10. The constructor throws [InvalidArgument] exactly when
    [layer_sizes] has fewer than two entries; the entries themselves are
    not looked at, and the layer sizes {1, 0, 1} give a network. *)
Theorem new_validates_length_only (dis : nat -> nat -> nat -> R)
    (bias_dis : nat -> nat -> R) (lr : R) :
  (forall ls, new dis bias_dis ls lr = Throw InvalidArgument
              <-> (length ls < 2)%nat)
  /\ (forall ls, (2 <= length ls)%nat ->
        exists nn, new dis bias_dis ls lr = Ok nn /\ layer_sizes_ nn = ls)
  /\ (exists nn, new dis bias_dis [1; 0; 1]%nat lr = Ok nn
                 /\ layer_sizes_ nn = [1; 0; 1]%nat).
Proof.
  split; [|split].
  - intros ls. split.
    + intros Ht. destruct (Nat.lt_ge_cases (length ls) 2) as [H|H]; [exact H|].
      destruct (new_ok dis bias_dis ls lr H) as (nn & Hn & _).
      rewrite Hn in Ht. discriminate.
    + intros H. unfold new. cbn [layer_sizes_].
      rewrite (proj2 (Nat.ltb_lt _ _) H). reflexivity.
  - intros ls H. destruct (new_ok dis bias_dis ls lr H) as (nn & Hn & Hls & _).
    exists nn. auto.
  - destruct (new_ok dis bias_dis [1; 0; 1]%nat lr) as (nn & Hn & Hls & _).
    + cbn. lia.
    + exists nn. auto.
Qed.

Lemma new_validates_length_only_witness :
  new (fun _ _ _ => 0) (fun _ _ => 0) [1%nat] 0.01 = Throw InvalidArgument
  /\ exists nn, new (fun _ _ _ => 0) (fun _ _ => 0) [1; 0; 1]%nat 0.01 = Ok nn.
Proof.
  destruct (new_validates_length_only (fun _ _ _ => 0) (fun _ _ => 0) 0.01)
    as (Ht & _ & (nn & Hn & _)).
  split.
  - apply Ht. cbn. lia.
  - exists nn. exact Hn.
Defined.

(** *** What each member function leaves unchanged *)

Lemma durable_eq_refl (nn : t) : durable_eq nn nn.
Proof. unfold durable_eq. auto. Qed.

Lemma predict_state (input : Vector) (nn : t) : snd (predict input nn) = nn.
Proof.
  unfold predict. unfold bind at 1. unfold get at 1.
  destruct (negb _); [reflexivity|].
  unfold for_loopM. apply (foldM_state_inv (fun s => s = nn)); [|reflexivity].
  intros i a s _ ->. unfold predict_layer, bind, get, lift, ret.
  destruct (multiply _ _) as [wx| |]; cbn; try reflexivity.
  destruct (add _ _) as [z| |]; reflexivity.
Qed.

Lemma forward_pass_durable (input : Vector) (nn : t) :
  durable_eq nn (snd (forward_pass input nn)).
Proof.
  unfold forward_pass. unfold bind at 1. unfold get at 1.
  destruct (negb _); [apply durable_eq_refl|].
  unfold bind at 1. unfold put at 1.
  unfold for_loopM. apply (foldM_state_inv (durable_eq nn)).
  - intros i a s _ Hs. unfold forward_layer, bind, get, lift, ret, put.
    destruct (multiply _ _) as [wx| |]; cbn; try exact Hs.
    destruct (add _ _) as [z| |]; cbn; exact Hs.
  - unfold durable_eq. cbn. auto.
Qed.

Lemma compute_deltas_state (predicted_output target : Vector) (nn : t) :
  snd (compute_deltas predicted_output target nn) = nn.
Proof.
  unfold compute_deltas. unfold bind at 1. unfold get at 1.
  unfold bind at 1. unfold lift at 1.
  destruct (mean_squared_error_derivative _ _) as [d| |]; try reflexivity.
  apply (foldM_state_inv (fun s => s = nn)); [|reflexivity].
  intros i a s _ ->. unfold delta_layer, bind, get, lift, ret.
  destruct (multiply _ _) as [pd| |]; cbn; try reflexivity.
  destruct (elementwise_multiply _ _) as [z| |]; reflexivity.
Qed.

(** *** The dimension invariant *)

Lemma transform2_length (op : R -> R -> R) (v1 v2 : Vector) :
  length (transform2 op v1 v2) = length v1.
Proof.
  unfold transform2. rewrite length_map, length_seq. reflexivity.
Qed.

Lemma subtract_length (v1 v2 b : Vector) :
  subtract v1 v2 = Ok b -> length b = length v1.
Proof.
  unfold subtract. destruct (negb _); [discriminate|].
  intros [= <-]. apply transform2_length.
Qed.

Lemma subtract_matrix_dims (m1 m2 w : Matrix) (rows cols : nat) :
  subtract_matrix m1 m2 = Ok w ->
  matrix_dims m1 rows cols -> matrix_dims w rows cols.
Proof.
  unfold subtract_matrix. destruct (_ || _); [discriminate|].
  intros [= <-] [Hr Hc]. split.
  - rewrite length_map, length_seq. exact Hr.
  - apply Forall_forall. intros row Hin. apply in_map_iff in Hin.
    destruct Hin as (i & <- & Hi). apply in_seq in Hi.
    rewrite transform2_length.
    rewrite Forall_forall in Hc. apply Hc. apply nth_In. lia.
Qed.

Lemma dims_ok_set_weights (s : t) (i : nat) (w : Matrix) :
  dims_ok s ->
  (forall rows cols, matrix_dims (nth i (weights_ s) []) rows cols ->
                     matrix_dims w rows cols) ->
  dims_ok (set_weights s (list_set i w (weights_ s))).
Proof.
  intros (H2 & Hw & Hb & Hd) Hi. unfold dims_ok. cbn.
  split; [exact H2|]. split; [rewrite list_set_length; exact Hw|].
  split; [exact Hb|]. intros j Hj. destruct (Hd j Hj) as [Hm Hv].
  split; [|exact Hv].
  destruct (Nat.eq_dec i j) as [->|Hne].
  - rewrite list_set_nth_eq by lia. apply Hi. exact Hm.
  - rewrite list_set_nth_neq by exact Hne. exact Hm.
Qed.

Lemma dims_ok_set_biases (s : t) (i : nat) (b : Vector) :
  dims_ok s -> length b = length (nth i (biases_ s) []) ->
  dims_ok (set_biases s (list_set i b (biases_ s))).
Proof.
  intros (H2 & Hw & Hb & Hd) Hi. unfold dims_ok. cbn.
  split; [exact H2|]. split; [exact Hw|].
  split; [rewrite list_set_length; exact Hb|].
  intros j Hj. destruct (Hd j Hj) as [Hm Hv]. split; [exact Hm|].
  destruct (Nat.eq_dec i j) as [->|Hne].
  - rewrite list_set_nth_eq by lia. rewrite Hi. exact Hv.
  - rewrite list_set_nth_neq by exact Hne. exact Hv.
Qed.

Lemma update_parameters_keeps_dims (deltas : list Vector) (nn : t) :
  dims_ok nn -> keeps_dims nn (snd (update_parameters deltas nn)).
Proof.
  intros Hd. unfold update_parameters. unfold bind at 1. unfold get at 1.
  unfold for_loopM. apply (foldM_state_inv (keeps_dims nn)).
  - intros i a s _ (Hls & Hlr & Hs). unfold update_layer, bind, get, lift, put.
    destruct (subtract_matrix _ _) as [w| |] eqn:Ew; cbn;
      try (split; [exact Hls | split; [exact Hlr | exact Hs]]).
    assert (Hw : dims_ok (set_weights s (list_set i w (weights_ s)))).
    { apply dims_ok_set_weights; [exact Hs|].
      intros rows cols. apply (subtract_matrix_dims _ _ _ _ _ Ew). }
    destruct (subtract _ _) as [b| |] eqn:Eb; cbn in Eb |- *;
      (split; [exact Hls|]); (split; [exact Hlr|]); try exact Hw.
    apply (dims_ok_set_biases (set_weights s (list_set i w (weights_ s))));
      [exact Hw|].
    apply (subtract_length _ _ _ Eb).
  - split; [reflexivity | split; [reflexivity | exact Hd]].
Qed.

Lemma dims_ok_durable (nn nn' : t) :
  durable_eq nn nn' -> dims_ok nn -> dims_ok nn'.
Proof.
  intros (Hl & Hw & Hb & _). unfold dims_ok. rewrite Hl, Hw, Hb. auto.
Qed.

Lemma keeps_dims_trans (nn s s' : t) :
  keeps_dims nn s -> keeps_dims s s' -> keeps_dims nn s'.
Proof.
  intros (H1 & H2 & _) (H3 & H4 & H5).
  split; [congruence|]. split; [congruence | exact H5].
Qed.

Lemma durable_keeps_dims (nn nn' : t) :
  durable_eq nn nn' -> dims_ok nn -> keeps_dims nn nn'.
Proof.
  intros Hd Hok. pose proof (dims_ok_durable nn nn' Hd Hok) as Hok'.
  destruct Hd as (Hl & _ & _ & Hr). split; [exact Hl|]. split; assumption.
Qed.

Lemma backpropagate_keeps_dims (input target : Vector) (nn : t) :
  dims_ok nn -> keeps_dims nn (snd (backpropagate input target nn)).
Proof.
  intros Hok. unfold backpropagate.
  apply (bind_state_inv (keeps_dims nn)).
  - apply durable_keeps_dims; [apply forward_pass_durable | exact Hok].
  - intros predicted s1 H1. unfold bind at 1. unfold get at 1.
    destruct (negb _); [exact H1|].
    apply (bind_state_inv (keeps_dims nn)).
    + rewrite compute_deltas_state. exact H1.
    + intros deltas s2 H2. apply (keeps_dims_trans nn s2); [exact H2|].
      apply update_parameters_keeps_dims. apply H2.
Qed.

(** *** Calls never have undefined behaviour on their own *)

Lemma foldM_defined {S A : Type} (body : nat -> A -> M S A) (l : list nat) :
  (forall i a s, fst (body i a s) <> Undefined) ->
  forall a s, fst (foldM body l a s) <> Undefined.
Proof.
  intros Hb. induction l as [|i l IH]; intros a s; cbn [foldM].
  - discriminate.
  - unfold bind. pose proof (Hb i a s) as H.
    destruct (body i a s) as [[a'|e|] s']; cbn in *;
      [apply IH | discriminate | congruence].
Qed.

Lemma multiply_defined (W : Matrix) (v : Vector) : multiply W v <> Undefined.
Proof.
  unfold multiply. destruct W; [discriminate|]. destruct (negb _); discriminate.
Qed.

Lemma add_defined (u v : Vector) : add u v <> Undefined.
Proof. unfold add. destruct (negb _); discriminate. Qed.

Lemma forward_pass_defined (input : Vector) (nn : t) :
  fst (forward_pass input nn) <> Undefined.
Proof.
  unfold forward_pass. unfold bind at 1. unfold get at 1.
  destruct (negb _); [discriminate|].
  unfold bind at 1. unfold put at 1.
  unfold for_loopM. apply foldM_defined.
  intros i a s. unfold forward_layer, bind, get, lift, ret, put.
  pose proof (multiply_defined (nth i (weights_ s) []) a) as Hm.
  destruct (multiply _ _) as [wx| |]; cbn; try discriminate; try congruence.
  pose proof (add_defined wx (nth i (biases_ s) [])) as Ha.
  destruct (add _ _) as [z| |]; cbn; try discriminate; congruence.
Qed.

(** C6. A target whose size is not [layer_sizes.back()] makes
    [backpropagate] throw [InvalidArgument], for every network and every
    input, and the layer sizes, every weight matrix, every bias vector and
    the learning rate are then what they were before the call. *)
Theorem backpropagate_rejects_target (nn : t) (input target : Vector) :
  length target <> last (layer_sizes_ nn) 0%nat ->
  fst (backpropagate input target nn) = Throw InvalidArgument
  /\ durable_eq nn (snd (backpropagate input target nn)).
Proof.
  intros Ht.
  assert (H : exists s, backpropagate input target nn = (Throw InvalidArgument, s)
                        /\ durable_eq nn s).
  { unfold backpropagate. unfold bind at 1.
    pose proof (forward_pass_durable input nn) as Hd.
    pose proof (forward_pass_defined input nn) as Hu.
    destruct (forward_pass input nn) as [[predicted|e|] s1]; cbn in Hd, Hu.
    - unfold bind at 1. unfold get at 1.
      destruct Hd as (Hl & Hrest). rewrite Hl.
      rewrite (proj2 (Nat.eqb_neq _ _) Ht). cbn.
      exists s1. split; [reflexivity|]. split; [exact Hl | exact Hrest].
    - destruct e. exists s1. split; [reflexivity | exact Hd].
    - congruence. }
  destruct H as (s & -> & Hs). split; [reflexivity | exact Hs].
Qed.

Lemma backpropagate_rejects_target_witness :
  fst (backpropagate [0.5] [0.1; 0.2] test_network) = Throw InvalidArgument
  /\ durable_eq test_network
       (snd (backpropagate [0.5] [0.1; 0.2] test_network)).
Proof.
  apply (backpropagate_rejects_target test_network [0.5] [0.1; 0.2]).
  cbn. discriminate.
Defined.

(** *** Training for several epochs keeps the invariant *)

Lemma on_net_state {A : Type} (c : M t A) (w : t * stdout) :
  snd (on_net c w) = (snd (c (fst w)), snd w).
Proof. unfold on_net. destruct (c (fst w)). reflexivity. Qed.

Lemma on_net_predict_state (input : Vector) (w : t * stdout) :
  snd (on_net (predict input) w) = w.
Proof. rewrite on_net_state, predict_state. destruct w. reflexivity. Qed.

Lemma report_loss_net (inputs targets : list Vector) (epoch epochs every : Z)
    (w : t * stdout) :
  fst (snd (report_loss inputs targets epoch epochs every w)) = fst w.
Proof.
  unfold report_loss. destruct (every =? 0)%Z; [reflexivity|].
  destruct (_ || _); [|reflexivity].
  apply (bind_state_inv (fun w' => fst w' = fst w)).
  - unfold for_loopM.
    apply (foldM_state_inv (fun w' => fst w' = fst w)); [|reflexivity].
    intros i a s _ Hs. apply (bind_state_inv (fun w' => fst w' = fst w)).
    + rewrite on_net_predict_state. exact Hs.
    + intros p s' Hs'. unfold bind, lift, ret.
      destruct (mean_squared_error _ _); exact Hs'.
  - intros a s' Hs'. exact Hs'.
Qed.

Lemma epoch_loop_keeps_dims (shuffle : nat -> list nat -> list nat)
    (inputs targets : list Vector) (epochs every : Z) (nn : t) :
  forall remaining epoch indices w,
    keeps_dims nn (fst w) ->
    keeps_dims nn
      (fst (snd (epoch_loop shuffle inputs targets epochs every
                   remaining epoch indices w))).
Proof.
  induction remaining as [|r IH]; intros epoch indices w Hw; [exact Hw|].
  cbn [epoch_loop].
  apply (bind_state_inv (fun w' => keeps_dims nn (fst w'))).
  - unfold for_loopM.
    apply (foldM_state_inv (fun w' => keeps_dims nn (fst w'))); [|exact Hw].
    intros i a s _ Hs. rewrite on_net_state. cbn [fst].
    apply (keeps_dims_trans nn (fst s)); [exact Hs|].
    apply backpropagate_keeps_dims. apply Hs.
  - intros a s Hs.
    apply (bind_state_inv (fun w' => keeps_dims nn (fst w'))).
    + rewrite report_loss_net. exact Hs.
    + intros a' s' Hs'. apply IH. exact Hs'.
Qed.

Lemma train_for_epochs_keeps_dims (shuffle : nat -> list nat -> list nat)
    (inputs targets : list Vector) (epochs every : Z) (w : t * stdout) :
  dims_ok (fst w) ->
  keeps_dims (fst w)
    (fst (snd (train_for_epochs shuffle inputs targets epochs every w))).
Proof.
  intros Hok.
  assert (H0 : keeps_dims (fst w) (fst w))
    by (split; [reflexivity | split; [reflexivity | exact Hok]]).
  unfold train_for_epochs. destruct (_ || _); [exact H0|].
  apply (bind_state_inv (fun w' => keeps_dims (fst w) (fst w'))).
  - apply epoch_loop_keeps_dims. exact H0.
  - intros a s Hs. unfold for_loopM.
    apply (foldM_state_inv (fun w' => keeps_dims (fst w) (fst w')));
      [|exact Hs].
    intros i acc s' _ Hs'.
    apply (bind_state_inv (fun w' => keeps_dims (fst w) (fst w'))).
    + rewrite on_net_predict_state. exact Hs'.
    + intros p s'' Hs''. destruct p; exact Hs''.
Qed.

Lemma run_call_keeps_dims (c : call) (nn : t) :
  dims_ok nn -> keeps_dims nn (run_call c nn).
Proof.
  intros Hok. destruct c; cbn [run_call].
  - rewrite predict_state. split; [reflexivity | split; [reflexivity | exact Hok]].
  - apply durable_keeps_dims; [apply forward_pass_durable | exact Hok].
  - apply backpropagate_keeps_dims. exact Hok.
  - apply backpropagate_keeps_dims. exact Hok.
  - apply (train_for_epochs_keeps_dims shuffle inputs targets epochs
             report_every_n_epochs (nn, [])). exact Hok.
Qed.

Lemma run_calls_keeps_dims (cs : list call) (nn : t) :
  dims_ok nn -> keeps_dims nn (run_calls cs nn).
Proof.
  revert nn. induction cs as [|c cs IH]; intros nn Hok.
  - split; [reflexivity | split; [reflexivity | exact Hok]].
  - cbn [run_calls fold_left]. pose proof (run_call_keeps_dims c nn Hok) as H1.
    apply (keeps_dims_trans nn (run_call c nn)); [exact H1|].
    apply IH. apply H1.
Qed.

(** C9. A network constructed from at least two layer sizes satisfies the
    dimension invariant ([weights[i]] is [layer_sizes[i+1] × layer_sizes[i]],
    [biases[i]] has length [layer_sizes[i+1]]), and so does the network
    after any sequence of predict, forward_pass, backpropagate, train and
    train_for_epochs calls, whatever their outcomes; [predict] changes
    nothing, [forward_pass], the delta computation of [backpropagate] and
    the loss report of [train_for_epochs] leave every weight matrix and
    bias vector as they are, so that only the update step of
    [backpropagate] writes them (the loss helpers are static functions
    without access to the network). *)
Theorem dims_invariant (dis : nat -> nat -> nat -> R)
    (bias_dis : nat -> nat -> R) (ls : list nat) (lr : R) :
  (2 <= length ls)%nat ->
  (exists nn0,
     new dis bias_dis ls lr = Ok nn0
     /\ forall cs,
          layer_sizes_ (run_calls cs nn0) = ls
          /\ dims_ok (run_calls cs nn0))
  /\ (forall nn input, snd (predict input nn) = nn)
  /\ (forall nn input, durable_eq nn (snd (forward_pass input nn)))
  /\ (forall nn predicted target,
        snd (compute_deltas predicted target nn) = nn)
  /\ (forall inputs targets epoch epochs every w,
        fst (snd (report_loss inputs targets epoch epochs every w)) = fst w).
Proof.
  intros H2. split; [|split; [|split; [|split]]].
  - destruct (new_ok dis bias_dis ls lr H2) as (nn0 & Hn & Hls & _ & Hok).
    exists nn0. split; [exact Hn|]. intros cs.
    destruct (run_calls_keeps_dims cs nn0 Hok) as (H1 & _ & H3).
    split; [congruence | exact H3].
  - intros nn input. apply predict_state.
  - intros nn input. apply forward_pass_durable.
  - intros nn predicted target. apply compute_deltas_state.
  - intros. apply report_loss_net.
Qed.

Lemma dims_invariant_witness :
  exists nn0,
    new (fun _ _ _ => 0) (fun _ _ => 0) [1; 2; 1]%nat 0.5 = Ok nn0
    /\ dims_ok (run_calls [CallTrain [0.5] [0.1]; CallPredict [0.5]] nn0).
Proof.
  destruct (dims_invariant (fun _ _ _ => 0) (fun _ _ => 0) [1; 2; 1]%nat 0.5)
    as ((nn0 & Hn & Hcs) & _).
  - cbn. lia.
  - exists nn0. split; [exact Hn|]. apply Hcs.
Defined.

(** *** The operations of the source and the formulas *)

Lemma transform2_combine (op : R -> R -> R) (u v : Vector) :
  length u = length v ->
  transform2 op u v = map (fun p => op (fst p) (snd p)) (combine u v).
Proof.
  unfold transform2. revert v.
  induction u as [|a u IH]; intros [|c v] E; try discriminate; [reflexivity|].
  cbn [length]. rewrite <- cons_seq, <- seq_shift.
  cbn [map nth combine fst snd]. rewrite map_map. cbn [nth].
  rewrite IH by (cbn in E; lia). reflexivity.
Qed.

Lemma add_spec (u v : Vector) :
  length u = length v -> add u v = Ok (vec_add u v).
Proof.
  intros E. unfold add. rewrite (proj2 (Nat.eqb_eq _ _) E). cbn [negb].
  rewrite transform2_combine by exact E. reflexivity.
Qed.

Lemma subtract_spec (u v : Vector) :
  length u = length v -> subtract u v = Ok (vec_sub u v).
Proof.
  intros E. unfold subtract. rewrite (proj2 (Nat.eqb_eq _ _) E). cbn [negb].
  rewrite transform2_combine by exact E. reflexivity.
Qed.

Lemma elementwise_multiply_spec (u v : Vector) :
  length u = length v -> elementwise_multiply u v = Ok (hadamard u v).
Proof.
  intros E. unfold elementwise_multiply.
  rewrite (proj2 (Nat.eqb_eq _ _) E). cbn [negb].
  rewrite transform2_combine by exact E. reflexivity.
Qed.

Lemma dot_loop (row v : Vector) :
  length row = length v ->
  for_loop (length row) (fun j acc => acc + nth j row 0 * nth j v 0) 0
  = dot row v.
Proof.
  intros E. rewrite for_loop_sum.
  rewrite (Rsum_map_nth_pair 0 0 (fun a c => a * c)) by exact E.
  unfold dot. lra.
Qed.

Lemma multiply_spec (W : Matrix) (v : Vector) :
  W <> [] -> Forall (fun row => length row = length v) W ->
  multiply W v = Ok (mat_vec W v).
Proof.
  intros Hne Hrows. destruct W as [|row0 W']; [congruence|].
  unfold multiply.
  assert (H0 : length row0 = length v) by (inversion Hrows; assumption).
  rewrite (proj2 (Nat.eqb_eq _ _) H0). cbn [negb].
  rewrite (map_nth_seq
             (fun row => for_loop (length row0)
                           (fun j acc => acc + nth j row 0 * nth j v 0) 0)).
  unfold mat_vec. apply (f_equal (@Ok Vector)).
  apply map_ext_in. intros row Hin.
  rewrite Forall_forall in Hrows. pose proof (Hrows row Hin) as Hr.
  rewrite H0, <- Hr. apply dot_loop. exact Hr.
Qed.

Lemma mat_vec_length (W : Matrix) (v : Vector) :
  length (mat_vec W v) = length W.
Proof. unfold mat_vec. apply length_map. Qed.

Lemma vec_add_length (u v : Vector) :
  length u = length v -> length (vec_add u v) = length u.
Proof.
  intros E. unfold vec_add. rewrite length_map, length_combine. lia.
Qed.

Lemma vec_sub_length (u v : Vector) :
  length u = length v -> length (vec_sub u v) = length u.
Proof.
  intros E. unfold vec_sub. rewrite length_map, length_combine. lia.
Qed.

Lemma hadamard_length (u v : Vector) :
  length u = length v -> length (hadamard u v) = length u.
Proof.
  intros E. unfold hadamard. rewrite length_map, length_combine. lia.
Qed.

(** *** The forward pass computes the activations of the formulas *)

Section ForwardPass.

Variable nn : t.
Variable input : Vector.
Hypothesis Hdims : dims_ok nn.
Hypothesis Hinput : length input = nth 0 (layer_sizes_ nn) 0%nat.

Let L := length (layer_sizes_ nn).

Lemma pre_activation_length (l : nat) :
  (l < L - 1)%nat ->
  length (pre_activation nn input l) = nth (l + 1) (layer_sizes_ nn) 0%nat.
Proof.
  intros Hl. destruct Hdims as (_ & _ & _ & Hd).
  destruct (Hd l Hl) as [[Hrows _] Hb].
  unfold pre_activation. rewrite vec_add_length; rewrite mat_vec_length; lia.
Qed.

Lemma activation_succ (l : nat) :
  activation nn input (S l)
  = if (l <? L - 2)%nat then map sigmoid (pre_activation nn input l)
    else pre_activation nn input l.
Proof. reflexivity. Qed.

Lemma activation_length (l : nat) :
  (l < L)%nat ->
  length (activation nn input l) = nth l (layer_sizes_ nn) 0%nat.
Proof.
  intros Hl. destruct l as [|l]; [exact Hinput|].
  rewrite activation_succ.
  destruct (l <? L - 2)%nat; [rewrite length_map|];
    rewrite pre_activation_length by (unfold L in *; lia);
    f_equal; lia.
Qed.

Hypothesis Hpos : positive_layers nn.

(** One transition: [z = W·a + b] does not throw. *)
Lemma transition_ok (l : nat) :
  (l < L - 1)%nat ->
  exists wx,
    multiply (nth l (weights_ nn) []) (activation nn input l) = Ok wx
    /\ add wx (nth l (biases_ nn) []) = Ok (pre_activation nn input l).
Proof.
  intros Hl. pose proof (activation_length l ltac:(unfold L in *; lia)) as Ha.
  destruct Hdims as (_ & _ & _ & Hd).
  destruct (Hd l Hl) as [[Hrows Hcols] Hb].
  exists (mat_vec (nth l (weights_ nn) []) (activation nn input l)). split.
  - apply multiply_spec.
    + intros Hnil. rewrite Hnil in Hrows. cbn in Hrows.
      pose proof (Hpos (l + 1)%nat ltac:(unfold L in *; lia)). lia.
    + rewrite Ha. exact Hcols.
  - rewrite add_spec by (rewrite mat_vec_length; lia). reflexivity.
Qed.

Lemma forward_pass_spec :
  forward_pass input nn = (Ok (output nn input), after_forward nn input).
Proof.
  assert (H2 : (2 <= L)%nat) by (destruct Hdims; assumption).
  unfold forward_pass. unfold bind at 1. unfold get at 1.
  rewrite (proj2 (Nat.eqb_eq _ _) Hinput). cbn [negb].
  unfold bind at 1. unfold put at 1. fold L.
  set (I := fun (k : nat) (cur : Vector) (s : t) =>
              cur = activation nn input k
              /\ s = mk (layer_sizes_ nn) (weights_ nn) (biases_ nn)
                        (learning_rate_ nn)
                        (map (activation nn input) (seq 0 (S k))
                         ++ repeat [] (L - 1 - k))
                        (map (pre_activation nn input) (seq 0 k)
                         ++ repeat [] (L - 1 - k))).
  match goal with
  | |- for_loopM ?n ?body ?a ?s = _ =>
      destruct (for_loopM_ok I body n a s) as (cur & s' & Hrun & Hcur & Hs')
  end.
  - split; [reflexivity|].
    unfold forward_init, set_layer_outputs, set_layer_inputs.
    cbn [layer_outputs_ layer_sizes_ weights_ biases_ learning_rate_
         layer_inputs_]. fold L.
    rewrite list_set_0_repeat by lia. rewrite Nat.sub_0_r. reflexivity.
  - intros i cur s Hi [-> ->].
    destruct (transition_ok i Hi) as (wx & Hm & Ha).
    unfold forward_layer, bind, get, lift, put, ret, set_layer_inputs,
      set_layer_outputs.
    cbn [weights_ biases_ layer_inputs_ layer_outputs_ layer_sizes_
         learning_rate_].
    rewrite Hm. cbn [weights_ biases_ layer_inputs_ layer_outputs_
                     layer_sizes_ learning_rate_].
    rewrite Ha. cbn [weights_ biases_ layer_inputs_ layer_outputs_
                     layer_sizes_ learning_rate_].
    eexists _, _. split; [reflexivity|]. split.
    + rewrite activation_succ. reflexivity.
    + f_equal.
      * replace (L - 1 - i)%nat with (S (L - 1 - S i)) by lia.
        cbn [repeat].
        replace (i + 1)%nat with (length (map (activation nn input) (seq 0 (S i))))
          by (rewrite length_map, length_seq; lia).
        rewrite list_set_app. f_equal.
        rewrite (seq_S (S i)), map_app. cbn [map Nat.add].
        rewrite activation_succ. reflexivity.
      * replace (L - 1 - i)%nat with (S (L - 1 - S i)) by lia.
        cbn [repeat].
        replace i with (length (map (pre_activation nn input) (seq 0 i))) at 1
          by (rewrite length_map, length_seq; lia).
        rewrite list_set_app. f_equal.
        rewrite (seq_S i), map_app. reflexivity.
  - rewrite Hrun, Hcur, Hs'. unfold output, after_forward. fold L. f_equal.
    replace (L - 1 - (L - 1))%nat with 0%nat by lia. cbn [repeat].
    rewrite !app_nil_r. replace (S (L - 1)) with L by lia. reflexivity.
Qed.

End ForwardPass.

(** *** [predict] and [forward_pass] *)

Lemma foldM_fst_rel {S1 S2 A : Type} (Rel : S1 -> S2 -> Prop)
    (body1 : nat -> A -> M S1 A) (body2 : nat -> A -> M S2 A) (l : list nat) :
  (forall i a s1 s2, Rel s1 s2 ->
     fst (body1 i a s1) = fst (body2 i a s2)
     /\ Rel (snd (body1 i a s1)) (snd (body2 i a s2))) ->
  forall a s1 s2, Rel s1 s2 ->
    fst (foldM body1 l a s1) = fst (foldM body2 l a s2).
Proof.
  intros Hb. induction l as [|i l IH]; intros a s1 s2 HR; [reflexivity|].
  cbn [foldM]. unfold bind. destruct (Hb i a s1 s2 HR) as [Hf Hs].
  destruct (body1 i a s1) as [r1 s1'], (body2 i a s2) as [r2 s2'].
  cbn in Hf, Hs. subst r2. destruct r1 as [a'| |]; [|reflexivity..].
  apply IH. exact Hs.
Qed.

Lemma predict_unfold (input : Vector) (nn : t) :
  predict input nn
  = if negb (length input =? nth 0 (layer_sizes_ nn) 0)%nat
    then (Throw InvalidArgument, nn)
    else for_loopM (length (layer_sizes_ nn) - 1)
           (predict_layer (length (layer_sizes_ nn))) input nn.
Proof.
  unfold predict, bind, get, throw. destruct (negb _); reflexivity.
Qed.

Lemma forward_pass_unfold (input : Vector) (nn : t) :
  forward_pass input nn
  = if negb (length input =? nth 0 (layer_sizes_ nn) 0)%nat
    then (Throw InvalidArgument, nn)
    else for_loopM (length (layer_sizes_ nn) - 1)
           (forward_layer (length (layer_sizes_ nn) - 2)) input
           (forward_init input nn).
Proof.
  unfold forward_pass, bind, get, put, throw. destruct (negb _); reflexivity.
Qed.

Lemma predict_forward_pass_fst (input : Vector) (nn : t) :
  fst (predict input nn) = fst (forward_pass input nn).
Proof.
  rewrite predict_unfold, forward_pass_unfold.
  destruct (negb _); [reflexivity|].
  unfold for_loopM.
  apply (foldM_fst_rel (fun s1 s2 => s1 = nn /\ durable_eq nn s2)).
  - intros i a s1 s2 [-> (Hl & Hw & Hb & Hr)].
    unfold predict_layer, forward_layer, bind, get, lift, ret, put.
    rewrite Hw, Hb.
    destruct (multiply _ _) as [wx| |]; cbn;
      try (split; [reflexivity|]; split; [reflexivity|];
           repeat split; assumption).
    destruct (add _ _) as [z| |]; cbn;
      (split; [reflexivity|]; split; [reflexivity|]; repeat split; assumption).
  - split; [reflexivity|]. unfold durable_eq. cbn. auto.
Qed.

Lemma predict_rejects_input (input : Vector) (nn : t) :
  length input <> nth 0 (layer_sizes_ nn) 0%nat ->
  predict input nn = (Throw InvalidArgument, nn).
Proof.
  intros H. unfold predict. unfold bind at 1. unfold get at 1.
  rewrite (proj2 (Nat.eqb_neq _ _) H). reflexivity.
Qed.

Lemma predict_spec (input : Vector) (nn : t) :
  dims_ok nn -> positive_layers nn ->
  length input = nth 0 (layer_sizes_ nn) 0%nat ->
  predict input nn = (Ok (output nn input), nn).
Proof.
  intros Hd Hp Hi.
  pose proof (predict_forward_pass_fst input nn) as Hf.
  rewrite (forward_pass_spec nn input Hd Hi Hp) in Hf.
  pose proof (predict_state input nn) as Hs.
  destruct (predict input nn) as [r s]. cbn in Hf, Hs. congruence.
Qed.

(** C5 (amended). For every network state and every input, [predict] has
    the outcome of [forward_pass] and leaves the whole state unchanged, so
    that a repeated [predict] gives the same outcome; both throw
    [InvalidArgument] when the input size is not [layer_sizes[0]]; and when
    the network has the dimensions of the invariant and every layer after
    the first has at least one neuron, an input of size [layer_sizes[0]]
    makes both return the output of the formulas (sigmoid on every
    transition except the last, identity on the last). *)
Theorem predict_is_forward_pass (nn : t) (input : Vector) :
  fst (predict input nn) = fst (forward_pass input nn)
  /\ snd (predict input nn) = nn
  /\ predict input (snd (predict input nn)) = predict input nn
  /\ (length input <> nth 0 (layer_sizes_ nn) 0%nat ->
      fst (predict input nn) = Throw InvalidArgument
      /\ fst (forward_pass input nn) = Throw InvalidArgument)
  /\ (dims_ok nn -> positive_layers nn ->
      length input = nth 0 (layer_sizes_ nn) 0%nat ->
      fst (predict input nn) = Ok (output nn input)
      /\ fst (forward_pass input nn) = Ok (output nn input))
  /\ (dims_ok nn -> positive_layers nn ->
      (fst (predict input nn) = Throw InvalidArgument
       <-> length input <> nth 0 (layer_sizes_ nn) 0%nat)
      /\ (fst (forward_pass input nn) = Throw InvalidArgument
          <-> length input <> nth 0 (layer_sizes_ nn) 0%nat)).
Proof.
  split; [apply predict_forward_pass_fst|].
  split; [apply predict_state|].
  split; [rewrite predict_state; reflexivity|].
  split; [|split].
  - intros H. rewrite <- predict_forward_pass_fst.
    rewrite (predict_rejects_input input nn H). auto.
  - intros Hd Hp Hi. rewrite <- predict_forward_pass_fst.
    rewrite (predict_spec input nn Hd Hp Hi). auto.
  - intros Hd Hp. rewrite <- predict_forward_pass_fst.
    assert (H : fst (predict input nn) = Throw InvalidArgument
                <-> length input <> nth 0 (layer_sizes_ nn) 0%nat).
    { split.
      - intros Ht Hi. rewrite (predict_spec input nn Hd Hp Hi) in Ht.
        discriminate.
      - intros Hi. rewrite (predict_rejects_input input nn Hi). reflexivity. }
    split; exact H.
Qed.

Lemma predict_is_forward_pass_witness :
  fst (predict [0.5] test_network) = Ok (output test_network [0.5])
  /\ fst (predict [1; 2] test_network) = Throw InvalidArgument.
Proof.
  destruct (predict_is_forward_pass test_network [0.5])
    as (_ & _ & _ & _ & Hok & _).
  destruct (predict_is_forward_pass test_network [1; 2])
    as (_ & _ & _ & Hthrow & _).
  split.
  - apply Hok.
    + exact test_network_dims.
    + exact test_network_positive.
    + reflexivity.
  - apply Hthrow. cbn. discriminate.
Defined.

(** C5, as stated, fails: the network constructed from the layer sizes
    {1, 0, 1} makes [predict] and [forward_pass] throw [InvalidArgument] on
    an input of size [layer_sizes[0] = 1]. *)
Lemma predict_throws_on_empty_layer :
  exists nn,
    new (fun _ _ _ => 0) (fun _ _ => 0) [1; 0; 1]%nat 0.01 = Ok nn
    /\ length [0] = nth 0 (layer_sizes_ nn) 0%nat
    /\ fst (predict [0] nn) = Throw InvalidArgument
    /\ fst (forward_pass [0] nn) = Throw InvalidArgument.
Proof.
  eexists. split; [reflexivity|]. split; [reflexivity|].
  split; reflexivity.
Qed.

(** *** Backpropagation computes the deltas and updates of the formulas *)

Lemma last_nth {A : Type} (l : list A) (d : A) :
  last l d = nth (length l - 1) l d.
Proof.
  induction l as [|a l IH]; [reflexivity|].
  destruct l as [|a' l']; [reflexivity|].
  change (last (a :: a' :: l') d) with (last (a' :: l') d).
  rewrite IH. cbn [length].
  replace (S (S (length l')) - 1)%nat with (S (S (length l') - 1)) by lia.
  reflexivity.
Qed.

Lemma skipn_cons_nth {A : Type} (k : nat) (l : list A) (d : A) :
  (k < length l)%nat -> skipn k l = nth k l d :: skipn (S k) l.
Proof.
  revert k. induction l as [|a l IH]; intros [|k] Hk; cbn in *; try lia.
  - reflexivity.
  - apply IH. lia.
Qed.

Lemma nth_transpose (W : Matrix) (rows cols j i : nat) :
  matrix_dims W rows cols -> (0 < rows)%nat -> (j < cols)%nat ->
  (i < rows)%nat ->
  nth i (nth j (transpose W) []) 0 = nth j (nth i W []) 0.
Proof.
  intros [Hr Hc] Hrows Hj Hi. destruct W as [|row0 W']; [cbn in Hr; lia|].
  unfold transpose.
  assert (H0 : length row0 = cols) by (inversion Hc; assumption).
  rewrite H0, Hr. rewrite nth_map_seq by exact Hj.
  rewrite nth_map_seq by exact Hi. reflexivity.
Qed.

(** [multiply(transpose(W), d)] is [Wᵀ·d]. *)
Lemma multiply_transpose_spec (W : Matrix) (d : Vector) (rows cols : nat) :
  matrix_dims W rows cols -> (0 < rows)%nat -> (0 < cols)%nat ->
  length d = rows ->
  multiply (transpose W) d = Ok (mat_T_vec cols W d).
Proof.
  intros HW Hrows Hcols Hd. pose proof HW as [Hr Hc].
  destruct W as [|row0 W'] eqn:EW; [cbn in Hr; lia|]. rewrite <- EW in *.
  assert (H0 : length row0 = cols) by (rewrite EW in Hc; inversion Hc; assumption).
  assert (ET : transpose W
               = map (fun j => map (fun i => nth j (nth i W []) 0) (seq 0 rows))
                     (seq 0 cols)).
  { rewrite EW. unfold transpose. rewrite <- EW, H0, Hr. reflexivity. }
  unfold multiply.
  destruct (transpose W) as [|t0 T'] eqn:ETW.
  { destruct cols; [lia|]. cbn in ET. discriminate. }
  assert (Ht0 : length t0 = rows).
  { destruct cols as [|cols']; [lia|]. cbn in ET. injection ET as -> _.
    rewrite length_map, length_seq. reflexivity. }
  rewrite Ht0, Hd, Nat.eqb_refl. cbn [negb]. apply (f_equal (@Ok Vector)).
  assert (Hlen : length (t0 :: T') = cols).
  { rewrite ET, length_map, length_seq. reflexivity. }
  rewrite Hlen. unfold mat_T_vec. apply map_ext_in. intros j Hj.
  apply in_seq in Hj. rewrite for_loop_sum.
  rewrite <- ETW.
  rewrite (map_ext_in _ (fun i => nth j (nth i W []) 0 * nth i d 0)).
  - rewrite <- Hr.
    rewrite (Rsum_map_nth_pair [] 0 (fun row x => nth j row 0 * x))
      by (rewrite Hr, Hd; reflexivity).
    lra.
  - intros i Hi. apply in_seq in Hi.
    rewrite (nth_transpose W rows cols j i HW) by lia. reflexivity.
Qed.

Lemma nth_map_default {A B : Type} (f : A -> B) (l : list A) (k : nat)
    (d : A) (d' : B) :
  (k < length l)%nat -> nth k (map f l) d' = f (nth k l d).
Proof.
  intros Hk. rewrite (nth_indep _ d' (f d)) by (rewrite length_map; exact Hk).
  apply map_nth.
Qed.

(** [subtract(W, multiply(outer_product(d, a), lr))], entry by entry. *)
Lemma subtract_matrix_update (Wl : Matrix) (d a : Vector) (lr : R)
    (rows cols : nat) :
  matrix_dims Wl rows cols -> length d = rows -> length a = cols ->
  subtract_matrix Wl (multiply_matrix_scalar (outer_product d a) lr)
  = Ok (map (fun r =>
               map (fun c => nth c (nth r Wl []) 0
                             - lr * (nth r d 0 * nth c a 0))
                   (seq 0 cols))
            (seq 0 rows)).
Proof.
  intros [Hr Hc] Hd Ha.
  assert (Hrow : forall i, (i < rows)%nat -> length (nth i Wl []) = cols).
  { intros i Hi. rewrite Forall_forall in Hc. apply Hc. apply nth_In. lia. }
  set (scaled := map (fun i => map (fun j => nth i d 0 * nth j a 0 * lr)
                                  (seq 0 cols)) (seq 0 rows)).
  assert (ES : multiply_matrix_scalar (outer_product d a) lr = scaled).
  { unfold multiply_matrix_scalar, outer_product, scaled.
    rewrite Hd, Ha, map_map.
    apply map_ext. intros i. rewrite map_map. reflexivity. }
  rewrite ES. unfold subtract_matrix.
  assert (Hlen : length scaled = rows)
    by (unfold scaled; rewrite length_map, length_seq; reflexivity).
  rewrite Hlen, Hr, Nat.eqb_refl. cbn [negb orb].
  assert (G : (negb (rows =? 0)%nat
               && negb (length (nth 0 Wl []) =? length (nth 0 scaled []))%nat)
              = false).
  { destruct rows as [|rows']; [reflexivity|].
    rewrite Hrow by lia. unfold scaled. rewrite nth_map_seq by lia.
    rewrite length_map, length_seq, Nat.eqb_refl.
    apply andb_false_r. }
  rewrite G. apply (f_equal (@Ok Matrix)).
  apply map_ext_in. intros i Hi. apply in_seq in Hi.
  unfold transform2. rewrite Hrow by lia.
  apply map_ext_in. intros c Hcc. apply in_seq in Hcc.
  unfold scaled. rewrite nth_map_seq by lia. rewrite nth_map_seq by lia. ring.
Qed.

(** [subtract(b, multiply(d, lr))], entry by entry. *)
Lemma subtract_update (bl d : Vector) (lr : R) (rows : nat) :
  length bl = rows -> length d = rows ->
  subtract bl (multiply_vector_scalar d lr)
  = Ok (map (fun r => nth r bl 0 - lr * nth r d 0) (seq 0 rows)).
Proof.
  intros Hb Hd. unfold subtract, multiply_vector_scalar.
  rewrite length_map, Hb, Hd, Nat.eqb_refl. cbn [negb].
  apply (f_equal (@Ok Vector)). unfold transform2. rewrite Hb.
  apply map_ext_in. intros r Hr. apply in_seq in Hr.
  rewrite (nth_map_default (fun v => v * lr) d r 0 0) by lia. ring.
Qed.

Lemma nth_prefix_skipn {A : Type} (l1 l : list A) (i : nat) (d : A) :
  length l1 = i -> nth i (l1 ++ skipn i l) d = nth i l d.
Proof.
  intros <-. rewrite app_nth2 by lia. rewrite Nat.sub_diag.
  generalize (length l1). clear l1. intros k. revert l.
  induction k as [|k IH]; intros [|a l]; cbn; auto.
Qed.

Lemma list_set_prefix_skipn {A : Type} (l1 l : list A) (i : nat) (x : A) :
  length l1 = i -> (i < length l)%nat ->
  list_set i x (l1 ++ skipn i l) = (l1 ++ [x]) ++ skipn (S i) l.
Proof.
  intros <- Hi. rewrite (skipn_cons_nth _ l x Hi). apply list_set_app.
Qed.

Section Backpropagate.

Variable nn : t.
Variable input target : Vector.
Hypothesis Hdims : dims_ok nn.
Hypothesis Hpos : positive_layers nn.
Hypothesis Hinput : length input = nth 0 (layer_sizes_ nn) 0%nat.
Hypothesis Htarget : length target = last (layer_sizes_ nn) 0%nat.

Let L := length (layer_sizes_ nn).
Let ls := layer_sizes_ nn.

Lemma L_ge_2 : (2 <= L)%nat.
Proof. destruct Hdims; assumption. Qed.

Lemma output_length : length (output nn input) = length target.
Proof.
  pose proof L_ge_2. unfold output. fold L.
  rewrite (activation_length nn input Hdims Hinput) by (fold L; lia).
  rewrite Htarget, last_nth. reflexivity.
Qed.

Lemma delta_last : delta nn input target (L - 2) = vec_sub (output nn input) target.
Proof.
  unfold delta. fold L. rewrite Nat.sub_diag. reflexivity.
Qed.

Lemma delta_step (l : nat) :
  (l < L - 2)%nat ->
  delta nn input target l
  = hadamard
      (mat_T_vec (nth (l + 1) ls 0%nat) (nth (l + 1) (weights_ nn) [])
         (delta nn input target (l + 1)))
      (map sigmoid_derivative (pre_activation nn input l)).
Proof.
  intros Hl. unfold delta. fold L.
  replace (L - 2 - l)%nat with (S (L - 2 - (l + 1))) by lia. reflexivity.
Qed.

Lemma delta_length (l : nat) :
  (l <= L - 2)%nat ->
  length (delta nn input target l) = nth (l + 1) ls 0%nat.
Proof.
  pose proof L_ge_2 as H2. intros Hl.
  destruct (Nat.eq_dec l (L - 2)) as [->|Hne].
  - rewrite delta_last, vec_sub_length by apply output_length.
    unfold output. fold L.
    rewrite (activation_length nn input Hdims Hinput) by (fold L; lia).
    unfold ls. f_equal. lia.
  - rewrite delta_step by lia. rewrite hadamard_length.
    + unfold mat_T_vec. rewrite length_map, length_seq. reflexivity.
    + unfold mat_T_vec. rewrite !length_map, length_seq.
      rewrite (pre_activation_length nn input Hdims) by (fold L; lia).
      reflexivity.
Qed.

Lemma nth_error_rev_seq (n k i : nat) :
  nth_error (rev (seq 1 n)) k = Some i -> (k < n)%nat /\ i = (n - k)%nat.
Proof.
  intros H.
  assert (Hk : (k < n)%nat).
  { assert (Hs : nth_error (rev (seq 1 n)) k <> None) by congruence.
    apply nth_error_Some in Hs. rewrite length_rev, length_seq in Hs. exact Hs. }
  split; [exact Hk|].
  rewrite nth_error_nth' with (d := 0%nat) in H
    by (rewrite length_rev, length_seq; exact Hk).
  injection H as <-.
  rewrite rev_nth by (rewrite length_seq; exact Hk).
  rewrite length_seq, seq_nth by lia. lia.
Qed.

Lemma delta_layer_spec (i : nat) (deltas : list Vector) :
  (1 <= i <= L - 2)%nat ->
  nth i deltas [] = delta nn input target i ->
  delta_layer i deltas (after_forward nn input)
  = (Ok (list_set (i - 1) (delta nn input target (i - 1)) deltas),
     after_forward nn input).
Proof.
  intros Hi Hnth. pose proof L_ge_2 as H2.
  destruct Hdims as (_ & _ & _ & Hd).
  destruct (Hd i ltac:(fold L; lia)) as [HW _].
  unfold delta_layer, bind, get, lift, ret.
  unfold after_forward at 1 2. cbn [weights_ layer_inputs_]. fold L.
  rewrite Hnth.
  rewrite (multiply_transpose_spec (nth i (weights_ nn) [])
             (delta nn input target i) _ _ HW).
  - rewrite nth_map_seq by lia.
    rewrite elementwise_multiply_spec.
    + rewrite (delta_step (i - 1)) by lia.
      replace (i - 1 + 1)%nat with i by lia. reflexivity.
    + unfold mat_T_vec. rewrite !length_map, length_seq.
      rewrite (pre_activation_length nn input Hdims) by (fold L; lia).
      f_equal. lia.
  - apply Hpos. fold L. lia.
  - apply Hpos. fold L. lia.
  - apply delta_length. lia.
Qed.

Lemma compute_deltas_spec :
  compute_deltas (output nn input) target (after_forward nn input)
  = (Ok (map (delta nn input target) (seq 0 (L - 1))),
     after_forward nn input).
Proof.
  pose proof L_ge_2 as H2.
  unfold compute_deltas. unfold bind at 1. unfold get at 1.
  change (layer_sizes_ (after_forward nn input)) with (layer_sizes_ nn).
  fold L.
  unfold bind at 1. unfold lift at 1.
  unfold mean_squared_error_derivative.
  rewrite (proj2 (Nat.eqb_eq _ _) output_length). cbn [negb].
  rewrite (subtract_spec _ _ output_length), <- delta_last.
  rewrite repeat_length.
  set (I := fun (k : nat) (deltas : list Vector) (s : t) =>
              s = after_forward nn input
              /\ deltas = repeat [] (L - 2 - k)
                          ++ map (delta nn input target) (seq (L - 2 - k) (S k))).
  match goal with
  | |- foldM ?body ?l ?a ?s = _ =>
      destruct (foldM_ok I body l 0%nat a s) as (ds & s' & Hrun & Hs' & Hds)
  end.
  - split; [reflexivity|]. rewrite Nat.sub_0_r.
    replace (L - 1)%nat with (S (L - 2)) by lia.
    replace (S (L - 2) - 1)%nat with (length (repeat (@nil R) (L - 2)))
      by (rewrite repeat_length; lia).
    change (repeat [] (S (L - 2))) with (@nil R :: repeat [] (L - 2)).
    rewrite (repeat_cons (L - 2) (@nil R)).
    rewrite list_set_app, app_nil_r. reflexivity.
  - intros k i deltas s Hk [-> ->]. cbn [Nat.add] in *.
    apply nth_error_rev_seq in Hk. destruct Hk as [Hk ->].
    set (i := (L - 2 - k)%nat).
    assert (Hi : (1 <= i <= L - 2)%nat) by (unfold i; lia).
    rewrite delta_layer_spec.
    + eexists _, _. split; [reflexivity|]. split; [reflexivity|].
      replace (L - 2 - S k)%nat with (i - 1)%nat by (unfold i; lia).
      assert (Hrep : repeat (@nil R) i = repeat [] (i - 1) ++ [[]]).
      { replace i with (S (i - 1)) at 1 by lia. cbn [repeat].
        apply repeat_cons. }
      rewrite Hrep, <- app_assoc. cbn [app].
      pose proof (list_set_app (repeat (@nil R) (i - 1))
                    (map (delta nn input target) (seq i (S k)))
                    (delta nn input target (i - 1)) []) as Hset.
      rewrite repeat_length in Hset.
      etransitivity; [exact Hset|]. rewrite <- app_assoc. cbn [app].
      f_equal. rewrite <- (cons_seq (S k) (i - 1)). cbn [map].
      replace (S (i - 1)) with i by lia. reflexivity.
    + exact Hi.
    + rewrite app_nth2 by (rewrite repeat_length; lia).
      rewrite repeat_length, Nat.sub_diag. reflexivity.
  - rewrite Hrun, Hs'. rewrite Hds. rewrite length_rev, length_seq.
    cbn [Nat.add]. rewrite Nat.sub_diag. cbn [repeat app].
    replace (S (L - 2)) with (L - 1)%nat by lia. reflexivity.
Qed.

Lemma update_layer_spec (i : nat) (Ws : list Matrix) (bs : list Vector) :
  (i < L - 1)%nat ->
  nth i Ws [] = nth i (weights_ nn) [] ->
  nth i bs [] = nth i (biases_ nn) [] ->
  update_layer (map (delta nn input target) (seq 0 (L - 1))) i tt
    (mk ls Ws bs (learning_rate_ nn)
        (map (activation nn input) (seq 0 L))
        (map (pre_activation nn input) (seq 0 (L - 1))))
  = (Ok tt,
     mk ls (list_set i (updated_weights nn input target i) Ws)
        (list_set i (updated_biases nn input target i) bs)
        (learning_rate_ nn)
        (map (activation nn input) (seq 0 L))
        (map (pre_activation nn input) (seq 0 (L - 1)))).
Proof.
  intros Hi HW Hb. pose proof L_ge_2 as H2.
  destruct Hdims as (_ & _ & _ & Hd).
  destruct (Hd i ltac:(fold L; lia)) as [HWd Hbd].
  unfold update_layer, bind, get, lift, put, set_weights, set_biases.
  cbn [weights_ biases_ layer_outputs_ layer_inputs_ layer_sizes_
       learning_rate_].
  rewrite !nth_map_seq by lia. rewrite HW.
  rewrite (subtract_matrix_update _ _ _ _ _ _ HWd).
  - cbn [weights_ biases_ layer_outputs_ layer_inputs_ layer_sizes_
         learning_rate_].
    rewrite Hb, (subtract_update _ _ _ _ Hbd).
    + reflexivity.
    + apply delta_length. lia.
  - apply delta_length. lia.
  - apply (activation_length nn input Hdims Hinput). fold L. lia.
Qed.

Lemma update_parameters_spec :
  update_parameters (map (delta nn input target) (seq 0 (L - 1)))
    (after_forward nn input)
  = (Ok tt, after_backpropagate nn input target).
Proof.
  pose proof L_ge_2 as H2. destruct Hdims as (_ & HlW & Hlb & _).
  fold L in HlW, Hlb.
  unfold update_parameters. unfold bind at 1. unfold get at 1.
  change (layer_sizes_ (after_forward nn input)) with (layer_sizes_ nn).
  fold L.
  set (I := fun (k : nat) (_ : unit) (s : t) =>
              s = mk ls
                    (map (updated_weights nn input target) (seq 0 k)
                     ++ skipn k (weights_ nn))
                    (map (updated_biases nn input target) (seq 0 k)
                     ++ skipn k (biases_ nn))
                    (learning_rate_ nn)
                    (map (activation nn input) (seq 0 L))
                    (map (pre_activation nn input) (seq 0 (L - 1)))).
  match goal with
  | |- for_loopM ?n ?body ?a ?s = _ =>
      destruct (for_loopM_ok I body n a s) as ([] & s' & Hrun & Hs')
  end.
  - reflexivity.
  - intros i [] s Hi ->.
    rewrite update_layer_spec.
    + eexists tt, _. split; [reflexivity|]. unfold I. f_equal.
      * rewrite list_set_prefix_skipn
          by (rewrite ?length_map, ?length_seq; lia).
        rewrite seq_S, map_app. reflexivity.
      * rewrite list_set_prefix_skipn
          by (rewrite ?length_map, ?length_seq; lia).
        rewrite seq_S, map_app. reflexivity.
    + exact Hi.
    + apply nth_prefix_skipn. rewrite length_map, length_seq. reflexivity.
    + apply nth_prefix_skipn. rewrite length_map, length_seq. reflexivity.
  - rewrite Hrun, Hs'. unfold after_backpropagate. fold L ls.
    assert (EW : skipn (L - 1) (weights_ nn) = [])
      by (apply skipn_all2; lia).
    assert (Eb : skipn (L - 1) (biases_ nn) = [])
      by (apply skipn_all2; lia).
    rewrite EW, Eb, !app_nil_r. reflexivity.
Qed.

(** The whole step: forward pass, deltas, update. *)
Lemma backpropagate_spec :
  backpropagate input target nn = (Ok tt, after_backpropagate nn input target).
Proof.
  unfold backpropagate. unfold bind at 1.
  rewrite (forward_pass_spec nn input Hdims Hinput Hpos).
  unfold bind at 1. unfold get at 1.
  change (layer_sizes_ (after_forward nn input)) with (layer_sizes_ nn).
  rewrite (proj2 (Nat.eqb_eq _ _) Htarget). cbn [negb].
  unfold bind. rewrite compute_deltas_spec. apply update_parameters_spec.
Qed.

Lemma after_backpropagate_dims : dims_ok (after_backpropagate nn input target).
Proof.
  pose proof (backpropagate_keeps_dims input target nn Hdims) as H.
  rewrite backpropagate_spec in H. apply H.
Qed.

End Backpropagate.

(** C2 (amended). For a network with the dimensions of the invariant whose
    layers after the first have at least one neuron, an input of size
    [layer_sizes[0]] and a target of size [layer_sizes.back()], one
    [backpropagate] call returns, with the output-layer delta equal to
    [predicted − target], every hidden-layer delta equal to
    [(W_{l+1}ᵀ·delta_{l+1}) ⊙ sigmoid_derivative(z_l)] on the layer's own
    pre-activation, and every layer updated by
    [W_l −= learning_rate·(delta_l ⊗ a_l)] and
    [b_l −= learning_rate·delta_l]. *)
Theorem backpropagate_formulas (nn : t) (input target : Vector) :
  dims_ok nn -> positive_layers nn ->
  length input = nth 0 (layer_sizes_ nn) 0%nat ->
  length target = last (layer_sizes_ nn) 0%nat ->
  let L := length (layer_sizes_ nn) in
  exists nn',
    backpropagate input target nn = (Ok tt, nn')
    /\ fst (forward_pass input nn) = Ok (output nn input)
    /\ layer_sizes_ nn' = layer_sizes_ nn
    /\ learning_rate_ nn' = learning_rate_ nn
    /\ delta nn input target (L - 2) = vec_sub (output nn input) target
    /\ (forall l, (l < L - 2)%nat ->
          delta nn input target l
          = hadamard
              (mat_T_vec (nth (l + 1) (layer_sizes_ nn) 0%nat)
                 (nth (l + 1) (weights_ nn) [])
                 (delta nn input target (l + 1)))
              (map sigmoid_derivative (pre_activation nn input l)))
    /\ length (weights_ nn') = (L - 1)%nat
    /\ length (biases_ nn') = (L - 1)%nat
    /\ (forall l, (l < L - 1)%nat ->
          nth l (weights_ nn') [] = updated_weights nn input target l
          /\ nth l (biases_ nn') [] = updated_biases nn input target l).
Proof.
  intros Hd Hp Hi Ht L.
  exists (after_backpropagate nn input target).
  split; [apply backpropagate_spec; assumption|].
  split; [rewrite (forward_pass_spec nn input Hd Hi Hp); reflexivity|].
  split; [reflexivity|]. split; [reflexivity|].
  split; [apply delta_last|].
  split; [intros l Hl; apply delta_step; assumption|].
  unfold after_backpropagate. cbn [weights_ biases_]. fold L.
  split; [rewrite length_map, length_seq; reflexivity|].
  split; [rewrite length_map, length_seq; reflexivity|].
  intros l Hl. rewrite !nth_map_seq by exact Hl. auto.
Qed.

Lemma backpropagate_formulas_witness :
  exists nn',
    backpropagate [0.5] [0.1] test_network = (Ok tt, nn')
    /\ nth 1 (weights_ nn') []
       = updated_weights test_network [0.5] [0.1] 1
    /\ nth 1 (biases_ nn') []
       = updated_biases test_network [0.5] [0.1] 1.
Proof.
  destruct (backpropagate_formulas test_network [0.5] [0.1])
    as (nn' & Hrun & _ & _ & _ & _ & _ & _ & _ & Hupd).
  - exact test_network_dims.
  - exact test_network_positive.
  - reflexivity.
  - reflexivity.
  - exists nn'. split; [exact Hrun|]. apply Hupd. cbn. lia.
Defined.

(** C2, as stated, fails: on the network constructed from the layer sizes
    {1, 0, 1}, an input of size [layer_sizes[0]] and a target of size
    [layer_sizes.back()] make [backpropagate] throw [InvalidArgument], and
    no weight or bias is updated. *)
Lemma backpropagate_throws_on_empty_layer :
  exists nn,
    new (fun _ _ _ => 0) (fun _ _ => 0) [1; 0; 1]%nat 0.01 = Ok nn
    /\ length [0] = nth 0 (layer_sizes_ nn) 0%nat
    /\ length [0] = last (layer_sizes_ nn) 0%nat
    /\ fst (backpropagate [0] [0] nn) = Throw InvalidArgument
    /\ weights_ (snd (backpropagate [0] [0] nn)) = weights_ nn
    /\ biases_ (snd (backpropagate [0] [0] nn)) = biases_ nn.
Proof.
  eexists. split; [reflexivity|]. repeat split; reflexivity.
Qed.

(** *** Training for several epochs *)

Lemma on_net_ok {A : Type} (c : M t A) (w : t * stdout) (a : A) (s' : t) :
  c (fst w) = (Ok a, s') -> on_net c w = (Ok a, (s', snd w)).
Proof. intros H. unfold on_net. rewrite H. reflexivity. Qed.

(** One step on a sample that fits a trainable network returns and leaves
    a trainable network. *)
Lemma trainable_after_backpropagate (nn0 s : t) (x y : Vector) :
  trainable nn0 s ->
  length x = nth 0 (layer_sizes_ nn0) 0%nat ->
  length y = last (layer_sizes_ nn0) 0%nat ->
  backpropagate x y s = (Ok tt, after_backpropagate s x y)
  /\ trainable nn0 (after_backpropagate s x y).
Proof.
  intros (Hls & Hd & Hp) Hx Hy. rewrite <- Hls in Hx, Hy. split.
  - apply backpropagate_spec; assumption.
  - split; [exact Hls|]. split.
    + apply after_backpropagate_dims; assumption.
    + exact Hp.
Qed.

Lemma trainable_predict (nn0 s : t) (x : Vector) :
  trainable nn0 s ->
  length x = nth 0 (layer_sizes_ nn0) 0%nat ->
  predict x s = (Ok (output s x), s)
  /\ length (output s x) = last (layer_sizes_ nn0) 0%nat
  /\ output s x <> [].
Proof.
  intros (Hls & Hd & Hp) Hx. rewrite <- Hls in Hx |- *.
  assert (H2 : (2 <= length (layer_sizes_ s))%nat) by (destruct Hd; assumption).
  assert (Hlen : length (output s x) = last (layer_sizes_ s) 0%nat).
  { unfold output. rewrite (activation_length s x Hd Hx) by lia.
    rewrite last_nth. reflexivity. }
  split; [apply predict_spec; assumption|]. split; [exact Hlen|].
  intros Hnil. rewrite Hnil in Hlen. cbn in Hlen.
  rewrite last_nth in Hlen.
  pose proof (Hp (length (layer_sizes_ s) - 1)%nat ltac:(lia)). lia.
Qed.

Lemma mean_squared_error_returns (p y : Vector) :
  length p = length y -> exists e, mean_squared_error p y = Ok e.
Proof.
  intros E. unfold mean_squared_error.
  rewrite (proj2 (Nat.eqb_eq _ _) E). cbn [negb].
  destruct p; eexists; reflexivity.
Qed.

Section TrainForEpochs.

Variable nn0 : t.
Variable shuffle : nat -> list nat -> list nat.
Variable inputs targets : list Vector.
Variable epochs report_every_n_epochs : Z.

Hypothesis Hshuffle : forall k l, Permutation (shuffle k l) l.
Hypothesis Hlen : length inputs = length targets.
Hypothesis Hinputs :
  Forall (fun x => length x = nth 0 (layer_sizes_ nn0) 0%nat) inputs.
Hypothesis Htargets :
  Forall (fun y => length y = last (layer_sizes_ nn0) 0%nat) targets.

Let n_samples := length inputs.

Lemma input_width (i : nat) :
  (i < n_samples)%nat ->
  length (nth i inputs []) = nth 0 (layer_sizes_ nn0) 0%nat.
Proof.
  intros Hi. rewrite Forall_forall in Hinputs. apply Hinputs.
  apply nth_In. exact Hi.
Qed.

Lemma target_width (i : nat) :
  (i < n_samples)%nat ->
  length (nth i targets []) = last (layer_sizes_ nn0) 0%nat.
Proof.
  intros Hi. rewrite Forall_forall in Htargets. apply Htargets.
  apply nth_In. unfold n_samples in Hi. lia.
Qed.

(** One pass over the shuffled samples. *)
Lemma sample_loop_ok (indices : list nat) (w : t * stdout) :
  Permutation indices (seq 0 n_samples) ->
  trainable nn0 (fst w) ->
  exists s',
    for_loopM n_samples
      (fun i (_ : unit) =>
         on_net (backpropagate (nth (nth i indices 0%nat) inputs [])
                   (nth (nth i indices 0%nat) targets [])))
      tt w
    = (Ok tt, (s', snd w))
    /\ trainable nn0 s'.
Proof.
  intros Hperm Hw.
  assert (Hidx : forall i, (i < n_samples)%nat ->
                           (nth i indices 0 < n_samples)%nat).
  { intros i Hi.
    assert (Hin : In (nth i indices 0%nat) indices).
    { apply nth_In. rewrite (Permutation_length Hperm), length_seq. exact Hi. }
    apply (Permutation_in _ Hperm) in Hin. apply in_seq in Hin. lia. }
  set (I := fun (k : nat) (_ : unit) (w' : t * stdout) =>
              trainable nn0 (fst w') /\ snd w' = snd w).
  match goal with
  | |- exists s', for_loopM ?n ?body ?a ?s = _ /\ _ =>
      destruct (for_loopM_ok I body n a s) as ([] & w' & Hrun & Hw' & Hout)
  end.
  - split; [exact Hw | reflexivity].
  - intros i [] w1 Hi [Hw1 Ho1]. cbv zeta.
    destruct (trainable_after_backpropagate nn0 (fst w1)
                (nth (nth i indices 0%nat) inputs [])
                (nth (nth i indices 0%nat) targets []) Hw1)
      as [Hb Ht].
    + apply input_width. apply Hidx. exact Hi.
    + apply target_width. apply Hidx. exact Hi.
    + rewrite (on_net_ok _ _ _ _ Hb). eexists tt, _.
      split; [reflexivity|]. split; [exact Ht | exact Ho1].
  - exists (fst w'). split; [|exact Hw'].
    rewrite Hrun. destruct w' as [s' o']. cbn in Hout |- *. subst o'.
    reflexivity.
Qed.

(** The loss report of an epoch returns and does not touch the network. *)
Lemma report_loss_ok (epoch : Z) (w : t * stdout) :
  report_every_n_epochs <> 0%Z ->
  trainable nn0 (fst w) ->
  exists out',
    report_loss inputs targets epoch epochs report_every_n_epochs w
    = (Ok tt, (fst w, out')).
Proof.
  intros Hevery Hw. unfold report_loss.
  rewrite (proj2 (Z.eqb_neq _ _) Hevery).
  destruct (_ || _); [|exists (snd w); destruct w; reflexivity].
  set (I := fun (k : nat) (_ : fp) (w' : t * stdout) => w' = w).
  unfold bind at 1.
  match goal with
  | |- exists out', match for_loopM ?n ?body ?a ?s with _ => _ end = _ =>
      destruct (for_loopM_ok I body n a s) as (mse & w' & Hrun & Hw')
  end.
  - reflexivity.
  - intros i acc w1 Hi ->. fold n_samples in Hi.
    destruct (trainable_predict nn0 (fst w) (nth i inputs []) Hw
                (input_width i Hi)) as (Hp & Hl & _).
    unfold bind at 1. rewrite (on_net_ok _ _ _ _ Hp).
    destruct (mean_squared_error_returns (output (fst w) (nth i inputs []))
                (nth i targets [])) as [e He].
    { rewrite Hl, target_width by exact Hi. reflexivity. }
    unfold bind, lift, ret. rewrite He.
    eexists _, _. split; [reflexivity|]. destruct w; reflexivity.
  - rewrite Hrun, Hw'. unfold print_loss. eexists. reflexivity.
Qed.

Lemma epoch_loop_ok (remaining : nat) :
  (remaining <> 0%nat -> report_every_n_epochs <> 0%Z) ->
  forall epoch indices w,
    Permutation indices (seq 0 n_samples) ->
    trainable nn0 (fst w) ->
    exists s' out',
      epoch_loop shuffle inputs targets epochs report_every_n_epochs
        remaining epoch indices w
      = (Ok tt, (s', out'))
      /\ trainable nn0 s'.
Proof.
  intros Hevery. induction remaining as [|r IH]; intros epoch indices w Hperm Hw.
  - exists (fst w), (snd w). destruct w. split; [reflexivity | exact Hw].
  - cbn [epoch_loop]. cbv zeta. fold n_samples.
    assert (Hperm' : Permutation (shuffle epoch indices) (seq 0 n_samples))
      by (eapply Permutation_trans; [apply Hshuffle | exact Hperm]).
    destruct (sample_loop_ok (shuffle epoch indices) w Hperm' Hw)
      as (s1 & Hrun1 & Hs1).
    unfold bind at 1. rewrite Hrun1.
    destruct (report_loss_ok (Z.of_nat epoch) (s1, snd w)) as (out1 & Hrun2).
    { apply Hevery. discriminate. }
    { exact Hs1. }
    unfold bind at 1. rewrite Hrun2. cbn [fst].
    apply IH.
    + intros _. apply Hevery. discriminate.
    + exact Hperm'.
    + exact Hs1.
Qed.

(** The final predictions: one per input, in the order of [inputs]. *)
Lemma final_predictions_ok (w : t * stdout) :
  trainable nn0 (fst w) ->
  exists preds,
    for_loopM n_samples
      (fun k final_predictions =>
         bind (on_net (predict (nth k inputs [])))
           (fun prediction =>
              match prediction with
              | p0 :: _ => ret (final_predictions ++ [Finite p0])
              | [] => ret (final_predictions ++ [NonFinite])
              end))
      [] w
    = (Ok preds, w)
    /\ length preds = n_samples
    /\ forall k, (k < n_samples)%nat ->
         nth k preds NonFinite
         = Finite (nth 0 (output (fst w) (nth k inputs [])) 0).
Proof.
  intros Hw.
  set (I := fun (k : nat) (acc : list fp) (w' : t * stdout) =>
              w' = w /\ length acc = k
              /\ forall j, (j < k)%nat ->
                   nth j acc NonFinite
                   = Finite (nth 0 (output (fst w) (nth j inputs [])) 0)).
  match goal with
  | |- exists preds, for_loopM ?n ?body ?a ?s = _ /\ _ =>
      destruct (for_loopM_ok I body n a s)
        as (preds & w' & Hrun & Hw' & Hl & Hnth)
  end.
  - split; [reflexivity|]. split; [reflexivity|]. intros j Hj. lia.
  - intros k acc w1 Hk (-> & Hacc & Hprev).
    destruct (trainable_predict nn0 (fst w) (nth k inputs []) Hw
                (input_width k Hk)) as (Hp & _ & Hne).
    unfold bind at 1. rewrite (on_net_ok _ _ _ _ Hp).
    destruct (output (fst w) (nth k inputs [])) as [|p0 p'] eqn:Eo;
      [congruence|].
    unfold ret. eexists _, _. split; [reflexivity|].
    split; [destruct w; reflexivity|].
    split; [rewrite length_app, Hacc; cbn; lia|].
    intros j Hj. destruct (Nat.eq_dec j k) as [->|Hne'].
    + rewrite app_nth2 by lia. rewrite Hacc, Nat.sub_diag, Eo. reflexivity.
    + rewrite app_nth1 by lia. apply Hprev. lia.
  - exists preds. rewrite Hrun, Hw'. auto.
Qed.

End TrainForEpochs.

(** C4 (amended). [train_for_epochs] throws [InvalidArgument], before any
    training, when [inputs] is empty or its length differs from that of
    [targets].  On a network with the dimensions of the invariant and no
    empty layer after the first, non-empty matched [inputs] and [targets]
    in which every input has size [layer_sizes[0]] and every target has
    size [layer_sizes.back()], and a reporting interval that is not zero
    when there is an epoch to run, it returns, for every shuffle: the
    result has one entry per input, entry [k] is the first component of
    [predict] on [inputs[k]] with the weights left by the training; so
    that on such networks and samples it throws [InvalidArgument] if and
    only if [inputs] is empty or the lengths differ. *)
Theorem train_for_epochs_predictions (nn : t)
    (shuffle : nat -> list nat -> list nat)
    (inputs targets : list Vector) (epochs report_every_n_epochs : Z)
    (out : stdout) :
  let run :=
    train_for_epochs shuffle inputs targets epochs report_every_n_epochs
      (nn, out) in
  let fits :=
    dims_ok nn /\ positive_layers nn
    /\ (forall k l, Permutation (shuffle k l) l)
    /\ Forall (fun x => length x = nth 0 (layer_sizes_ nn) 0%nat) inputs
    /\ Forall (fun y => length y = last (layer_sizes_ nn) 0%nat) targets
    /\ ((0 < epochs)%Z -> report_every_n_epochs <> 0%Z) in
  ((inputs = [] \/ length inputs <> length targets) ->
   run = (Throw InvalidArgument, (nn, out)))
  /\ (fits -> inputs <> [] -> length inputs = length targets ->
      exists preds nn' out',
        run = (Ok preds, (nn', out'))
        /\ length preds = length inputs
        /\ (forall k, (k < length inputs)%nat ->
              exists p,
                predict (nth k inputs []) nn' = (Ok p, nn')
                /\ nth k preds NonFinite = Finite (nth 0 p 0))
        /\ layer_sizes_ nn' = layer_sizes_ nn
        /\ dims_ok nn')
  /\ (fits ->
      (fst run = Throw InvalidArgument
       <-> (inputs = [] \/ length inputs <> length targets))).
Proof.
  intros run fits.
  assert (A : (inputs = [] \/ length inputs <> length targets) ->
              run = (Throw InvalidArgument, (nn, out))).
  { intros H. unfold run, train_for_epochs.
    assert (G : (length inputs =? 0)%nat
                || negb (length inputs =? length targets)%nat = true).
    { destruct H as [->|H]; [reflexivity|].
      rewrite (proj2 (Nat.eqb_neq _ _) H). apply orb_true_r. }
    rewrite G. reflexivity. }
  assert (B : fits -> inputs <> [] -> length inputs = length targets ->
      exists preds nn' out',
        run = (Ok preds, (nn', out'))
        /\ length preds = length inputs
        /\ (forall k, (k < length inputs)%nat ->
              exists p,
                predict (nth k inputs []) nn' = (Ok p, nn')
                /\ nth k preds NonFinite = Finite (nth 0 p 0))
        /\ layer_sizes_ nn' = layer_sizes_ nn
        /\ dims_ok nn').
  { intros (Hd & Hp & Hsh & Hin & Htg & Hevery) Hne Hlen.
    assert (Hw : trainable nn (fst (nn, out)))
      by (split; [reflexivity | split; assumption]).
    unfold run, train_for_epochs.
    assert (G : (length inputs =? 0)%nat
                || negb (length inputs =? length targets)%nat = false).
    { rewrite (proj2 (Nat.eqb_eq _ _) Hlen).
      destruct inputs; [congruence | reflexivity]. }
    rewrite G.
    destruct (epoch_loop_ok nn shuffle inputs targets epochs
                report_every_n_epochs Hsh Hlen Hin Htg (Z.to_nat epochs))
      with (epoch := 0%nat) (indices := seq 0 (length inputs)) (w := (nn, out))
      as (s1 & out1 & Hrun1 & Hs1).
    { intros Hr. apply Hevery. lia. }
    { apply Permutation_refl. }
    { exact Hw. }
    unfold bind at 1. rewrite Hrun1.
    destruct (final_predictions_ok nn inputs targets Hlen Hin (s1, out1) Hs1)
      as (preds & Hrun2 & Hl & Hnth).
    rewrite Hrun2. exists preds, s1, out1.
    split; [reflexivity|]. split; [exact Hl|]. split.
    - intros k Hk.
      destruct (trainable_predict nn s1 (nth k inputs []) Hs1) as (Hpk & _).
      { rewrite Forall_forall in Hin. apply Hin. apply nth_In. exact Hk. }
      exists (output s1 (nth k inputs [])). split; [exact Hpk|].
      apply (Hnth k Hk).
    - destruct Hs1 as (H1 & H2 & _). auto. }
  split; [exact A|]. split; [exact B|].
  intros Hfits. split.
  - intros Ht. destruct inputs as [|x inputs'] eqn:Ei; [now left|]. right.
    intros Hlen.
    destruct (B Hfits ltac:(discriminate) Hlen) as (preds & nn' & out' & Hrun & _).
    rewrite Hrun in Ht. discriminate.
  - intros H. rewrite (A H). reflexivity.
Qed.

Lemma train_for_epochs_predictions_witness :
  exists preds nn' out',
    train_for_epochs (fun _ l => rev l)
      [[0]; [0.5]; [1]] [[0]; [0.25]; [1]] 3 2 (test_network, [])
    = (Ok preds, (nn', out'))
    /\ length preds = 3%nat.
Proof.
  destruct (train_for_epochs_predictions test_network (fun _ l => rev l)
              [[0]; [0.5]; [1]] [[0]; [0.25]; [1]] 3 2 []) as (_ & H & _).
  destruct H as (preds & nn' & out' & Hrun & Hl & _).
  - split; [exact test_network_dims|].
    split; [exact test_network_positive|].
    split; [intros k l; apply Permutation_sym, Permutation_rev|].
    split; [repeat constructor|].
    split; [repeat constructor|].
    intros _. discriminate.
  - discriminate.
  - reflexivity.
  - exists preds, nn', out'. split; [exact Hrun | exact Hl].
Defined.

(** C4, as stated, fails: with non-empty [inputs] and [targets] of the same
    length, an input of size 2 for a network whose input layer has size 1
    makes [train_for_epochs] throw [InvalidArgument], on a network that
    satisfies the invariant and has no empty layer. *)
Lemma train_for_epochs_throws_on_input_width :
  [[1; 2]] <> []
  /\ length [[1; 2]] = length [[1]]
  /\ dims_ok test_network /\ positive_layers test_network
  /\ fst (train_for_epochs (fun _ l => l) [[1; 2]] [[1]] 1 10
            (test_network, []))
     = Throw InvalidArgument.
Proof.
  split; [discriminate|]. split; [reflexivity|].
  split; [exact test_network_dims|]. split; [exact test_network_positive|].
  reflexivity.
Qed.

(** A reporting interval of zero with an epoch to run is an [int]
    remainder by zero. *)
Example train_for_epochs_zero_interval :
  fst (train_for_epochs (fun _ l => l) [[0.5]] [[0.1]] 1 0
         (test_network, []))
  = Undefined.
Proof. reflexivity. Qed.

End NeuralNetworkFacts.

(* ================================================================== *)
(** * Further properties of the linear model *)

Module LinearRegressionMore.

Import LinearRegression LinearRegressionFacts.
Module Spec := LinearRegressionSpec.

(** ** Sums *)

Lemma Rsum_nonneg {A : Type} (f : A -> R) (l : list A) :
  (forall a, In a l -> 0 <= f a) -> 0 <= Rsum (map f l).
Proof.
  induction l as [|a l IH]; intros H; cbn [map Rsum]; [lra|].
  pose proof (H a (or_introl eq_refl)).
  assert (0 <= Rsum (map f l)) by (apply IH; intros b Hb; apply H; now right).
  lra.
Qed.

Lemma Rsum_nonneg_zero {A : Type} (f : A -> R) (l : list A) :
  (forall a, In a l -> 0 <= f a) ->
  Rsum (map f l) = 0 -> forall a, In a l -> f a = 0.
Proof.
  induction l as [|a l IH]; intros H Hs b Hb; [contradiction|].
  cbn [map Rsum] in Hs.
  pose proof (H a (or_introl eq_refl)) as Ha.
  assert (Hl : 0 <= Rsum (map f l))
    by (apply Rsum_nonneg; intros c Hc; apply H; now right).
  destruct Hb as [<-|Hb]; [lra|].
  apply IH; [intros c Hc; apply H; now right | lra | exact Hb].
Qed.

Lemma Rsum_zero {A : Type} (f : A -> R) (l : list A) :
  (forall a, In a l -> f a = 0) -> Rsum (map f l) = 0.
Proof.
  induction l as [|a l IH]; intros H; cbn [map Rsum]; [reflexivity|].
  rewrite (H a (or_introl eq_refl)), IH by (intros b Hb; apply H; now right).
  lra.
Qed.

Lemma INR_length_pos {A : Type} (l : list A) : l <> [] -> 0 < INR (length l).
Proof.
  intros H. destruct l as [|a l]; [congruence|].
  apply lt_0_INR. cbn. lia.
Qed.

(** ** The mean squared error *)

(** [get_mse] is never negative, and it is zero exactly when the line of
    the model passes through every sample. *)
Theorem get_mse_nonneg (m : t) (X y : list R) (e : R) :
  get_mse m X y = Ok e ->
  0 <= e
  /\ (e = 0 <-> forall p, In p (combine X y) -> predict m (fst p) = snd p).
Proof.
  unfold get_mse. intros H.
  destruct (Nat.eq_dec (length X) (length y)) as [E|E].
  2:{ unfold mean_squared_error in H.
      rewrite (proj2 (Nat.eqb_neq _ _) E) in H. discriminate. }
  destruct X as [|x X'] eqn:EX.
  { destruct y; [|discriminate]. cbn in H.
    assert (He : e = 0) by congruence. subst e.
    split; [lra|].
    split; [intros _ p Hp; cbn in Hp; contradiction | reflexivity]. }
  rewrite <- EX in *.
  assert (Hx : X <> []) by (rewrite EX; discriminate).
  rewrite (mean_squared_error_ok m X y E Hx) in H. injection H as <-.
  unfold Spec.MSE_batch.
  set (sq := fun p : R * R => (slope m * fst p + intercept m - snd p) ^ 2).
  assert (Hn : 0 < INR (length (combine X y))).
  { apply INR_length_pos. rewrite EX.
    destruct y; [rewrite EX in E; discriminate|]. cbn. discriminate. }
  assert (Hsq : forall p, In p (combine X y) -> 0 <= sq p)
    by (intros p _; unfold sq; apply pow2_ge_0).
  assert (Hs : 0 <= Rsum (map sq (combine X y)))
    by (apply Rsum_nonneg; exact Hsq).
  split.
  - apply Rmult_le_pos; [exact Hs|]. left. apply Rinv_0_lt_compat. exact Hn.
  - split.
    + intros H0 p Hp.
      assert (Hsum : Rsum (map sq (combine X y)) = 0).
      { unfold Rdiv in H0. apply Rmult_integral in H0.
        destruct H0 as [H0|H0]; [exact H0|].
        pose proof (Rinv_0_lt_compat _ Hn). lra. }
      pose proof (Rsum_nonneg_zero sq _ Hsq Hsum p Hp) as Hz.
      unfold sq in Hz. unfold predict.
      assert (Hz' : slope m * fst p + intercept m - snd p = 0).
      { apply Rsqr_0_uniq. unfold Rsqr. rewrite <- Hz. ring. }
      lra.
    + intros Hall.
      rewrite (Rsum_zero sq).
      * unfold Rdiv. ring.
      * intros p Hp. unfold sq. pose proof (Hall p Hp) as Hq.
        unfold predict in Hq. rewrite Hq. ring.
Qed.

Lemma get_mse_nonneg_witness :
  exists e, get_mse (new 0.01 1000 32) [1; 2] [3; 5] = Ok e /\ 0 <= e.
Proof.
  assert (H : exists e, get_mse (new 0.01 1000 32) [1; 2] [3; 5] = Ok e).
  { eexists. reflexivity. }
  destruct H as [e He]. exists e. split; [exact He|].
  apply (get_mse_nonneg (new 0.01 1000 32) [1; 2] [3; 5] e He).
Defined.

(** ** The closed form *)

(** The slope that [fit_analytical] stores. *)
Lemma fit_analytical_run (m : t) (X y : list R) :
  length X = length y -> X <> [] ->
  let s := if Rlt_dec (Rabs (Spec.square_deviation X)) 1e-10 then 0
           else Spec.cross_deviation X y / Spec.square_deviation X in
  fit_analytical X y m
  = (Ok tt, mk s (Spec.mean y - s * Spec.mean X)
              (learning_rate m) (max_iterations m) (batch_size m)).
Proof.
  intros E Hx s.
  assert (Hy : y <> []) by (destruct X, y; cbn in E; congruence).
  unfold fit_analytical.
  rewrite (proj2 (Nat.eqb_eq _ _) E). cbn [negb].
  destruct (length X =? 0)%nat eqn:E0;
    [apply length_zero_nil in E0; congruence|].
  unfold bind, lift, get, put.
  rewrite (mean_ok X Hx), (mean_ok y Hy).
  rewrite (fit_analytical_sums X y _ _ E).
  fold (Spec.cross_deviation X y). fold (Spec.square_deviation X).
  unfold s. destruct (Rlt_dec (Rabs (Spec.square_deviation X)) 1e-10);
    reflexivity.
Qed.

Lemma map_fst_combine {A B : Type} (l1 : list A) (l2 : list B) :
  length l1 = length l2 -> map fst (combine l1 l2) = l1.
Proof.
  revert l2. induction l1 as [|a l1 IH]; intros [|b l2] E; try discriminate;
    [reflexivity|].
  cbn. rewrite IH by (cbn in E; lia). reflexivity.
Qed.

Lemma map_snd_combine {A B : Type} (l1 : list A) (l2 : list B) :
  length l1 = length l2 -> map snd (combine l1 l2) = l2.
Proof.
  revert l2. induction l1 as [|a l1 IH]; intros [|b l2] E; try discriminate;
    [reflexivity|].
  cbn. rewrite IH by (cbn in E; lia). reflexivity.
Qed.

Section PairSums.

Variable l : list (R * R).

Let n := INR (length l).
Let Sx := Rsum (map fst l).
Let Sy := Rsum (map snd l).
Let Sxx := Rsum (map (fun p => fst p * fst p) l).
Let Sxy := Rsum (map (fun p => fst p * snd p) l).

Lemma sum_residual (s b : R) :
  Rsum (map (fun p => s * fst p + b - snd p) l) = s * Sx + n * b - Sy.
Proof.
  unfold n, Sx, Sy. induction l as [|p l' IH].
  - cbn. ring.
  - cbn [map Rsum length]. rewrite IH, S_INR. ring.
Qed.

Lemma sum_residual_x (s b : R) :
  Rsum (map (fun p => (s * fst p + b - snd p) * fst p) l)
  = s * Sxx + b * Sx - Sxy.
Proof.
  unfold Sx, Sxx, Sxy. induction l as [|p l' IH].
  - cbn. ring.
  - cbn [map Rsum]. rewrite IH. ring.
Qed.

Lemma sum_cross_deviation (a c : R) :
  Rsum (map (fun p => (fst p - a) * (snd p - c)) l)
  = Sxy - a * Sy - c * Sx + n * a * c.
Proof.
  unfold n, Sx, Sy, Sxy. induction l as [|p l' IH].
  - cbn. ring.
  - cbn [map Rsum length]. rewrite IH, S_INR. ring.
Qed.

Lemma sum_square_deviation (a : R) :
  Rsum (map (fun p => (fst p - a) ^ 2) l) = Sxx - 2 * a * Sx + n * a * a.
Proof.
  unfold n, Sx, Sxx. induction l as [|p l' IH].
  - cbn. ring.
  - cbn [map Rsum length]. rewrite IH, S_INR. ring.
Qed.

(** The sum of squared errors of a line, around another line. *)
Lemma sum_squares_around (s0 b0 s b : R) :
  Rsum (map (fun p => (s * fst p + b - snd p) ^ 2) l)
  = Rsum (map (fun p => (s0 * fst p + b0 - snd p) ^ 2) l)
    + 2 * (s - s0) * Rsum (map (fun p => (s0 * fst p + b0 - snd p) * fst p) l)
    + 2 * (b - b0) * Rsum (map (fun p => s0 * fst p + b0 - snd p) l)
    + Rsum (map (fun p => ((s - s0) * fst p + (b - b0)) ^ 2) l).
Proof.
  induction l as [|p l' IH].
  - cbn. ring.
  - cbn [map Rsum]. rewrite IH. ring.
Qed.

End PairSums.

(** The normal equations: at the slope and intercept of the closed form
    the residuals sum to zero, and so do the residuals times [x]. *)
Lemma normal_equations (X y : list R) :
  length X = length y -> X <> [] -> Spec.square_deviation X <> 0 ->
  let s0 := Spec.cross_deviation X y / Spec.square_deviation X in
  let b0 := Spec.mean y - s0 * Spec.mean X in
  Rsum (map (fun p => s0 * fst p + b0 - snd p) (combine X y)) = 0
  /\ Rsum (map (fun p => (s0 * fst p + b0 - snd p) * fst p) (combine X y)) = 0.
Proof.
  intros E Hx Hden s0 b0.
  set (l := combine X y).
  assert (HX : map fst l = X) by (apply map_fst_combine; exact E).
  assert (Hy : map snd l = y) by (apply map_snd_combine; exact E).
  assert (Hlen : length l = length X)
    by (unfold l; rewrite length_combine; lia).
  assert (Hn : 0 < INR (length X)) by (apply INR_length_pos; exact Hx).
  assert (Hmx : INR (length X) * Spec.mean X = Rsum X).
  { unfold Spec.mean. field. lra. }
  assert (Hmy : INR (length X) * Spec.mean y = Rsum y).
  { unfold Spec.mean. rewrite <- E. field. lra. }
  assert (Hd : Spec.square_deviation X
               = Rsum (map (fun p => fst p * fst p) l)
                 - Spec.mean X * Rsum X).
  { unfold Spec.square_deviation. rewrite <- HX at 1. rewrite map_map.
    rewrite (sum_square_deviation l (Spec.mean X)), HX, Hlen.
    replace (INR (length X) * Spec.mean X * Spec.mean X)
      with (Spec.mean X * (INR (length X) * Spec.mean X)) by ring.
    rewrite Hmx. ring. }
  assert (Hc : Spec.cross_deviation X y
               = Rsum (map (fun p => fst p * snd p) l)
                 - Spec.mean y * Rsum X).
  { unfold Spec.cross_deviation. fold l.
    rewrite (sum_cross_deviation l (Spec.mean X) (Spec.mean y)), HX, Hy, Hlen.
    replace (INR (length X) * Spec.mean X * Spec.mean y)
      with (Spec.mean X * (INR (length X) * Spec.mean y)) by ring.
    rewrite Hmy. ring. }
  assert (Hs0 : s0 * Spec.square_deviation X = Spec.cross_deviation X y).
  { unfold s0. field. exact Hden. }
  rewrite (sum_residual l), (sum_residual_x l), HX, Hy, Hlen.
  split.
  - unfold b0.
    replace (INR (length X) * (Spec.mean y - s0 * Spec.mean X))
      with (INR (length X) * Spec.mean y - s0 * (INR (length X) * Spec.mean X))
      by ring.
    rewrite Hmx, Hmy. ring.
  - rewrite Hd, Hc in Hs0. unfold b0. lra.
Qed.

(** On data the closed form does not treat as degenerate, the line of
    [fit_analytical] has the least mean squared error among all lines. *)
Theorem fit_analytical_least_squares (m : t) (X y : list R) :
  length X = length y -> X <> [] ->
  ~ Rabs (Spec.square_deviation X) < 1e-10 ->
  exists m' e',
    fit_analytical X y m = (Ok tt, m')
    /\ get_mse m' X y = Ok e'
    /\ forall m2, exists e2, get_mse m2 X y = Ok e2 /\ e' <= e2.
Proof.
  intros E Hx Hnd.
  assert (Hden : Spec.square_deviation X <> 0).
  { intros H0. apply Hnd. rewrite H0, Rabs_R0. lra. }
  pose proof (fit_analytical_run m X y E Hx) as Hrun. cbv zeta in Hrun.
  destruct (Rlt_dec (Rabs (Spec.square_deviation X)) 1e-10) as [Hlt|_];
    [contradiction|].
  set (s0 := Spec.cross_deviation X y / Spec.square_deviation X) in *.
  set (b0 := Spec.mean y - s0 * Spec.mean X) in *.
  eexists _, _. split; [exact Hrun|]. unfold get_mse.
  split; [apply mean_squared_error_ok; assumption|].
  intros m2. eexists. split; [apply mean_squared_error_ok; assumption|].
  cbn [slope intercept]. unfold Spec.MSE_batch.
  destruct (normal_equations X y E Hx Hden) as [N1 N2].
  fold s0 b0 in N1, N2.
  rewrite (sum_squares_around (combine X y) s0 b0 (slope m2) (intercept m2)).
  rewrite N1, N2.
  assert (Hn : 0 < INR (length (combine X y))).
  { apply INR_length_pos. destruct X, y; cbn in *; congruence. }
  assert (Hsq : 0 <= Rsum (map (fun p => ((slope m2 - s0) * fst p
                                           + (intercept m2 - b0)) ^ 2)
                               (combine X y)))
    by (apply Rsum_nonneg; intros p _; apply pow2_ge_0).
  unfold Rdiv. apply Rmult_le_compat_r.
  - left. apply Rinv_0_lt_compat. exact Hn.
  - lra.
Qed.

Lemma fit_analytical_least_squares_witness :
  exists m' e',
    fit_analytical [0; 1; 2; 3] [1; 3; 5; 7.5] (new 0.01 1000 32) = (Ok tt, m')
    /\ get_mse m' [0; 1; 2; 3] [1; 3; 5; 7.5] = Ok e'
    /\ exists e2, get_mse (new 0.01 1000 32) [0; 1; 2; 3] [1; 3; 5; 7.5] = Ok e2
                  /\ e' <= e2.
Proof.
  destruct (fit_analytical_least_squares (new 0.01 1000 32)
              [0; 1; 2; 3] [1; 3; 5; 7.5]) as (m' & e' & Hrun & He & Hall).
  - reflexivity.
  - discriminate.
  - assert (Hd : Spec.square_deviation [0; 1; 2; 3] = 5).
    { unfold Spec.square_deviation, Spec.mean. cbn. field. }
    rewrite Hd, Rabs_pos_eq; lra.
  - exists m', e'. split; [exact Hrun|]. split; [exact He|]. apply Hall.
Defined.

Lemma mean_affine (a c : R) (X : list R) :
  X <> [] ->
  Spec.mean (map (fun x => a * x + c) X) = a * Spec.mean X + c.
Proof.
  intros Hx. pose proof (INR_length_pos X Hx) as Hn.
  unfold Spec.mean. rewrite length_map.
  assert (Hs : Rsum (map (fun x => a * x + c) X)
               = a * Rsum X + INR (length X) * c).
  { clear Hx Hn. induction X as [|x X IH]; [cbn; ring|].
    cbn [map Rsum length]. rewrite IH, S_INR. ring. }
  rewrite Hs. field. lra.
Qed.

Lemma combine_map_r {A B : Type} (f : A -> B) (X : list A) :
  combine X (map f X) = map (fun x => (x, f x)) X.
Proof.
  induction X as [|x X IH]; [reflexivity|]. cbn. rewrite IH. reflexivity.
Qed.

(** Samples that lie on one line [y = a·x + c], with [x] values the closed
    form does not treat as degenerate, give back that line: slope [a],
    intercept [c], predictions on the line and a mean squared error of 0. *)
Theorem fit_analytical_recovers_line (m : t) (a c : R) (X : list R) :
  X <> [] -> ~ Rabs (Spec.square_deviation X) < 1e-10 ->
  let y := map (fun x => a * x + c) X in
  exists m',
    fit_analytical X y m = (Ok tt, m')
    /\ get_slope m' = a /\ get_intercept m' = c
    /\ (forall x, predict m' x = a * x + c)
    /\ get_mse m' X y = Ok 0.
Proof.
  intros Hx Hnd y.
  assert (E : length X = length y) by (unfold y; rewrite length_map; reflexivity).
  assert (Hden : Spec.square_deviation X <> 0).
  { intros H0. apply Hnd. rewrite H0, Rabs_R0. lra. }
  pose proof (fit_analytical_run m X y E Hx) as Hrun. cbv zeta in Hrun.
  destruct (Rlt_dec (Rabs (Spec.square_deviation X)) 1e-10) as [Hlt|_];
    [contradiction|].
  assert (Hmy : Spec.mean y = a * Spec.mean X + c) by (apply mean_affine; exact Hx).
  assert (Hc : Spec.cross_deviation X y = a * Spec.square_deviation X).
  { unfold Spec.cross_deviation, Spec.square_deviation. rewrite Hmy.
    unfold y. rewrite combine_map_r, map_map. cbn [fst snd].
    rewrite <- Rsum_scal. f_equal. apply map_ext. intros x. ring. }
  assert (Hs : Spec.cross_deviation X y / Spec.square_deviation X = a).
  { rewrite Hc. field. exact Hden. }
  rewrite Hs, Hmy in Hrun.
  replace (a * Spec.mean X + c - a * Spec.mean X) with c in Hrun by ring.
  eexists. split; [exact Hrun|].
  split; [reflexivity|]. split; [reflexivity|]. split; [reflexivity|].
  unfold get_mse. rewrite mean_squared_error_ok by assumption.
  cbn [slope intercept]. unfold Spec.MSE_batch, y.
  rewrite combine_map_r, map_map. cbn [fst snd].
  rewrite (Rsum_zero (fun x => (a * x + c - (a * x + c)) ^ 2))
    by (intros x _; ring).
  unfold Rdiv. rewrite Rmult_0_l. reflexivity.
Qed.

Lemma fit_analytical_recovers_line_witness :
  exists m',
    fit_analytical [1; 2; 3; 4] [3; 5; 7; 9] (new 0.01 1000 32) = (Ok tt, m')
    /\ get_slope m' = 2 /\ get_intercept m' = 1 /\ predict m' 5 = 11.
Proof.
  destruct (fit_analytical_recovers_line (new 0.01 1000 32) 2 1 [1; 2; 3; 4])
    as (m' & Hrun & Hs & Hi & Hp & _).
  - discriminate.
  - assert (Hd : Spec.square_deviation [1; 2; 3; 4] = 5).
    { unfold Spec.square_deviation, Spec.mean. cbn. field. }
    rewrite Hd, Rabs_pos_eq; lra.
  - exists m'. cbn [map] in Hrun.
    replace (2 * 1 + 1) with 3 in Hrun by ring.
    replace (2 * 2 + 1) with 5 in Hrun by ring.
    replace (2 * 3 + 1) with 7 in Hrun by ring.
    replace (2 * 4 + 1) with 9 in Hrun by ring.
    split; [exact Hrun|]. split; [exact Hs|]. split; [exact Hi|].
    rewrite Hp. ring.
Defined.



(** ** The coefficient of determination *)

(** On accepted input [get_r_squared] does not throw, and when the [yᵢ]
    are not all equal the result is [1 − RSS/TSS], with
    [RSS = Σ (predict(xᵢ) − yᵢ)²] and [TSS = Σ (yᵢ − ȳ)²], which is at
    most 1. *)
Theorem get_r_squared_value (m : t) (X y : list R) :
  length X = length y -> X <> [] ->
  let tss := Rsum (map (fun v => (v - Spec.mean y) ^ 2) y) in
  let rss := Rsum (map (fun p => (predict m (fst p) - snd p) ^ 2)
                       (combine X y)) in
  (exists r, get_r_squared m X y = Ok r)
  /\ ((exists a b, In a y /\ In b y /\ a <> b) ->
      get_r_squared m X y = Ok (Finite (1 - rss / tss))
      /\ 1 - rss / tss <= 1).
Proof.
  intros E Hx tss rss.
  assert (Hy : y <> []) by (destruct X, y; cbn in E; congruence).
  assert (Htss_pos : 0 <= tss)
    by (apply Rsum_nonneg; intros v _; apply pow2_ge_0).
  assert (Hrss_pos : 0 <= rss)
    by (apply Rsum_nonneg; intros p _; apply pow2_ge_0).
  assert (Hn : 0 < INR (length X)) by (apply INR_length_pos; exact Hx).
  assert (Hrun : get_r_squared m X y
                 = if Req_dec_T tss 0 then Ok NonFinite
                   else Ok (Finite (1 - rss / tss))).
  { unfold get_r_squared. rewrite (proj2 (Nat.eqb_eq _ _) E). cbn [negb orb].
    destruct (length X =? 0)%nat eqn:E0;
      [apply length_zero_nil in E0; congruence|].
    rewrite (mean_ok y Hy). cbn [rbind].
    rewrite (mean_squared_error_ok m X y E Hx). cbn [rbind].
    rewrite for_loop_sum.
    rewrite (Rsum_map_nth (fun v => (v - Spec.mean y) * (v - Spec.mean y))).
    assert (Ht : 0 + Rsum (map (fun v => (v - Spec.mean y) * (v - Spec.mean y)) y)
                 = tss).
    { unfold tss. rewrite Rplus_0_l. f_equal. apply map_ext. intros v. ring. }
    rewrite Ht.
    assert (Hr : Spec.MSE_batch (slope m) (intercept m) (combine X y)
                 * INR (length X) = rss).
    { unfold Spec.MSE_batch, rss, predict.
      rewrite length_combine, <- E, Nat.min_id. field. lra. }
    rewrite Hr. reflexivity. }
  split.
  - rewrite Hrun. destruct (Req_dec_T tss 0); eexists; reflexivity.
  - intros (a & b & Ha & Hb & Hab).
    assert (Hne : tss <> 0).
    { intros H0. apply Hab.
      assert (Hmean : forall v, In v y -> v = Spec.mean y).
      { intros v Hv.
        pose proof (Rsum_nonneg_zero (fun v => (v - Spec.mean y) ^ 2) y
                      (fun v _ => pow2_ge_0 _) H0 v Hv) as Hz.
        cbv beta in Hz.
        assert (Hz' : v - Spec.mean y = 0).
        { apply Rsqr_0_uniq. unfold Rsqr. rewrite <- Hz. ring. }
        lra. }
      rewrite (Hmean a Ha), (Hmean b Hb). reflexivity. }
    rewrite Hrun.
    destruct (Req_dec_T tss 0); [contradiction|].
    split; [reflexivity|].
    assert (0 <= rss / tss).
    { unfold Rdiv. apply Rmult_le_pos; [exact Hrss_pos|].
      left. apply Rinv_0_lt_compat. lra. }
    lra.
Qed.

Lemma get_r_squared_value_witness :
  exists v, get_r_squared (new 0.01 1000 32) [1; 2] [3; 5] = Ok (Finite v)
            /\ v <= 1.
Proof.
  destruct (get_r_squared_value (new 0.01 1000 32) [1; 2] [3; 5])
    as (_ & H).
  - reflexivity.
  - discriminate.
  - eexists. apply H. exists 3, 5.
    split; [now left|]. split; [right; now left | lra].
Defined.

(** ** Gradient descent *)

Lemma gradient_update_fields (bx by_ : list R) (c : nat) (m : t) :
  learning_rate (gradient_update bx by_ c m) = learning_rate m
  /\ max_iterations (gradient_update bx by_ c m) = max_iterations m
  /\ batch_size (gradient_update bx by_ c m) = batch_size m.
Proof.
  unfold gradient_update. destruct (for_loop c _ (0, 0)) as [sg ig].
  cbn. auto.
Qed.

(** The hyperparameters of a model, which no fit changes. *)
Lemma batch_loop_fields (X y : list R) (indices : list nat) (fuel : nat) :
  forall start m,
    learning_rate (batch_loop fuel X y indices start m) = learning_rate m
    /\ max_iterations (batch_loop fuel X y indices start m) = max_iterations m
    /\ batch_size (batch_loop fuel X y indices start m) = batch_size m.
Proof.
  induction fuel as [|f IH]; intros start m; cbn [batch_loop]; [auto|].
  destruct (start <? length X)%nat; [|auto].
  destruct (IH (start + Z.to_nat (batch_size m))%nat
              (minibatch_step X y indices start m)) as (H1 & H2 & H3).
  destruct (gradient_update_fields
              (prepare_batch X indices start
                 (Nat.min (Z.to_nat (batch_size m)) (length X - start)))
              (prepare_batch y indices start
                 (Nat.min (Z.to_nat (batch_size m)) (length X - start)))
              (Nat.min (Z.to_nat (batch_size m)) (length X - start)) m)
    as (G1 & G2 & G3).
  unfold minibatch_step in *. rewrite H1, H2, H3. auto.
Qed.

Lemma epoch_loop_fields (shuffle : nat -> list nat -> list nat)
    (X y : list R) (P : t -> Prop) :
  (forall indices m, P m -> P (batch_loop (length X) X y indices 0 m)) ->
  forall remaining iter indices best count m,
    P m ->
    P (snd (epoch_loop shuffle X y remaining iter indices best count m)).
Proof.
  intros Hbatch.
  induction remaining as [|r IH]; intros iter indices best count m Hm;
    [exact Hm|].
  cbn [epoch_loop]. unfold bind at 1. unfold get at 1.
  unfold bind at 1. unfold put at 1. unfold bind at 1. unfold get at 1.
  pose proof (Hbatch (shuffle iter indices) m Hm) as Hm1.
  set (m1 := batch_loop (length X) X y (shuffle iter indices) 0 m) in *.
  apply NeuralNetworkFacts.bind_state_inv; [exact Hm1|]. intros e s4 Hs4.
  destruct (early_stopping best count (Finite e)) as [[best' count'] brk].
  destruct brk; [exact Hs4|].
  apply NeuralNetworkFacts.bind_state_inv; [apply IH; exact Hs4|].
  intros rest s5 Hs5. exact Hs5.
Qed.

(** [fit] throws [InvalidArgument] exactly when the lengths differ, the
    data is empty or the batch size is not positive; it then leaves the
    model as it was, and otherwise it returns.  Whatever the outcome, the
    learning rate, the iteration bound and the batch size are unchanged,
    and with an iteration bound that is not positive a returning [fit]
    changes nothing. *)
Theorem fit_argument_errors (shuffle : nat -> list nat -> list nat)
    (m : t) (X y : list R) :
  let bad := length X <> length y \/ X = [] \/ (batch_size m <= 0)%Z in
  (bad -> fit shuffle X y m = (Throw InvalidArgument, m))
  /\ (~ bad -> fst (fit shuffle X y m) = Ok tt)
  /\ (~ bad -> (max_iterations m <= 0)%Z -> fit shuffle X y m = (Ok tt, m))
  /\ learning_rate (snd (fit shuffle X y m)) = learning_rate m
  /\ max_iterations (snd (fit shuffle X y m)) = max_iterations m
  /\ batch_size (snd (fit shuffle X y m)) = batch_size m.
Proof.
  intros bad.
  assert (Hbad : bad -> fit shuffle X y m = (Throw InvalidArgument, m)).
  { intros Hb. unfold fit, fit_trace. unfold bind at 1.
    destruct (length X =? length y)%nat eqn:E; [|reflexivity]. cbn [negb].
    destruct (length X =? 0)%nat eqn:E0; [reflexivity|].
    unfold bind at 1. unfold get at 1.
    destruct (batch_size m <=? 0)%Z eqn:Eb; [reflexivity|].
    exfalso. apply Nat.eqb_eq in E. apply Nat.eqb_neq in E0.
    apply Z.leb_gt in Eb.
    destruct Hb as [H|[H|H]]; [congruence | subst X; cbn in E0; lia | lia]. }
  assert (Hgood : ~ bad ->
            fit shuffle X y m
            = (let '(r, m') :=
                 epoch_loop shuffle X y (Z.to_nat (max_iterations m)) 0
                   (seq 0 (length X)) NonFinite 0%Z m in
               match r with
               | Ok _ => (Ok tt, m')
               | Throw e => (Throw e, m')
               | Undefined => (Undefined, m')
               end)).
  { intros Hg. unfold fit, fit_trace. unfold bind at 1.
    destruct (length X =? length y)%nat eqn:E;
      [|exfalso; apply Hg; left; apply Nat.eqb_neq; exact E].
    cbn [negb].
    destruct (length X =? 0)%nat eqn:E0;
      [exfalso; apply Hg; right; left; apply length_zero_nil; exact E0|].
    unfold bind at 1. unfold get at 1.
    destruct (batch_size m <=? 0)%Z eqn:Eb;
      [exfalso; apply Hg; right; right; apply Z.leb_le; exact Eb|].
    destruct (epoch_loop _ _ _ _ _ _ _ _ m) as [[tr|ex|] m']; reflexivity. }
  assert (Hdec : bad \/ ~ bad).
  { unfold bad. destruct (Nat.eq_dec (length X) (length y)); [|tauto].
    destruct X as [|x X']; [tauto|].
    destruct (Z_le_gt_dec (batch_size m) 0); [tauto|].
    right. intros [H|[H|H]]; [contradiction | discriminate | lia]. }
  split; [exact Hbad|]. split; [|split].
  - intros Hg. rewrite (Hgood Hg).
    assert (E : length X = length y).
    { destruct (Nat.eq_dec (length X) (length y)); [assumption|].
      exfalso. apply Hg. now left. }
    assert (Hx : X <> []) by (intros ->; apply Hg; right; now left).
    destruct (epoch_loop_policy shuffle X y E Hx
                (Z.to_nat (max_iterations m)) 0%nat (seq 0 (length X))
                NonFinite 0%Z m) as (tr & m' & Hrun & _); [lia|].
    rewrite Hrun. reflexivity.
  - intros Hg Hmax. rewrite (Hgood Hg).
    replace (Z.to_nat (max_iterations m)) with 0%nat by lia. reflexivity.
  - destruct Hdec as [Hb|Hg].
    + rewrite (Hbad Hb). cbn. auto.
    + rewrite (Hgood Hg).
      pose proof (epoch_loop_fields shuffle X y
                    (fun s => learning_rate s = learning_rate m
                              /\ max_iterations s = max_iterations m
                              /\ batch_size s = batch_size m)) as H.
      cbv beta in H.
      specialize (H (fun indices m1 Hm1 =>
                       let '(conj H4 (conj H5 H6)) := Hm1 in
                       let '(conj H1 (conj H2 H3)) :=
                         batch_loop_fields X y indices (length X) 0%nat m1 in
                       conj (eq_trans H1 H4)
                         (conj (eq_trans H2 H5) (eq_trans H3 H6)))
                    (Z.to_nat (max_iterations m)) 0%nat (seq 0 (length X))
                    NonFinite 0%Z m (conj eq_refl (conj eq_refl eq_refl))).
      destruct (epoch_loop _ _ _ _ _ _ _ _ m) as [[tr|ex|] m']; exact H.
Qed.

Lemma fit_argument_errors_witness :
  fit (fun _ l => l) [1; 2] [3; 5] (new 0.01 1000 0)
  = (Throw InvalidArgument, new 0.01 1000 0)
  /\ fit (fun _ l => l) [1; 2] [3; 5] (new 0.01 0 32)
     = (Ok tt, new 0.01 0 32).
Proof.
  destruct (fit_argument_errors (fun _ l => l) (new 0.01 1000 0) [1; 2] [3; 5])
    as (Hb & _).
  destruct (fit_argument_errors (fun _ l => l) (new 0.01 0 32) [1; 2] [3; 5])
    as (_ & _ & Hz & _).
  split.
  - apply Hb. right. right. cbn. lia.
  - apply Hz.
    + intros [H|[H|H]]; [apply H; reflexivity | discriminate | cbn in H; lia].
    + cbn. lia.
Defined.

(** *** Data that the model already fits *)

Lemma model_ext (m m' : t) :
  slope m' = slope m -> intercept m' = intercept m ->
  learning_rate m' = learning_rate m ->
  max_iterations m' = max_iterations m -> batch_size m' = batch_size m ->
  m' = m.
Proof.
  destruct m, m'. cbn. intros. subst. reflexivity.
Qed.

Lemma combine_map_same {A B C : Type} (f : A -> B) (g : A -> C) (l : list A) :
  combine (map f l) (map g l) = map (fun a => (f a, g a)) l.
Proof.
  induction l as [|a l IH]; [reflexivity|]. cbn. rewrite IH. reflexivity.
Qed.

Section FittedData.

Variable m : t.
Variable X y : list R.
Variable shuffle : nat -> list nat -> list nat.

Hypothesis Hlen : length X = length y.
Hypothesis Hx : X <> [].
Hypothesis Hbs : (0 < batch_size m)%Z.
Hypothesis Hshuffle : forall k l, Permutation (shuffle k l) l.
(** Every sample lies on the line of the model. *)
Hypothesis Hfit :
  forall i, (i < length X)%nat -> nth i y 0 = predict m (nth i X 0).

Lemma minibatch_step_fitted (indices : list nat) (start : nat) :
  Permutation indices (seq 0 (length X)) -> (start < length X)%nat ->
  minibatch_step X y indices start m = m.
Proof.
  intros Hperm Hstart. unfold minibatch_step.
  set (c := Nat.min (Z.to_nat (batch_size m)) (length X - start)).
  pose proof (gradient_update_sums (prepare_batch X indices start c)
                (prepare_batch y indices start c) m) as G.
  rewrite !prepare_batch_length in G. specialize (G eq_refl).
  cbv zeta in G. destruct G as (Gs & Gi & Gl & Gm & Gb).
  assert (Hzero : forall p,
            In p (combine (prepare_batch X indices start c)
                          (prepare_batch y indices start c)) ->
            slope m * fst p + intercept m - snd p = 0).
  { intros p Hp. unfold prepare_batch in Hp.
    rewrite combine_map_same in Hp. apply in_map_iff in Hp.
    destruct Hp as (i & <- & Hi). apply in_seq in Hi. cbn [fst snd].
    assert (Hidx : (nth (start + i) indices 0 < length X)%nat).
    { assert (Hin : In (nth (start + i) indices 0%nat) indices).
      { apply nth_In. rewrite (Permutation_length Hperm), length_seq.
        unfold c in Hi. lia. }
      apply (Permutation_in _ Hperm) in Hin. apply in_seq in Hin. lia. }
    rewrite (Hfit _ Hidx). unfold predict. ring. }
  apply model_ext; try assumption.
  - rewrite Gs. unfold Spec.slope_gradient_sum.
    rewrite Rsum_zero by (intros p Hp; rewrite (Hzero p Hp); ring).
    unfold Rdiv. ring.
  - rewrite Gi. unfold Spec.intercept_gradient_sum.
    rewrite Rsum_zero by (intros p Hp; apply (Hzero p Hp)).
    unfold Rdiv. ring.
Qed.

Lemma minibatch_gradient_fitted (indices : list nat) (start : nat) :
  Permutation indices (seq 0 (length X)) -> (start < length X)%nat ->
  let c := Nat.min (Z.to_nat (batch_size m)) (length X - start) in
  let batch := combine (prepare_batch X indices start c)
                       (prepare_batch y indices start c) in
  Spec.slope_gradient_sum (slope m) (intercept m) batch = 0
  /\ Spec.intercept_gradient_sum (slope m) (intercept m) batch = 0.
Proof.
  intros Hperm Hstart c batch.
  assert (Hzero : forall p, In p batch ->
                            slope m * fst p + intercept m - snd p = 0).
  { intros p Hp. unfold batch, prepare_batch in Hp.
    rewrite combine_map_same in Hp. apply in_map_iff in Hp.
    destruct Hp as (i & <- & Hi). apply in_seq in Hi. cbn [fst snd].
    assert (Hidx : (nth (start + i) indices 0 < length X)%nat).
    { assert (Hin : In (nth (start + i) indices 0%nat) indices).
      { apply nth_In. rewrite (Permutation_length Hperm), length_seq.
        unfold c in Hi. lia. }
      apply (Permutation_in _ Hperm) in Hin. apply in_seq in Hin. lia. }
    rewrite (Hfit _ Hidx). unfold predict. ring. }
  split.
  - unfold Spec.slope_gradient_sum. apply Rsum_zero.
    intros p Hp. rewrite (Hzero p Hp). ring.
  - unfold Spec.intercept_gradient_sum. apply Rsum_zero.
    intros p Hp. apply (Hzero p Hp).
Qed.

Lemma batch_loop_fitted (indices : list nat) (fuel : nat) :
  Permutation indices (seq 0 (length X)) ->
  forall start, batch_loop fuel X y indices start m = m.
Proof.
  intros Hperm. induction fuel as [|f IH]; intros start; [reflexivity|].
  cbn [batch_loop]. destruct (start <? length X)%nat eqn:L; [|reflexivity].
  apply Nat.ltb_lt in L.
  rewrite (minibatch_step_fitted indices start Hperm L). apply IH.
Qed.

Lemma mean_squared_error_fitted : mean_squared_error m X y = Ok 0.
Proof.
  rewrite (mean_squared_error_ok m X y Hlen Hx). f_equal.
  unfold Spec.MSE_batch.
  rewrite <- (Rsum_map_nth2
                (fun a b => (slope m * a + intercept m - b) ^ 2) X y Hlen).
  rewrite (Rsum_zero (fun i => (slope m * nth i X 0 + intercept m - nth i y 0) ^ 2)).
  - unfold Rdiv. ring.
  - intros i Hi. apply in_seq in Hi. rewrite (Hfit i) by lia.
    unfold predict. ring.
Qed.

Lemma early_stopping_zero (count : Z) :
  early_stopping (Finite 0) count (Finite 0)
  = (Finite 0, (count + 1)%Z, (count + 1 >=? patience)%Z).
Proof.
  unfold early_stopping, tolerance.
  destruct (Rgt_dec (0 - 0) (1e-6 * Rmax 1 0)) as [H|H]; [|reflexivity].
  exfalso. rewrite Rmax_left in H by lra. lra.
Qed.

Lemma epoch_loop_fitted (remaining : nat) :
  forall iter indices count,
    Permutation indices (seq 0 (length X)) ->
    (0 <= count < 5)%Z ->
    exists tr,
      epoch_loop shuffle X y remaining iter indices (Finite 0) count m
      = (Ok tr, m)
      /\ length tr = Nat.min remaining (Z.to_nat (5 - count))
      /\ Forall (fun rec => er_mse rec = 0 /\ er_model rec = m) tr.
Proof.
  induction remaining as [|r IH]; intros iter indices count Hperm Hc.
  - exists []. split; [reflexivity|]. split; [reflexivity | constructor].
  - cbn [epoch_loop]. unfold bind at 1. unfold get at 1.
    unfold bind at 1. unfold put at 1. unfold bind at 1. unfold get at 1.
    assert (Hperm' : Permutation (shuffle iter indices) (seq 0 (length X)))
      by (eapply Permutation_trans; [apply Hshuffle | exact Hperm]).
    rewrite (batch_loop_fitted _ _ Hperm').
    unfold bind at 1. unfold lift at 1.
    rewrite mean_squared_error_fitted, early_stopping_zero.
    unfold patience.
    destruct (count + 1 >=? 5)%Z eqn:Eb.
    + eexists. split; [reflexivity|]. split.
      * cbn [length]. replace (Z.to_nat (5 - count)) with 1%nat by lia. lia.
      * repeat constructor.
    + destruct (IH (S iter) (shuffle iter indices) (count + 1)%Z Hperm')
        as (tr & Hrun & Hl & Hall); [lia|].
      unfold bind, ret. rewrite Hrun. eexists. split; [reflexivity|]. split.
      * cbn [length]. rewrite Hl. lia.
      * constructor; [split; reflexivity | exact Hall].
Qed.

End FittedData.

(** When every sample already lies on the line of the model, [fit] changes
    nothing: every gradient is zero, every epoch has a mean squared error of
    0, and the loop stops after the first epoch and five epochs without
    improvement, that is after 6 epochs, or after [max_iterations] epochs
    when that is less. *)
Theorem fit_on_fitted_data (shuffle : nat -> list nat -> list nat)
    (m : t) (X y : list R) :
  length X = length y -> X <> [] -> (0 < batch_size m)%Z ->
  (forall k l, Permutation (shuffle k l) l) ->
  (forall i, (i < length X)%nat -> nth i y 0 = predict m (nth i X 0)) ->
  exists tr,
    fit_trace shuffle X y m = (Ok tr, m)
    /\ fit shuffle X y m = (Ok tt, m)
    /\ length tr = Nat.min (Z.to_nat (max_iterations m)) 6
    /\ Forall (fun rec => er_mse rec = 0 /\ er_model rec = m) tr
    /\ forall indices start,
         Permutation indices (seq 0 (length X)) -> (start < length X)%nat ->
         let c := Nat.min (Z.to_nat (batch_size m)) (length X - start) in
         let batch := combine (prepare_batch X indices start c)
                              (prepare_batch y indices start c) in
         Spec.slope_gradient_sum (slope m) (intercept m) batch = 0
         /\ Spec.intercept_gradient_sum (slope m) (intercept m) batch = 0
         /\ minibatch_step X y indices start m = m.
Proof.
  intros E Hx Hbs Hsh Hfit.
  assert (Hft : fit_trace shuffle X y m
                = epoch_loop shuffle X y (Z.to_nat (max_iterations m)) 0
                    (seq 0 (length X)) NonFinite 0%Z m).
  { unfold fit_trace. rewrite (proj2 (Nat.eqb_eq _ _) E). cbn [negb].
    destruct (length X =? 0)%nat eqn:E0;
      [apply length_zero_nil in E0; congruence|].
    unfold bind at 1. unfold get at 1.
    destruct (batch_size m <=? 0)%Z eqn:Eb; [apply Z.leb_le in Eb; lia|].
    reflexivity. }
  assert (Hloop : exists tr,
            epoch_loop shuffle X y (Z.to_nat (max_iterations m)) 0
              (seq 0 (length X)) NonFinite 0%Z m = (Ok tr, m)
            /\ length tr = Nat.min (Z.to_nat (max_iterations m)) 6
            /\ Forall (fun rec => er_mse rec = 0 /\ er_model rec = m) tr).
  { destruct (Z.to_nat (max_iterations m)) as [|r].
    - exists []. split; [reflexivity|]. split; [reflexivity | constructor].
    - cbn [epoch_loop]. unfold bind at 1. unfold get at 1.
      unfold bind at 1. unfold put at 1. unfold bind at 1. unfold get at 1.
      assert (Hperm : Permutation (shuffle 0%nat (seq 0 (length X)))
                        (seq 0 (length X))) by apply Hsh.
      rewrite (batch_loop_fitted m X y E Hbs Hfit _ _ Hperm).
      unfold bind at 1. unfold lift at 1.
      rewrite (mean_squared_error_fitted m X y E Hx Hfit).
      cbn [early_stopping].
      destruct (epoch_loop_fitted m X y shuffle E Hx Hbs Hsh Hfit r 1%nat
                  (shuffle 0%nat (seq 0 (length X))) 0%Z Hperm)
        as (tr & Hrun & Hl & Hall); [lia|].
      unfold bind, ret. rewrite Hrun. eexists. split; [reflexivity|]. split.
      + cbn [length]. rewrite Hl. cbn. lia.
      + constructor; [split; reflexivity | exact Hall]. }
  destruct Hloop as (tr & Hrun & Hl & Hall).
  exists tr. split; [rewrite Hft; exact Hrun|].
  split; [unfold fit, bind; rewrite Hft, Hrun; reflexivity|].
  split; [exact Hl|]. split; [exact Hall|].
  intros indices start Hperm Hstart c batch.
  destruct (minibatch_gradient_fitted m X y E Hbs Hfit indices start
              Hperm Hstart) as [G1 G2].
  split; [exact G1|]. split; [exact G2|].
  apply minibatch_step_fitted; assumption.
Qed.

Lemma fit_on_fitted_data_witness :
  exists tr,
    fit_trace (fun _ l => rev l) [1; 2; 3; 4] [3; 5; 7; 9]
      (mk 2 1 0.01 1000 32)
    = (Ok tr, mk 2 1 0.01 1000 32)
    /\ length tr = 6%nat.
Proof.
  destruct (fit_on_fitted_data (fun _ l => rev l) (mk 2 1 0.01 1000 32)
              [1; 2; 3; 4] [3; 5; 7; 9]) as (tr & Hrun & _ & Hl & _).
  - reflexivity.
  - discriminate.
  - reflexivity.
  - intros k l. apply Permutation_sym, Permutation_rev.
  - intros i Hi. unfold predict. cbn [slope intercept length] in *.
    do 4 (destruct i as [|i]; [cbn; lra|]). lia.
  - exists tr. split; [exact Hrun|]. rewrite Hl. reflexivity.
Defined.

End LinearRegressionMore.

(* ================================================================== *)
(** * Further properties of the network *)

Module NeuralNetworkMore.

Import NeuralNetwork NeuralNetworkSpec NeuralNetworkFacts.

(** ** The activation function *)

Lemma sigmoid_denominator_pos (x : R) : 1 < 1 + exp (- x).
Proof. pose proof (exp_pos (- x)). lra. Qed.

(** [sigmoid] takes its values between 0 and 1, is 1/2 at 0 and satisfies
    [sigmoid(−x) = 1 − sigmoid(x)]; [sigmoid_derivative] is not negative
    and at most 1/4, its value at 0.  (The bounds are not strict: the
    rounded function reaches 1 and 0, and the rounded derivative 0, far
    from the origin.) *)
Theorem sigmoid_range (x : R) :
  0 <= sigmoid x <= 1
  /\ sigmoid 0 = 1 / 2
  /\ sigmoid (- x) = 1 - sigmoid x
  /\ 0 <= sigmoid_derivative x <= 1 / 4
  /\ sigmoid_derivative 0 = 1 / 4.
Proof.
  pose proof (sigmoid_denominator_pos x) as Hd.
  assert (Hr : 0 < sigmoid x < 1).
  { unfold sigmoid. split.
    - apply Rdiv_lt_0_compat; lra.
    - apply Rmult_lt_reg_r with (1 + exp (- x)); [lra|].
      unfold Rdiv. rewrite Rmult_assoc, Rinv_l by lra. lra. }
  assert (H0 : sigmoid 0 = 1 / 2).
  { unfold sigmoid. rewrite Ropp_0, exp_0. lra. }
  split; [lra|]. split; [exact H0|]. split; [|split].
  - unfold sigmoid. rewrite Ropp_involutive, exp_Ropp.
    pose proof (exp_pos x). field. split; lra.
  - unfold sigmoid_derivative. cbv zeta. set (s := sigmoid x) in *. split.
    + apply Rmult_le_pos; lra.
    + replace (s * (1 - s)) with (1 / 4 - (s - 1 / 2) ^ 2) by field.
      pose proof (pow2_ge_0 (s - 1 / 2)). lra.
  - unfold sigmoid_derivative. cbv zeta. rewrite H0. lra.
Qed.

(** [sigmoid_derivative] is the derivative of [sigmoid]. *)
Theorem sigmoid_derivative_correct (x : R) :
  derivable_pt_lim sigmoid x (sigmoid_derivative x).
Proof.
  pose proof (sigmoid_denominator_pos x) as Hd.
  set (den := (fct_cte 1 + comp exp (- id))%F).
  assert (Dden : derivable_pt_lim den x (0 + exp (- x) * (- 1))).
  { unfold den. apply derivable_pt_lim_plus.
    - apply derivable_pt_lim_const.
    - apply (derivable_pt_lim_comp (- id)%F exp).
      + apply derivable_pt_lim_opp. apply derivable_pt_lim_id.
      + apply derivable_pt_lim_exp. }
  assert (Hden : den x = 1 + exp (- x)) by reflexivity.
  apply (LinearRegressionFacts.derivable_pt_lim_ext (fct_cte 1 / den)%F).
  - intros t. reflexivity.
  - replace (sigmoid_derivative x)
      with ((0 * den x - (0 + exp (- x) * (- 1)) * fct_cte 1 x) / Rsqr (den x)).
    + apply derivable_pt_lim_div.
      * apply derivable_pt_lim_const.
      * exact Dden.
      * rewrite Hden. lra.
    + unfold sigmoid_derivative, sigmoid, fct_cte, Rsqr. rewrite Hden.
      cbv zeta. field. lra.
Qed.

(** ** The loss *)

Lemma pointwise_eq (p t : Vector) :
  length p = length t ->
  (forall q, In q (combine p t) -> fst q = snd q) -> p = t.
Proof.
  revert t. induction p as [|a p IH]; intros [|b t] E H; try discriminate;
    [reflexivity|].
  f_equal.
  - apply (H (a, b)). now left.
  - apply IH; [cbn in E; lia|]. intros q Hq. apply H. now right.
Qed.

Lemma mean_squared_error_value (p t : Vector) :
  length p = length t -> p <> [] ->
  mean_squared_error p t = Ok (Finite (NeuralNetworkFormulas.mse_value p t)).
Proof.
  intros E Hp. unfold mean_squared_error.
  rewrite (proj2 (Nat.eqb_eq _ _) E). cbn [negb].
  destruct p as [|a p'] eqn:Ep; [congruence|]. rewrite <- Ep in *.
  do 2 f_equal. unfold NeuralNetworkFormulas.mse_value.
  rewrite for_loop_sum.
  rewrite (Rsum_map_nth2 (fun u v => (u - v) * (u - v))) by exact E.
  rewrite Rplus_0_l. f_equal. f_equal. apply map_ext. intros q. ring.
Qed.

(** The static [mean_squared_error] throws [InvalidArgument] exactly when
    the sizes differ and is not a number on two empty vectors; on
    non-empty vectors of one size it is the mean of the squared
    differences, never negative, and zero exactly when the vectors are
    equal. *)
Theorem mean_squared_error_static (p t : Vector) :
  (mean_squared_error p t = Throw InvalidArgument <-> length p <> length t)
  /\ mean_squared_error [] [] = Ok NonFinite
  /\ (length p = length t -> p <> [] ->
      mean_squared_error p t
      = Ok (Finite (NeuralNetworkFormulas.mse_value p t))
      /\ 0 <= NeuralNetworkFormulas.mse_value p t
      /\ (NeuralNetworkFormulas.mse_value p t = 0 <-> p = t)).
Proof.
  split; [|split; [reflexivity|]].
  - unfold mean_squared_error.
    destruct (length p =? length t)%nat eqn:E; cbn [negb].
    + apply Nat.eqb_eq in E. split; [|congruence].
      destruct p; discriminate.
    + apply Nat.eqb_neq in E. split; auto.
  - intros E Hp. split; [apply mean_squared_error_value; assumption|].
    unfold NeuralNetworkFormulas.mse_value.
    set (sq := fun q : R * R => (fst q - snd q) ^ 2).
    assert (Hn : 0 < INR (length p))
      by (apply LinearRegressionMore.INR_length_pos; exact Hp).
    assert (Hsq : forall q, In q (combine p t) -> 0 <= sq q)
      by (intros q _; apply pow2_ge_0).
    pose proof (LinearRegressionMore.Rsum_nonneg sq _ Hsq) as Hs.
    split.
    + apply Rmult_le_pos; [exact Hs|]. left. apply Rinv_0_lt_compat. exact Hn.
    + split.
      * intros H0. apply pointwise_eq; [exact E|]. intros q Hq.
        assert (Hsum : Rsum (map sq (combine p t)) = 0).
        { unfold Rdiv in H0. apply Rmult_integral in H0.
          destruct H0 as [H0|H0]; [exact H0|].
          pose proof (Rinv_0_lt_compat _ Hn). lra. }
        pose proof (LinearRegressionMore.Rsum_nonneg_zero sq _ Hsq Hsum q Hq)
          as Hz.
        unfold sq in Hz.
        assert (Hz' : fst q - snd q = 0).
        { apply Rsqr_0_uniq. unfold Rsqr. rewrite <- Hz. ring. }
        lra.
      * intros <-. rewrite (LinearRegressionMore.Rsum_zero sq).
        -- unfold Rdiv. ring.
        -- intros q Hq. unfold sq.
           assert (Hq' : fst q = snd q).
           { clear - Hq. induction p as [|a p IH]; [contradiction|].
             destruct Hq as [<-|Hq]; [reflexivity | apply IH; exact Hq]. }
           rewrite Hq'. ring.
Qed.

Lemma mean_squared_error_static_witness :
  mean_squared_error [0; 0.5] [0; 1]
  = Ok (Finite (NeuralNetworkFormulas.mse_value [0; 0.5] [0; 1]))
  /\ mean_squared_error [1] [1; 2] = Throw InvalidArgument.
Proof.
  destruct (mean_squared_error_static [0; 0.5] [0; 1]) as (_ & _ & H).
  destruct (mean_squared_error_static [1] [1; 2]) as (Ht & _).
  split.
  - apply H; [reflexivity | discriminate].
  - apply Ht. cbn. discriminate.
Defined.

Lemma derivable_pt_lim_coordinate (p t : Vector) (i : nat) (x : R) :
  length p = length t -> (i < length p)%nat ->
  derivable_pt_lim
    (fun v => Rsum (map (fun q => (fst q - snd q) ^ 2)
                        (combine (list_set i v p) t)))
    x (2 * (x - nth i t 0)).
Proof.
  revert t i. induction p as [|a p IH]; intros [|b t] i E Hi;
    try discriminate; [cbn in Hi; lia|].
  destruct i as [|i].
  - cbn [list_set combine map Rsum fst snd nth].
    replace (2 * (x - b)) with (2 * (1 * x + (- b)) * 1 + 0) by ring.
    apply (derivable_pt_lim_plus (fun v => (v - b) ^ 2) (fun _ => _)).
    + apply (LinearRegressionFacts.derivable_pt_lim_ext
               (fun v => (1 * v + (- b)) ^ 2)).
      * intros v. ring.
      * apply LinearRegressionFacts.derivable_pt_lim_affine_sq.
    + apply derivable_pt_lim_const.
  - cbn [list_set combine map Rsum fst snd nth].
    replace (2 * (x - nth i t 0)) with (0 + 2 * (x - nth i t 0)) by ring.
    apply (derivable_pt_lim_plus (fun _ => (a - b) ^ 2)
             (fun v => Rsum (map (fun q => (fst q - snd q) ^ 2)
                                 (combine (list_set i v p) t)))).
    + apply derivable_pt_lim_const.
    + apply IH; cbn in E, Hi; lia.
Qed.

(** [mean_squared_error_derivative] throws [InvalidArgument] exactly when
    the sizes differ and otherwise returns [predicted − target]; component
    [i] of it is [N/2] times the partial derivative of the mean squared
    error with respect to [predicted[i]] (the factor [2/N] is left to the
    learning rate). *)
Theorem mean_squared_error_derivative_gradient (p t : Vector) :
  (mean_squared_error_derivative p t = Throw InvalidArgument
   <-> length p <> length t)
  /\ (length p = length t ->
      mean_squared_error_derivative p t = Ok (vec_sub p t)
      /\ length (vec_sub p t) = length p
      /\ forall i, (i < length p)%nat ->
           nth i (vec_sub p t) 0 = nth i p 0 - nth i t 0
           /\ derivable_pt_lim
                (fun v => NeuralNetworkFormulas.mse_value (list_set i v p) t)
                (nth i p 0)
                (2 / INR (length p) * nth i (vec_sub p t) 0)).
Proof.
  assert (Hok : length p = length t ->
                mean_squared_error_derivative p t = Ok (vec_sub p t)).
  { intros E. unfold mean_squared_error_derivative.
    rewrite (proj2 (Nat.eqb_eq _ _) E). cbn [negb].
    apply subtract_spec. exact E. }
  split.
  - split.
    + intros Ht E. rewrite (Hok E) in Ht. discriminate.
    + intros E. unfold mean_squared_error_derivative.
      rewrite (proj2 (Nat.eqb_neq _ _) E). reflexivity.
  - intros E. split; [apply Hok; exact E|].
    split; [apply vec_sub_length; exact E|].
    intros i Hi.
    assert (Hnth : nth i (vec_sub p t) 0 = nth i p 0 - nth i t 0).
    { unfold vec_sub. rewrite <- (transform2_combine Rminus p t E).
      unfold transform2. rewrite nth_map_seq by exact Hi. reflexivity. }
    split; [exact Hnth|].
    rewrite Hnth. unfold NeuralNetworkFormulas.mse_value.
    apply (LinearRegressionFacts.derivable_pt_lim_ext
             (mult_real_fct (/ INR (length p))
                (fun v => Rsum (map (fun q => (fst q - snd q) ^ 2)
                                    (combine (list_set i v p) t))))).
    + intros v. unfold mult_real_fct. rewrite list_set_length.
      unfold Rdiv. ring.
    + replace (2 / INR (length p) * (nth i p 0 - nth i t 0))
        with (/ INR (length p) * (2 * (nth i p 0 - nth i t 0)))
        by (unfold Rdiv; ring).
      apply derivable_pt_lim_scal.
      apply derivable_pt_lim_coordinate; assumption.
Qed.

Lemma mean_squared_error_derivative_gradient_witness :
  mean_squared_error_derivative [0; 0.5] [0; 1] = Ok (vec_sub [0; 0.5] [0; 1])
  /\ mean_squared_error_derivative [1] [1; 2] = Throw InvalidArgument.
Proof.
  destruct (mean_squared_error_derivative_gradient [0; 0.5] [0; 1])
    as (_ & H).
  destruct (mean_squared_error_derivative_gradient [1] [1; 2]) as (Ht & _).
  split.
  - apply H. reflexivity.
  - apply Ht. cbn. discriminate.
Defined.

(** ** The lines that training writes *)

Lemma mse_value_nonneg (p t : Vector) :
  p <> [] -> 0 <= NeuralNetworkFormulas.mse_value p t.
Proof.
  intros Hp. unfold NeuralNetworkFormulas.mse_value.
  apply Rmult_le_pos.
  - apply LinearRegressionMore.Rsum_nonneg. intros q _. apply pow2_ge_0.
  - left. apply Rinv_0_lt_compat.
    apply LinearRegressionMore.INR_length_pos. exact Hp.
Qed.

Lemma Rsum_seq_S (f : nat -> R) (k : nat) :
  Rsum (map f (seq 0 (S k))) = Rsum (map f (seq 0 k)) + f k.
Proof.
  rewrite seq_S, map_app. cbn [map Nat.add].
  induction (map f (seq 0 k)) as [|a l IH]; cbn [app Rsum]; [ring|].
  rewrite IH. ring.
Qed.

Section Reporting.

Variable nn0 : t.
Variable shuffle : nat -> list nat -> list nat.
Variable inputs targets : list Vector.
Variable epochs report_every_n_epochs : Z.

Hypothesis Hshuffle : forall k l, Permutation (shuffle k l) l.
Hypothesis Hlen : length inputs = length targets.
Hypothesis Hne : inputs <> [].
Hypothesis Hinputs :
  Forall (fun x => length x = nth 0 (layer_sizes_ nn0) 0%nat) inputs.
Hypothesis Htargets :
  Forall (fun y => length y = last (layer_sizes_ nn0) 0%nat) targets.
Hypothesis Hevery : report_every_n_epochs <> 0%Z.

Let n_samples := length inputs.

Lemma dataset_mse_nonneg (s : t) :
  trainable nn0 s ->
  0 <= NeuralNetworkFormulas.dataset_mse s inputs targets.
Proof.
  intros Hs. unfold NeuralNetworkFormulas.dataset_mse.
  apply Rmult_le_pos.
  - apply LinearRegressionMore.Rsum_nonneg. intros i Hi.
    apply in_seq in Hi. apply mse_value_nonneg.
    apply (trainable_predict nn0 s (nth i inputs []) Hs).
    apply (input_width nn0 inputs Hinputs). lia.
  - left. apply Rinv_0_lt_compat.
    apply LinearRegressionMore.INR_length_pos. exact Hne.
Qed.

(** The report of one epoch: nothing, or one line with the number of the
    epoch, counted from 1, and the loss of the network on the dataset. *)
Lemma report_loss_line (epoch : nat) (w : t * stdout) :
  trainable nn0 (fst w) ->
  report_loss inputs targets (Z.of_nat epoch) epochs report_every_n_epochs w
  = (Ok tt,
     (fst w,
      snd w
      ++ (if NeuralNetworkFormulas.reported epochs report_every_n_epochs epoch
          then [((Z.of_nat epoch + 1)%Z,
                 Finite (NeuralNetworkFormulas.dataset_mse (fst w)
                           inputs targets))]
          else []))).
Proof.
  intros Hw. unfold report_loss, NeuralNetworkFormulas.reported.
  rewrite (proj2 (Z.eqb_neq _ _) Hevery).
  destruct (_ || _).
  2:{ unfold ret. rewrite app_nil_r. destruct w; reflexivity. }
  set (f := fun i =>
              NeuralNetworkFormulas.mse_value
                (output (fst w) (nth i inputs [])) (nth i targets [])).
  set (I := fun (k : nat) (acc : fp) (w' : t * stdout) =>
              w' = w /\ acc = Finite (Rsum (map f (seq 0 k)))).
  unfold bind at 1.
  match goal with
  | |- match for_loopM ?n ?body ?a ?s with _ => _ end = _ =>
      destruct (for_loopM_ok I body n a s) as (mse & w' & Hrun & Hw' & Hmse)
  end.
  - split; reflexivity.
  - intros i acc w1 Hi (-> & ->).
    destruct (trainable_predict nn0 (fst w) (nth i inputs []) Hw
                (input_width nn0 inputs Hinputs i Hi)) as (Hp & Hl & Hnil).
    unfold bind at 1. rewrite (on_net_ok _ _ _ _ Hp).
    unfold bind, lift, ret.
    rewrite mean_squared_error_value.
    + eexists _, _. split; [reflexivity|].
      split; [destruct w; reflexivity|].
      cbn [fp_add]. rewrite Rsum_seq_S. reflexivity.
    + rewrite Hl. symmetry.
      apply (target_width nn0 inputs targets Hlen Htargets). exact Hi.
    + exact Hnil.
  - rewrite Hrun, Hw', Hmse. unfold print_loss. cbn [fp_div_size fst snd].
    reflexivity.
Qed.

Lemma epoch_loop_lines (remaining : nat) :
  forall epoch indices w,
    Permutation indices (seq 0 n_samples) ->
    trainable nn0 (fst w) ->
    exists s' lines,
      epoch_loop shuffle inputs targets epochs report_every_n_epochs
        remaining epoch indices w
      = (Ok tt, (s', snd w ++ lines))
      /\ trainable nn0 s'
      /\ map fst lines
         = map (fun e => (Z.of_nat e + 1)%Z)
             (filter (NeuralNetworkFormulas.reported epochs
                        report_every_n_epochs)
                (seq epoch remaining))
      /\ Forall (fun line => exists e, snd line = Finite e /\ 0 <= e) lines
      /\ (remaining = 0%nat -> s' = fst w)
      /\ (remaining <> 0%nat -> Z.of_nat (epoch + remaining) = epochs ->
          exists lines0,
            lines
            = lines0
              ++ [(epochs,
                   Finite (NeuralNetworkFormulas.dataset_mse s'
                             inputs targets))]).
Proof.
  induction remaining as [|r IH]; intros epoch indices w Hperm Hw.
  - exists (fst w), []. rewrite app_nil_r. cbn [epoch_loop]. unfold ret.
    split; [destruct w; reflexivity|]. split; [exact Hw|].
    split; [reflexivity|]. split; [constructor|].
    split; [reflexivity | congruence].
  - cbn [epoch_loop]. cbv zeta.
    assert (Hperm' : Permutation (shuffle epoch indices) (seq 0 n_samples))
      by (eapply Permutation_trans; [apply Hshuffle | exact Hperm]).
    destruct (sample_loop_ok nn0 inputs targets Hlen Hinputs Htargets
                (shuffle epoch indices) w Hperm' Hw) as (s1 & Hrun1 & Hs1).
    unfold bind at 1. rewrite Hrun1.
    unfold bind at 1.
    rewrite (report_loss_line epoch (s1, snd w) Hs1). cbn [fst snd].
    set (line := (if NeuralNetworkFormulas.reported epochs
                       report_every_n_epochs epoch
                  then [((Z.of_nat epoch + 1)%Z,
                         Finite (NeuralNetworkFormulas.dataset_mse s1
                                   inputs targets))]
                  else [])).
    destruct (IH (S epoch) (shuffle epoch indices) (s1, snd w ++ line)
                Hperm' Hs1)
      as (s' & lines & Hrun & Hs' & Hfst & Hall & Hzero & Hlast).
    cbn [fst snd] in *.
    exists s', (line ++ lines). rewrite app_assoc.
    split; [exact Hrun|]. split; [exact Hs'|].
    split; [|split; [|split; [congruence|]]].
    + rewrite map_app, Hfst. cbn [seq filter]. unfold line.
      destruct (NeuralNetworkFormulas.reported _ _ epoch); reflexivity.
    + apply Forall_app. split; [|exact Hall]. unfold line.
      destruct (NeuralNetworkFormulas.reported _ _ epoch); constructor;
        [|constructor].
      eexists. split; [reflexivity|]. apply dataset_mse_nonneg. exact Hs1.
    + intros _ Hend. destruct r as [|r'].
      * specialize (Hzero eq_refl). subst s'.
        cbn [seq filter map] in Hfst. destruct lines; [|discriminate].
        exists []. rewrite app_nil_r. unfold line.
        assert (Hrep : NeuralNetworkFormulas.reported epochs
                         report_every_n_epochs epoch = true).
        { unfold NeuralNetworkFormulas.reported.
          apply orb_true_iff. right. apply Z.eqb_eq. lia. }
        rewrite Hrep. cbn [app]. do 2 f_equal. lia.
      * destruct (Hlast ltac:(discriminate) ltac:(lia)) as (lines0 & ->).
        exists (line ++ lines0). rewrite app_assoc. reflexivity.
Qed.

End Reporting.

(** [train_for_epochs] on samples that fit a network with the dimensions
    of the invariant and no empty layer, with a reporting interval that is
    not zero: it returns and appends to the output one line for each epoch
    [e] (counted from 1) with [e % report_every_n_epochs == 0] or
    [e = epochs], in increasing order; a reported loss that is a number is
    not negative; there is one returned prediction per input, and one that
    is a number is the first component of the output of the network that
    is left; when there is an epoch to run, the last line is for epoch
    [epochs], and a loss that is a number there is the loss of the network
    that is left on the whole data set; when [epochs <= 0] nothing is
    written and the network is not changed. *)
Theorem train_for_epochs_report (nn : t)
    (shuffle : nat -> list nat -> list nat)
    (inputs targets : list Vector) (epochs report_every_n_epochs : Z)
    (out : stdout) :
  dims_ok nn -> positive_layers nn ->
  (forall k l, Permutation (shuffle k l) l) ->
  inputs <> [] -> length inputs = length targets ->
  Forall (fun x => length x = nth 0 (layer_sizes_ nn) 0%nat) inputs ->
  Forall (fun y => length y = last (layer_sizes_ nn) 0%nat) targets ->
  report_every_n_epochs <> 0%Z ->
  exists preds nn' lines,
    train_for_epochs shuffle inputs targets epochs report_every_n_epochs
      (nn, out)
    = (Ok preds, (nn', out ++ lines))
    /\ map fst lines
       = map (fun e => (Z.of_nat e + 1)%Z)
           (filter (NeuralNetworkFormulas.reported epochs
                      report_every_n_epochs)
              (seq 0 (Z.to_nat epochs)))
    /\ Forall (fun line => forall e, snd line = Finite e -> 0 <= e) lines
    /\ length preds = length inputs
    /\ (forall k v, (k < length inputs)%nat ->
          nth k preds NonFinite = Finite v ->
          v = nth 0 (output nn' (nth k inputs [])) 0)
    /\ ((0 < epochs)%Z ->
        exists lines0 loss,
          lines = lines0 ++ [(epochs, loss)]
          /\ forall v, loss = Finite v ->
                v = NeuralNetworkFormulas.dataset_mse nn' inputs targets)
    /\ ((epochs <= 0)%Z -> nn' = nn /\ lines = []).
Proof.
  intros Hd Hp Hsh Hne Hlen Hin Htg Hevery.
  assert (Hw : trainable nn (fst (nn, out)))
    by (split; [reflexivity | split; assumption]).
  unfold train_for_epochs.
  assert (G : (length inputs =? 0)%nat
              || negb (length inputs =? length targets)%nat = false).
  { rewrite (proj2 (Nat.eqb_eq _ _) Hlen).
    destruct inputs; [congruence | reflexivity]. }
  rewrite G.
  destruct (epoch_loop_lines nn shuffle inputs targets epochs
              report_every_n_epochs Hsh Hlen Hne Hin Htg Hevery
              (Z.to_nat epochs) 0%nat (seq 0 (length inputs)) (nn, out)
              (Permutation_refl _) Hw)
    as (s1 & lines & Hrun1 & Hs1 & Hfst & Hall & Hzero & Hlast).
  cbn [fst snd] in *.
  unfold bind at 1. rewrite Hrun1.
  destruct (final_predictions_ok nn inputs targets Hlen Hin
              (s1, out ++ lines) Hs1) as (preds & Hrun2 & Hl & Hnth).
  rewrite Hrun2. exists preds, s1, lines.
  split; [reflexivity|]. split; [exact Hfst|]. split.
  { eapply Forall_impl; [|exact Hall].
    intros line (e & He & Hpos) e' He'. rewrite He in He'.
    injection He' as <-. exact Hpos. }
  split; [exact Hl|]. split; [|split].
  - intros k v Hk Hv. rewrite (Hnth k Hk) in Hv. cbn [fst] in Hv.
    injection Hv as <-. reflexivity.
  - intros Hpos. destruct Hlast as (lines0 & ->); [lia | lia |].
    eexists lines0, _. split; [reflexivity|].
    intros v Hv. injection Hv as <-. reflexivity.
  - intros Hle. assert (Hz : Z.to_nat epochs = 0%nat) by lia.
    split; [apply Hzero; exact Hz|].
    rewrite Hz in Hfst. cbn in Hfst. destruct lines; [reflexivity|discriminate].
Qed.

Lemma train_for_epochs_report_witness :
  exists preds nn' lines,
    train_for_epochs (fun _ l => rev l)
      [[0]; [0.5]; [1]] [[0]; [0.25]; [1]] 5 2 (test_network, [])
    = (Ok preds, (nn', lines))
    /\ map fst lines = [2; 4; 5]%Z.
Proof.
  destruct (train_for_epochs_report test_network (fun _ l => rev l)
              [[0]; [0.5]; [1]] [[0]; [0.25]; [1]] 5 2 [])
    as (preds & nn' & lines & Hrun & Hfst & _).
  - exact test_network_dims.
  - exact test_network_positive.
  - intros k l. apply Permutation_sym, Permutation_rev.
  - discriminate.
  - reflexivity.
  - repeat constructor.
  - repeat constructor.
  - discriminate.
  - exists preds, nn', lines. split; [exact Hrun | exact Hfst].
Defined.

(** ** The state that a forward pass leaves *)

Lemma sigmoid_unit (x : R) : 0 < sigmoid x < 1.
Proof.
  pose proof (sigmoid_denominator_pos x) as Hd. unfold sigmoid. split.
  - apply Rdiv_lt_0_compat; lra.
  - apply Rmult_lt_reg_r with (1 + exp (- x)); [lra|].
    unfold Rdiv. rewrite Rmult_assoc, Rinv_l by lra. lra.
Qed.

(** [forward_pass] on an input of the size of the input layer, on a
    network with the dimensions of the invariant and no empty layer:
    it returns the output of the formulas and touches no durable state;
    afterwards [layer_outputs_] has one vector per layer, of the size of
    that layer, the first is the input and the last is the returned
    output; [layer_inputs_] has one vector per transition and its last is
    the returned output too (the output layer is linear); every entry of
    a hidden layer's activation lies between 0 and 1; and what an earlier
    pass has stored has no influence on a later pass. *)
Theorem forward_pass_transient_state (nn : t) (input input2 : Vector) :
  dims_ok nn -> positive_layers nn ->
  length input = nth 0 (layer_sizes_ nn) 0%nat ->
  length input2 = nth 0 (layer_sizes_ nn) 0%nat ->
  let L := length (layer_sizes_ nn) in
  let s := snd (forward_pass input nn) in
  fst (forward_pass input nn) = Ok (output nn input)
  /\ durable_eq nn s
  /\ length (layer_outputs_ s) = L
  /\ length (layer_inputs_ s) = (L - 1)%nat
  /\ nth 0 (layer_outputs_ s) [] = input
  /\ last (layer_outputs_ s) [] = output nn input
  /\ last (layer_inputs_ s) [] = output nn input
  /\ (forall l, (l < L)%nat ->
        length (nth l (layer_outputs_ s) []) = nth l (layer_sizes_ nn) 0%nat)
  /\ (forall l, (1 <= l < L - 1)%nat ->
        Forall (fun a => 0 <= a <= 1) (nth l (layer_outputs_ s) []))
  /\ forward_pass input2 s = forward_pass input2 nn.
Proof.
  intros Hd Hp Hin Hin2 L s.
  pose proof (forward_pass_spec nn input Hd Hin Hp) as Hspec.
  assert (HL : (2 <= L)%nat) by (destruct Hd; assumption).
  assert (Hs : s = after_forward nn input) by (unfold s; rewrite Hspec; reflexivity).
  split; [rewrite Hspec; reflexivity|].
  split; [apply forward_pass_durable|].
  rewrite Hs. unfold after_forward. cbn [layer_outputs_ layer_inputs_].
  fold L.
  split; [rewrite length_map, length_seq; reflexivity|].
  split; [rewrite length_map, length_seq; reflexivity|].
  split; [destruct L as [|L']; [lia | reflexivity]|].
  split; [|split; [|split; [|split]]].
  - rewrite last_nth, length_map, length_seq.
    rewrite (nth_indep _ [] (activation nn input 0))
      by (rewrite length_map, length_seq; lia).
    rewrite map_nth, seq_nth by lia. reflexivity.
  - rewrite last_nth, length_map, length_seq.
    rewrite (nth_indep _ [] (pre_activation nn input 0))
      by (rewrite length_map, length_seq; lia).
    rewrite map_nth, seq_nth by lia. cbn [Nat.add].
    unfold output. fold L.
    replace (L - 1)%nat with (S (L - 1 - 1)) at 2 by lia.
    rewrite activation_succ.
    rewrite (proj2 (Nat.ltb_ge _ _)) by lia. reflexivity.
  - intros l Hl.
    rewrite (nth_indep _ [] (activation nn input 0))
      by (rewrite length_map, length_seq; exact Hl).
    rewrite map_nth, seq_nth by exact Hl. cbn [Nat.add].
    apply (activation_length nn input Hd Hin). exact Hl.
  - intros l Hl.
    rewrite (nth_indep _ [] (activation nn input 0))
      by (rewrite length_map, length_seq; lia).
    rewrite map_nth, seq_nth by lia. cbn [Nat.add].
    destruct l as [|l']; [lia|].
    rewrite activation_succ.
    rewrite (proj2 (Nat.ltb_lt _ _)) by (fold L; lia).
    apply Forall_forall. intros a Ha. apply in_map_iff in Ha.
    destruct Ha as (z & <- & _). pose proof (sigmoid_unit z). lra.
  - assert (Hd' : dims_ok (after_forward nn input)) by exact Hd.
    assert (Hp' : positive_layers (after_forward nn input)) by exact Hp.
    change (forward_pass input2 (after_forward nn input)
            = forward_pass input2 nn).
    rewrite (forward_pass_spec (after_forward nn input) input2 Hd' Hin2 Hp').
    rewrite (forward_pass_spec nn input2 Hd Hin2 Hp).
    reflexivity.
Qed.

Lemma forward_pass_transient_state_witness :
  fst (forward_pass [0.5] test_network) = Ok (output test_network [0.5])
  /\ forward_pass [1] (snd (forward_pass [0.5] test_network))
     = forward_pass [1] test_network.
Proof.
  destruct (forward_pass_transient_state test_network [0.5] [1]
              test_network_dims test_network_positive eq_refl eq_refl)
    as (H1 & _ & _ & _ & _ & _ & _ & _ & _ & H2).
  split; [exact H1 | exact H2].
Defined.

(** ** A network without hidden layer *)

(** A network with one input, one output and no hidden layer is the
    linear model: its prediction at [x] is [slope·x + intercept] for its one
    weight and its one bias, and one training step on a sample is the
    update that [LinearRegression::fit] makes for a mini-batch of that one
    sample. *)
Theorem single_neuron_is_linear_regression (s b lr x y : R)
    (max_iter bs : Z) (outputs inputs : list Vector) :
  let nn := mk [1; 1]%nat [[[s]]] [[b]] lr outputs inputs in
  let m := LinearRegression.mk s b lr max_iter bs in
  let m' := LinearRegression.gradient_update [x] [y] 1 m in
  predict [x] nn = (Ok [LinearRegression.predict m x], nn)
  /\ exists nn',
       train [x] [y] nn = (Ok tt, nn')
       /\ layer_sizes_ nn' = [1; 1]%nat
       /\ weights_ nn' = [[[LinearRegression.slope m']]]
       /\ biases_ nn' = [[LinearRegression.intercept m']]
       /\ learning_rate_ nn' = lr.
Proof.
  intros nn m m'.
  assert (Hd : dims_ok nn) by (unfold nn; concrete_dims).
  assert (Hp : positive_layers nn) by (unfold nn; concrete_positive).
  split.
  - rewrite (predict_spec [x] nn Hd Hp eq_refl).
    unfold output, nn, LinearRegression.predict, m. cbn. do 3 f_equal. ring.
  - exists (after_backpropagate nn [x] [y]).
    split; [apply (backpropagate_spec nn [x] [y] Hd Hp eq_refl eq_refl)|].
    split; [reflexivity|].
    unfold after_backpropagate, nn, m', m, LinearRegression.gradient_update.
    cbn. split; [|split; [|reflexivity]]; do 3 f_equal; field.
Qed.

(** ** A step that changes nothing *)

Local Abbreviation all_zero := (Forall (fun x : R => x = 0)).

Lemma all_zero_nth (v : Vector) (r : nat) : all_zero v -> nth r v 0 = 0.
Proof.
  intros H. destruct (Nat.lt_ge_cases r (length v)) as [Hr|Hr].
  - rewrite Forall_forall in H. apply H.
    apply nth_In. exact Hr.
  - apply nth_overflow. exact Hr.
Qed.

Lemma all_zero_vec_sub (v : Vector) : all_zero (vec_sub v v).
Proof.
  unfold vec_sub. apply Forall_forall. intros a Ha.
  apply in_map_iff in Ha. destruct Ha as (p & <- & Hp).
  assert (E : fst p = snd p).
  { clear - Hp. induction v as [|a v IH]; [contradiction|].
    destruct Hp as [<-|Hp]; [reflexivity | apply IH; exact Hp]. }
  rewrite E. ring.
Qed.

Lemma all_zero_hadamard (u v : Vector) : all_zero u -> all_zero (hadamard u v).
Proof.
  unfold hadamard. rewrite !Forall_forall. intros H a Ha.
  apply in_map_iff in Ha. destruct Ha as ([p q] & <- & Hp).
  apply in_combine_l in Hp. cbn [fst snd]. rewrite (H p Hp). ring.
Qed.

Lemma all_zero_mat_T_vec (cols : nat) (W : Matrix) (d : Vector) :
  all_zero d -> all_zero (mat_T_vec cols W d).
Proof.
  unfold mat_T_vec. rewrite !Forall_forall. intros H a Ha.
  apply in_map_iff in Ha. destruct Ha as (j & <- & _).
  apply LinearRegressionMore.Rsum_zero. intros [row q] Hp.
  apply in_combine_r in Hp. cbn [fst snd]. rewrite (H q Hp). ring.
Qed.

Lemma list_rebuild {A : Type} (l : list A) (d : A) :
  map (fun i => nth i l d) (seq 0 (length l)) = l.
Proof. rewrite (map_nth_seq (fun x => x) l d). apply map_id. Qed.

Lemma matrix_rebuild (W : Matrix) (rows cols : nat) :
  matrix_dims W rows cols ->
  map (fun r => map (fun c => nth c (nth r W []) 0) (seq 0 cols)) (seq 0 rows)
  = W.
Proof.
  intros [Hr Hc]. subst rows.
  rewrite (map_nth_seq
             (fun row => map (fun c => nth c row 0) (seq 0 cols)) W []).
  etransitivity; [|apply map_id]. apply map_ext_in. intros row Hrow.
  rewrite Forall_forall in Hc. rewrite <- (Hc row Hrow).
  apply list_rebuild.
Qed.

(** A step of [backpropagate] whose sample fits the network leaves every
    weight and every bias as it is when the network already predicts the
    target, all deltas being zero then, and also when the learning rate
    is zero. *)
Theorem backpropagate_fixed_point (nn : t) (input target : Vector) :
  dims_ok nn -> positive_layers nn ->
  length input = nth 0 (layer_sizes_ nn) 0%nat ->
  length target = last (layer_sizes_ nn) 0%nat ->
  output nn input = target \/ learning_rate_ nn = 0 ->
  exists nn',
    backpropagate input target nn = (Ok tt, nn')
    /\ weights_ nn' = weights_ nn
    /\ biases_ nn' = biases_ nn
    /\ (output nn input = target ->
        forall l, Forall (fun d => d = 0) (delta nn input target l)).
Proof.
  intros Hd Hp Hin Htg Hfix.
  exists (after_backpropagate nn input target).
  split; [apply backpropagate_spec; assumption|].
  assert (Hall : output nn input = target ->
                 forall fuel k, all_zero (delta_from nn input target fuel k)).
  { intros Hout. induction fuel as [|fuel IH]; intros k; cbn [delta_from].
    - rewrite Hout. apply all_zero_vec_sub.
    - apply all_zero_hadamard, all_zero_mat_T_vec, IH. }
  assert (Hz : forall l r,
             learning_rate_ nn * nth r (delta nn input target l) 0 = 0).
  { intros l r. destruct Hfix as [Hout|Hlr]; [|rewrite Hlr; ring].
    unfold delta. rewrite (all_zero_nth _ r (Hall Hout _ _)). ring. }
  destruct Hd as (HL & HW & HB & Hdim).
  assert (EW : map (updated_weights nn input target)
                 (seq 0 (length (layer_sizes_ nn) - 1))
               = weights_ nn).
  { etransitivity; [|apply (list_rebuild (weights_ nn) [])].
    rewrite HW. apply map_ext_in. intros l Hl. apply in_seq in Hl.
    destruct (Hdim l ltac:(lia)) as [HWl _].
    unfold updated_weights.
    etransitivity; [|apply (matrix_rebuild _ _ _ HWl)].
    apply map_ext. intros r. apply map_ext. intros c.
    replace (learning_rate_ nn
             * (nth r (delta nn input target l) 0
                * nth c (activation nn input l) 0))
      with (learning_rate_ nn * nth r (delta nn input target l) 0
            * nth c (activation nn input l) 0) by ring.
    rewrite Hz. ring. }
  assert (EB : map (updated_biases nn input target)
                 (seq 0 (length (layer_sizes_ nn) - 1))
               = biases_ nn).
  { etransitivity; [|apply (list_rebuild (biases_ nn) [])].
    rewrite HB. apply map_ext_in. intros l Hl. apply in_seq in Hl.
    destruct (Hdim l ltac:(lia)) as [_ HBl].
    unfold updated_biases. rewrite <- HBl.
    etransitivity; [|apply (list_rebuild (nth l (biases_ nn) []) 0)].
    apply map_ext. intros r. rewrite Hz. ring. }
  split; [exact EW|]. split; [exact EB|].
  intros Hout l. unfold delta. apply Hall. exact Hout.
Qed.

Lemma backpropagate_fixed_point_witness :
  exists nn',
    backpropagate [0.5] (output test_network [0.5]) test_network
    = (Ok tt, nn')
    /\ weights_ nn' = weights_ test_network
    /\ biases_ nn' = biases_ test_network.
Proof.
  destruct (backpropagate_fixed_point test_network [0.5]
              (output test_network [0.5]) test_network_dims
              test_network_positive eq_refl eq_refl (or_introl eq_refl))
    as (nn' & Hrun & HW & HB & _).
  exists nn'. split; [exact Hrun|]. split; [exact HW | exact HB].
Defined.

(** ** Transposition *)

Lemma transpose_unfold (W : Matrix) (rows cols : nat) :
  matrix_dims W rows cols -> (0 < rows)%nat ->
  transpose W
  = map (fun j => map (fun i => nth j (nth i W []) 0) (seq 0 rows))
      (seq 0 cols).
Proof.
  intros [Hr Hc] Hpos. destruct W as [|row0 W']; [cbn in Hr; lia|].
  unfold transpose. rewrite Hr.
  inversion Hc as [|? ? H0 _]; subst. reflexivity.
Qed.

Lemma transpose_dims (W : Matrix) (rows cols : nat) :
  matrix_dims W rows cols -> (0 < rows)%nat ->
  matrix_dims (transpose W) cols rows.
Proof.
  intros HW Hpos. rewrite (transpose_unfold W rows cols HW Hpos). split.
  - rewrite length_map, length_seq. reflexivity.
  - apply Forall_forall. intros row Hrow. apply in_map_iff in Hrow.
    destruct Hrow as (j & <- & _). rewrite length_map, length_seq.
    reflexivity.
Qed.

Lemma nth_nil_0 (j : nat) : nth j (@nil R) 0 = 0.
Proof. destruct j; reflexivity. Qed.

Lemma transpose_entries (W : Matrix) (rows cols : nat) :
  matrix_dims W rows cols -> (0 < rows)%nat ->
  forall i j, nth i (nth j (transpose W) []) 0 = nth j (nth i W []) 0.
Proof.
  intros HW Hpos i j. rewrite (transpose_unfold W rows cols HW Hpos).
  destruct HW as [Hr Hc]. rewrite Forall_forall in Hc.
  assert (Hrhs : (rows <= i)%nat \/ (cols <= j)%nat ->
                 nth j (nth i W []) 0 = 0).
  { intros [Hi|Hj].
    - rewrite (nth_overflow W) by lia. apply nth_nil_0.
    - destruct (Nat.lt_ge_cases i rows) as [Hi|Hi].
      + apply nth_overflow. rewrite (Hc (nth i W [])); [exact Hj|].
        apply nth_In. lia.
      + rewrite (nth_overflow W) by lia. apply nth_nil_0. }
  destruct (Nat.lt_ge_cases j cols) as [Hj|Hj].
  - rewrite (nth_map_seq _ cols j []) by exact Hj.
    destruct (Nat.lt_ge_cases i rows) as [Hi|Hi].
    + rewrite (nth_map_seq _ rows i 0) by exact Hi. reflexivity.
    + rewrite nth_overflow by (rewrite length_map, length_seq; exact Hi).
      symmetry. apply Hrhs. now left.
  - rewrite (nth_overflow (map _ _))
      by (rewrite length_map, length_seq; exact Hj).
    rewrite nth_nil_0. symmetry. apply Hrhs. now right.
Qed.

(** [transpose] of a matrix of [rows > 0] rows of [cols] entries each: the
    result has [cols] rows of [rows] entries and its entry [(j, i)] is the
    entry [(i, j)] of the matrix.  With [cols > 0], transposing twice gives
    the matrix back and [multiply] with the transpose is the product
    [Wᵀ·d].  With no column, the transpose is the empty matrix: the rows
    are lost, transposing twice gives the empty matrix and [multiply]
    with the transpose throws [InvalidArgument]. *)
Theorem transpose_rectangular (W : Matrix) (rows cols : nat) :
  matrix_dims W rows cols -> (0 < rows)%nat ->
  matrix_dims (transpose W) cols rows
  /\ (forall i j, nth i (nth j (transpose W) []) 0 = nth j (nth i W []) 0)
  /\ ((0 < cols)%nat ->
      transpose (transpose W) = W
      /\ forall d, length d = rows ->
           multiply (transpose W) d = Ok (mat_T_vec cols W d))
  /\ (cols = 0%nat ->
      transpose W = [] /\ transpose (transpose W) <> W
      /\ forall d, multiply (transpose W) d = Throw InvalidArgument).
Proof.
  intros HW Hpos.
  pose proof (transpose_dims W rows cols HW Hpos) as HT.
  pose proof (transpose_entries W rows cols HW Hpos) as HE.
  split; [exact HT|]. split; [exact HE|]. split.
  - intros Hc. split.
    + rewrite (transpose_unfold (transpose W) cols rows HT Hc).
      etransitivity; [|apply (matrix_rebuild W rows cols HW)].
      apply map_ext. intros r. apply map_ext. intros c. apply HE.
    + intros d Hd. apply (multiply_transpose_spec W d rows cols); assumption.
  - intros ->.
    assert (E : transpose W = [])
      by (rewrite (transpose_unfold W rows 0 HW Hpos); reflexivity).
    split; [exact E|]. rewrite E. split; [|reflexivity].
    cbn [transpose]. destruct HW as [Hr _]. destruct W; [cbn in Hr; lia|].
    discriminate.
Qed.

Lemma transpose_rectangular_witness :
  transpose (transpose [[1; 2; 3]; [4; 5; 6]]) = [[1; 2; 3]; [4; 5; 6]]
  /\ transpose [[]; []] = [].
Proof.
  destruct (transpose_rectangular [[1; 2; 3]; [4; 5; 6]] 2 3)
    as (_ & _ & H & _).
  { split; [reflexivity | repeat constructor]. }
  { lia. }
  destruct (transpose_rectangular [[]; []] 2 0) as (_ & _ & _ & H0).
  { split; [reflexivity | repeat constructor]. }
  { lia. }
  split.
  - apply H. lia.
  - apply H0. reflexivity.
Defined.

(** ** The product of a matrix and a vector *)

Lemma dot_vec_add (row u v : Vector) :
  length u = length v ->
  dot row (vec_add u v) = dot row u + dot row v.
Proof.
  unfold dot, vec_add. revert u v.
  induction row as [|a row IH]; intros [|b u] [|c v] E; try discriminate;
    cbn [combine map Rsum fst snd]; try lra.
  rewrite IH by (cbn in E; lia). ring.
Qed.

Lemma dot_scalar (row u : Vector) (k : R) :
  dot row (multiply_vector_scalar u k) = dot row u * k.
Proof.
  unfold dot, multiply_vector_scalar. revert u.
  induction row as [|a row IH]; intros [|b u];
    cbn [combine map Rsum fst snd]; try lra.
  rewrite IH. ring.
Qed.

(** [multiply(matrix, vector)] throws [InvalidArgument] exactly when the
    matrix has no row or its first row has not the size of the vector.  On
    a matrix of [rows > 0] rows of [cols] entries and vectors of size
    [cols] it is the product [W·v], of size [rows], and it is linear:
    the product with the sum that [add] returns is the sum of the
    products, and the product with a scaled vector is the scaled
    product. *)
Theorem multiply_linear (W : Matrix) (rows cols : nat) (u v : Vector)
    (k : R) :
  (multiply W u = Throw InvalidArgument
   <-> W = [] \/ length (nth 0 W []) <> length u)
  /\ (matrix_dims W rows cols -> (0 < rows)%nat ->
      length u = cols -> length v = cols ->
      multiply W u = Ok (mat_vec W u)
      /\ length (mat_vec W u) = rows
      /\ add u v = Ok (vec_add u v)
      /\ multiply W (vec_add u v) = add (mat_vec W u) (mat_vec W v)
      /\ multiply W (multiply_vector_scalar u k)
         = Ok (multiply_vector_scalar (mat_vec W u) k)).
Proof.
  split.
  - unfold multiply. destruct W as [|row0 W']; [split; auto|].
    cbn [nth]. destruct (length row0 =? length u)%nat eqn:E; cbn [negb].
    + apply Nat.eqb_eq in E. split; [discriminate|].
      intros [H|H]; [discriminate | contradiction].
    + apply Nat.eqb_neq in E. split; auto.
  - intros [Hr Hc] Hpos Hu Hv.
    assert (HW : W <> []) by (destruct W; [cbn in Hr; lia | discriminate]).
    assert (Hrows : forall x : Vector, length x = cols ->
                      Forall (fun row : Vector => length row = length x) W).
    { intros x Hx. rewrite Hx. exact Hc. }
    split; [apply multiply_spec; auto|].
    split; [rewrite mat_vec_length; exact Hr|].
    split; [apply add_spec; congruence|].
    split.
    + rewrite multiply_spec; [|exact HW|].
      2:{ apply Hrows. rewrite vec_add_length by congruence. exact Hu. }
      rewrite add_spec by (rewrite !mat_vec_length; reflexivity).
      apply (f_equal (@Ok Vector)). unfold mat_vec at 2 3.
      unfold vec_add at 2. rewrite LinearRegressionMore.combine_map_same.
      rewrite map_map. cbn [fst snd]. unfold mat_vec.
      apply map_ext. intros row. apply dot_vec_add. congruence.
    + rewrite multiply_spec; [|exact HW|].
      2:{ apply Hrows. unfold multiply_vector_scalar. rewrite length_map.
          exact Hu. }
      apply (f_equal (@Ok Vector)). unfold mat_vec.
      unfold multiply_vector_scalar at 2. rewrite map_map.
      apply map_ext. intros row. apply dot_scalar.
Qed.

Lemma multiply_linear_witness :
  multiply [[1; 2]; [3; 4]; [5; 6]] (vec_add [1; 0] [0; 1])
  = add (mat_vec [[1; 2]; [3; 4]; [5; 6]] [1; 0])
      (mat_vec [[1; 2]; [3; 4]; [5; 6]] [0; 1]).
Proof.
  destruct (multiply_linear [[1; 2]; [3; 4]; [5; 6]] 3 2 [1; 0] [0; 1] 1)
    as [_ H].
  destruct H as (_ & _ & _ & H & _).
  - split; [reflexivity | repeat constructor].
  - lia.
  - reflexivity.
  - reflexivity.
  - exact H.
Defined.

End NeuralNetworkMore.

(** * The command line: layer sizes *)

Module MainServerFacts.

Import Ascii String.
Import List.
Import NeuralNetwork NeuralNetworkSpec NeuralNetworkFacts MainServer.

Section ParseLayerSizes.

Variable strtoul : String.string -> N * String.string.
Variable size_max : N.

Lemma parse_items_positive (items : list String.string) :
  forall sizes ls,
    Forall (fun n => (0 < n)%nat) sizes ->
    parse_items strtoul size_max items sizes = Ok ls ->
    Forall (fun n => (0 < n)%nat) ls.
Proof.
  induction items as [|item items IH]; intros sizes ls Hs H; cbn in H.
  - injection H as <-. exact Hs.
  - destruct (String.eqb item _); [eapply IH; eassumption|].
    destruct (strtoul item) as [val_ul end_].
    destruct (_ || _); [discriminate|].
    destruct (N.to_nat val_ul =? 0)%nat eqn:E; [discriminate|].
    apply Nat.eqb_neq in E. eapply IH; [|exact H].
    apply Forall_app. split; [exact Hs|]. constructor; [lia|constructor].
Qed.

Lemma parse_items_defined (items : list String.string) :
  forall sizes, parse_items strtoul size_max items sizes <> Undefined.
Proof.
  induction items as [|item items IH]; intros sizes; cbn; [discriminate|].
  destruct (String.eqb item _); [apply IH|].
  destruct (strtoul item) as [val_ul end_].
  destruct (_ || _); [discriminate|].
  destruct (N.to_nat val_ul =? 0)%nat; [discriminate | apply IH].
Qed.

Lemma parseLayerSizes_ok (s : String.string) (ls : list nat) :
  parseLayerSizes strtoul size_max s = Ok ls ->
  (2 <= length ls)%nat /\ Forall (fun n => (0 < n)%nat) ls.
Proof.
  unfold parseLayerSizes. intros H.
  destruct (parse_items _ _ _ _) as [sizes| |] eqn:E; try discriminate.
  cbn [rbind] in H.
  destruct (length sizes <? 2)%nat eqn:E2; [discriminate|].
  injection H as <-. apply Nat.ltb_ge in E2. split; [exact E2|].
  eapply parse_items_positive; [|exact E]. constructor.
Qed.

End ParseLayerSizes.

Lemma positive_sizes_layers (nn : t) :
  Forall (fun n => (0 < n)%nat) (layer_sizes_ nn) -> positive_layers nn.
Proof.
  intros H i Hi. rewrite Forall_forall in H. apply H. apply nth_In. lia.
Qed.

(** Whatever [strtoul] returns, [parseLayerSizes] either throws
    [InvalidArgument] or returns at least two sizes, none of them zero;
    the constructor does not throw [InvalidArgument] on what it returns,
    and a network that the constructor has returned for these sizes has
    the dimensions of the invariant and no empty layer, so that [predict]
    returns on every input of the size of the first layer.  (Whether the
    allocation of the layers succeeds is outside the model.) *)
Theorem parseLayerSizes_accepted (strtoul : String.string -> N * String.string)
    (size_max : N) (s : String.string) :
  parseLayerSizes strtoul size_max s <> Undefined
  /\ forall ls,
       parseLayerSizes strtoul size_max s = Ok ls ->
       (2 <= length ls)%nat
       /\ Forall (fun n => (0 < n)%nat) ls
       /\ forall dis bias_dis lr,
            new dis bias_dis ls lr <> Throw InvalidArgument
            /\ forall nn,
                 new dis bias_dis ls lr = Ok nn ->
                 layer_sizes_ nn = ls
                 /\ dims_ok nn /\ positive_layers nn
                 /\ forall input,
                      length input = nth 0 ls 0%nat ->
                      exists out,
                        predict input nn = (Ok out, nn)
                        /\ length out = last ls 0%nat.
Proof.
  split.
  - unfold parseLayerSizes.
    pose proof (parse_items_defined strtoul size_max
                  (getline_items "-"%char s ""%string) []) as Hd.
    destruct (parse_items _ _ _ _) as [sizes| |]; cbn [rbind];
      [|discriminate|congruence].
    destruct (_ <? _)%nat; discriminate.
  - intros ls H.
    destruct (parseLayerSizes_ok strtoul size_max s ls H) as [H2 Hpos].
    split; [exact H2|]. split; [exact Hpos|].
    intros dis bias_dis lr.
    destruct (new_ok dis bias_dis ls lr H2) as (nn0 & Hnew & Hls & _ & Hd).
    split; [rewrite Hnew; discriminate|].
    intros nn Hnn. rewrite Hnew in Hnn. injection Hnn as <-.
    rename nn0 into nn.
    assert (Hp : positive_layers nn)
      by (apply positive_sizes_layers; rewrite Hls; exact Hpos).
    split; [exact Hls|].
    split; [exact Hd|]. split; [exact Hp|].
    intros input Hin. exists (output nn input).
    destruct (trainable_predict nn nn input) as (Hrun & Hl & _).
    + split; [reflexivity | split; assumption].
    + rewrite Hls. exact Hin.
    + rewrite Hls in Hl. split; [exact Hrun | exact Hl].
Qed.

Lemma parseLayerSizes_accepted_witness :
  parseLayerSizes (fun item => strtoul_digits item 0) 18446744073709551615
    "1-3-1"%string
  = Ok [1; 3; 1]%nat
  /\ dims_ok (initialize_weights_biases (fun _ _ _ => 0.25)
                (fun _ _ => 0.05) (mk [1; 3; 1]%nat [] [] 0.05 [] [])).
Proof.
  split; [reflexivity|].
  destruct (parseLayerSizes_accepted (fun item => strtoul_digits item 0)
              18446744073709551615 "1-3-1"%string) as [_ H].
  destruct (H [1; 3; 1]%nat eq_refl) as (_ & _ & Hnew).
  destruct (Hnew (fun _ _ _ => 0.25) (fun _ _ => 0.05) 0.05) as [_ Hnn].
  destruct (Hnn _ eq_refl) as (_ & Hd & _). exact Hd.
Defined.

(** The [nn_train_predict] branch of [main], after its validations: the
    layer sizes come from [parseLayerSizes] and begin and end with 1, the
    two flat vectors are not empty and have one length, every sample is a
    vector of one entry.  Then, for a reporting interval that is not
    zero, [train_for_epochs] on a network that the constructor has
    returned does not throw and returns one prediction per sample: the
    size test that follows the call in [main] never fails. *)
Theorem nn_train_predict_returns
    (strtoul : String.string -> N * String.string) (size_max : N)
    (s : String.string) (ls : list nat)
    (dis : nat -> nat -> nat -> R) (bias_dis : nat -> nat -> R) (lr : R)
    (nn : t) (shuffle : nat -> list nat -> list nat)
    (X_train_flat y_train_flat : list R)
    (epochs report_every_n_epochs : Z) (out : stdout) :
  parseLayerSizes strtoul size_max s = Ok ls ->
  nth 0 ls 0%nat = 1%nat -> last ls 0%nat = 1%nat ->
  X_train_flat <> [] -> length X_train_flat = length y_train_flat ->
  new dis bias_dis ls lr = Ok nn ->
  (forall k l, Permutation (shuffle k l) l) ->
  report_every_n_epochs <> 0%Z ->
  exists final_predictions_flat nn' out',
    train_for_epochs shuffle (to_samples X_train_flat)
      (to_samples y_train_flat) epochs report_every_n_epochs (nn, out)
    = (Ok final_predictions_flat, (nn', out'))
    /\ length final_predictions_flat = length y_train_flat.
Proof.
  intros Hparse H0 Hlast Hne Hlen Hnew Hsh Hevery.
  destruct (parseLayerSizes_ok strtoul size_max s ls Hparse) as [H2 Hpos].
  destruct (new_ok dis bias_dis ls lr H2) as (nn0 & Hnew0 & Hls & _ & Hd).
  rewrite Hnew in Hnew0. injection Hnew0 as <-.
  assert (Hp : positive_layers nn)
    by (apply positive_sizes_layers; rewrite Hls; exact Hpos).
  assert (Hw : trainable nn (fst (nn, out)))
    by (split; [reflexivity | split; assumption]).
  assert (HlenS : @length Vector (to_samples X_train_flat)
                  = @length Vector (to_samples y_train_flat))
    by (unfold to_samples; rewrite !length_map; exact Hlen).
  assert (Hin : Forall (fun x => length x = nth 0 (layer_sizes_ nn) 0%nat)
                  (to_samples X_train_flat)).
  { apply Forall_forall. intros x Hx. apply in_map_iff in Hx.
    destruct Hx as (v & <- & _). rewrite Hls, H0. reflexivity. }
  assert (Htg : Forall (fun x => length x = last (layer_sizes_ nn) 0%nat)
                  (to_samples y_train_flat)).
  { apply Forall_forall. intros x Hx. apply in_map_iff in Hx.
    destruct Hx as (v & <- & _). rewrite Hls, Hlast. reflexivity. }
  unfold train_for_epochs.
  assert (G : (@length Vector (to_samples X_train_flat) =? 0)%nat
              || negb (@length Vector (to_samples X_train_flat)
                       =? @length Vector (to_samples y_train_flat))%nat
              = false).
  { rewrite (proj2 (Nat.eqb_eq _ _) HlenS).
    destruct X_train_flat; [congruence | reflexivity]. }
  rewrite G.
  destruct (epoch_loop_ok nn shuffle (to_samples X_train_flat)
              (to_samples y_train_flat) epochs report_every_n_epochs
              Hsh HlenS Hin Htg (Z.to_nat epochs) (fun _ => Hevery)
              0%nat (seq 0 (@length Vector (to_samples X_train_flat)))
              (nn, out)
              (Permutation_refl _) Hw)
    as (s1 & out1 & Hrun1 & Hs1).
  unfold bind at 1. rewrite Hrun1.
  destruct (final_predictions_ok nn (to_samples X_train_flat)
              (to_samples y_train_flat) HlenS Hin (s1, out1) Hs1)
    as (preds & Hrun2 & Hl & Hnth).
  rewrite Hrun2. exists preds, s1, out1.
  split; [reflexivity|].
  rewrite Hl. etransitivity; [exact HlenS|].
  unfold to_samples. apply length_map.
Qed.

Lemma nn_train_predict_returns_witness :
  exists final_predictions_flat nn' out',
    train_for_epochs (fun _ l => rev l) (to_samples [0; 0.5; 1])
      (to_samples [0; 0.25; 1]) 20 10
      (initialize_weights_biases (fun _ _ _ => 0.25) (fun _ _ => 0.05)
         (mk [1; 3; 1]%nat [] [] 0.05 [] []), [])
    = (Ok final_predictions_flat, (nn', out'))
    /\ length final_predictions_flat = 3%nat.
Proof.
  destruct (nn_train_predict_returns (fun item => strtoul_digits item 0)
              18446744073709551615 "1-3-1"%string [1; 3; 1]%nat
              (fun _ _ _ => 0.25) (fun _ _ => 0.05) 0.05
              (initialize_weights_biases (fun _ _ _ => 0.25)
                 (fun _ _ => 0.05) (mk [1; 3; 1]%nat [] [] 0.05 [] []))
              (fun _ l => rev l) [0; 0.5; 1] [0; 0.25; 1] 20 10 [])
    as (preds & nn' & out' & Hrun & Hl).
  - reflexivity.
  - reflexivity.
  - reflexivity.
  - discriminate.
  - reflexivity.
  - reflexivity.
  - intros k l. apply Permutation_sym, Permutation_rev.
  - discriminate.
  - exists preds, nn', out'. split; [exact Hrun | exact Hl].
Defined.

End MainServerFacts.

(** * The command line: [lr_train] *)

Module LrTrainFacts.

Import LinearRegression LinearRegressionFacts LinearRegressionMore.
Module Spec := LinearRegressionSpec.





End LrTrainFacts.

(** * The web server: scaling *)

Module ServerFacts.

Import Server.

Lemma Math_min_le (l : list R) :
  forall x, Math_min x l <= x /\ forall v, In v l -> Math_min x l <= v.
Proof.
  unfold Math_min. induction l as [|a l IH]; intros x; cbn [fold_left].
  - split; [lra | contradiction].
  - destruct (IH (Rmin x a)) as [H1 H2].
    pose proof (Rmin_l x a). pose proof (Rmin_r x a).
    split; [lra|]. intros v [<-|Hv]; [lra | apply H2; exact Hv].
Qed.

Lemma Math_max_ge (l : list R) :
  forall x, x <= Math_max x l /\ forall v, In v l -> v <= Math_max x l.
Proof.
  unfold Math_max. induction l as [|a l IH]; intros x; cbn [fold_left].
  - split; [lra | contradiction].
  - destruct (IH (Rmax x a)) as [H1 H2].
    pose proof (Rmax_l x a). pose proof (Rmax_r x a).
    split; [lra|]. intros v [<-|Hv]; [lra | apply H2; exact Hv].
Qed.

Lemma Math_min_in (l : list R) : forall x, In (Math_min x l) (x :: l).
Proof.
  unfold Math_min. induction l as [|a l IH]; intros x; cbn [fold_left].
  - now left.
  - destruct (IH (Rmin x a)) as [H|H].
    + rewrite <- H. unfold Rmin. destruct (Rle_dec x a);
        [now left | right; now left].
    + right. right. exact H.
Qed.

Lemma Math_max_in (l : list R) : forall x, In (Math_max x l) (x :: l).
Proof.
  unfold Math_max. induction l as [|a l IH]; intros x; cbn [fold_left].
  - now left.
  - destruct (IH (Rmax x a)) as [H|H].
    + rewrite <- H. unfold Rmax. destruct (Rle_dec x a);
        [right; now left | now left].
    + right. right. exact H.
Qed.

(** [inverseScaleData] undoes [scaleData]: applied to the scaled values
    with the returned [min] and [range] it gives the data back.  The
    returned [range] is positive, and it is 1 when all values are equal or
    there is none; every scaled value lies between 0 and 1, the smallest
    value of non-empty data is scaled to 0, and the largest is scaled to 1
    unless all values are equal. *)
Theorem scaleData_round_trip (data : list R) :
  let s := scaleData data in
  inverseScaleData (scaled s) (min s) (range s) = data
  /\ length (scaled s) = length data
  /\ 0 < range s
  /\ Forall (fun v => 0 <= v <= 1) (scaled s)
  /\ (data <> [] ->
      In (min s) data /\ (forall v, In v data -> min s <= v)
      /\ In 0 (scaled s))
  /\ ((exists a b, In a data /\ In b data /\ a <> b) -> In 1 (scaled s))
  /\ ((forall a b, In a data -> In b data -> a = b) -> range s = 1).
Proof.
  destruct data as [|x l].
  { cbn. split; [reflexivity|]. split; [reflexivity|]. split; [lra|].
    split; [constructor|]. split; [congruence|].
    split; [intros (a & _ & [] & _) | reflexivity]. }
  cbv zeta. unfold scaleData.
  set (data := x :: l).
  set (mn := Math_min x l). set (mx := Math_max x l).
  set (rg := if Req_dec_T (mx - mn) 0 then 1 else mx - mn).
  cbn [scaled min range].
  assert (Hmin : forall v, In v data -> mn <= v).
  { destruct (Math_min_le l x) as [H1 H2].
    intros v [<-|Hv]; [exact H1 | apply H2; exact Hv]. }
  assert (Hmax : forall v, In v data -> v <= mx).
  { destruct (Math_max_ge l x) as [H1 H2].
    intros v [<-|Hv]; [exact H1 | apply H2; exact Hv]. }
  assert (Hmn_in : In mn data) by apply Math_min_in.
  assert (Hmx_in : In mx data) by apply Math_max_in.
  assert (Hle : mn <= mx) by (apply Hmax; exact Hmn_in).
  assert (Hrg : 0 < rg).
  { unfold rg. destruct (Req_dec_T (mx - mn) 0); lra. }
  split; [|split; [|split; [|split; [|split; [|split]]]]].
  - unfold inverseScaleData. rewrite map_map.
    etransitivity; [|apply map_id]. apply map_ext. intros v. field. lra.
  - apply length_map.
  - exact Hrg.
  - apply Forall_forall. intros u Hu. apply in_map_iff in Hu.
    destruct Hu as (v & <- & Hv).
    pose proof (Hmin v Hv). pose proof (Hmax v Hv). split.
    + apply Rmult_le_pos; [lra|]. left. apply Rinv_0_lt_compat. exact Hrg.
    + apply Rmult_le_reg_r with rg; [exact Hrg|].
      unfold Rdiv. rewrite Rmult_assoc, Rinv_l by lra.
      unfold rg in *. destruct (Req_dec_T (mx - mn) 0); lra.
  - intros _. split; [exact Hmn_in|]. split; [exact Hmin|].
    apply in_map_iff. exists mn. split; [|exact Hmn_in].
    unfold Rdiv. ring.
  - intros (a & b & Ha & Hb & Hab).
    apply in_map_iff. exists mx. split; [|exact Hmx_in].
    unfold rg. destruct (Req_dec_T (mx - mn) 0) as [H0|H0].
    + exfalso. apply Hab.
      pose proof (Hmin a Ha). pose proof (Hmax a Ha).
      pose proof (Hmin b Hb). pose proof (Hmax b Hb). lra.
    + field. exact H0.
  - intros Heq. unfold rg.
    destruct (Req_dec_T (mx - mn) 0) as [H0|H0]; [reflexivity|].
    exfalso. apply H0. rewrite (Heq mx mn Hmx_in Hmn_in). ring.
Qed.

End ServerFacts.
